(** * Zowe Explorer: the profiles cache and the shared tree utilities

    A shallow embedding of [ProfilesCache] (zowe-explorer-api) and of the
    string and error handling helpers of [SharedUtils] (zowe-explorer),
    with the properties their specification states.

    Conventions of the embedding:
    - a JavaScript value of a profile property is a [JsVal];
    - an object that the code shares and mutates (an [IProfileLoaded], the
      [IProfile] it points to) lives in a store and is named by its
      location; a location that the store does not hold reads as
      [undefined], and a property access on it throws;
    - a method of the cache that may end in a TypeError returns an
      [option], [None] being the TypeError; an [Error] that the code
      throws or catches itself is an [Outcome] or a [Completion];
    - what belongs to the runtime or to the [imperative] library (the
      profiles read from disk, the lookup [process.env[name]], [new URL],
      [Number], [path]) is a parameter. *)

From Stdlib Require Import ZArith NArith List String Ascii Bool Lia.
From stdpp Require Import base option list strings gmap.

Open Scope string_scope.
Open Scope list_scope.

(** ** JavaScript values and the operators the code applies to them *)
Module Js.

(** The values that profile properties take: the primitive ones, numbers
    being the integers (ports), and a function or an object, known by its
    identity only, that has none of the properties the code reads and no
    [startsWith] method (as the members that [process.env] inherits from
    [Object.prototype]). *)
Inductive JsVal : Type :=
  | VUndef
  | VNull
  | VBool (b : bool)
  | VNum (n : Z)
  | VStr (s : string)
  | VObj (id : nat).

#[global] Instance JsVal_eq_dec : EqDecision JsVal.
Proof. solve_decision. Defined.

(** ToBoolean. *)
Definition truthy (v : JsVal) : bool :=
  match v with
  | VUndef | VNull => false
  | VBool b => b
  | VNum n => negb (n =? 0)%Z
  | VStr s => negb (String.eqb s "")
  | VObj _ => true
  end.

(** [a !== b]: primitive values by their value, objects by identity. *)
Definition strictNe (a b : JsVal) : JsVal := VBool (bool_decide (a ≠ b)).

(** [a && b] and [a || b], where either operand may throw; the right
    operand only counts when the left one selects it. *)
Definition and_ (a b : option JsVal) : option JsVal :=
  v ← a; if truthy v then b else Some v.

Definition or_ (a b : option JsVal) : option JsVal :=
  v ← a; if truthy v then Some v else b.

(** [a && b] on operands that cannot throw. *)
Definition andV (a b : JsVal) : JsVal := if truthy a then b else a.

(** [v?.startsWith(p)]: [undefined] on a nullish receiver, a boolean on a
    string, and a TypeError on a boolean, a number or an object, which have
    no such method. *)
Definition optStartsWith (v : JsVal) (p : string) : option JsVal :=
  match v with
  | VUndef | VNull => Some VUndef
  | VStr s => Some (VBool (String.prefix p s))
  | VBool _ | VNum _ | VObj _ => None
  end.

(** [s.includes(needle)] *)
Fixpoint includes (needle s : string) : bool :=
  String.prefix needle s
  || match s with
     | EmptyString => false
     | String _ s' => includes needle s'
     end.

(** [s.lastIndexOf(needle)], [-1] when there is none. *)
Fixpoint lastIndexOf (needle s : string) : Z :=
  match s with
  | EmptyString => if String.prefix needle s then 0 else -1
  | String _ s' =>
      let r := lastIndexOf needle s' in
      if (0 <=? r)%Z then (r + 1)%Z
      else if String.prefix needle s then 0%Z else (-1)%Z
  end.

(** [s.slice(0, e)]: a negative [e] counts from the end. *)
Definition slice0 (s : string) (e : Z) : string :=
  let len := Z.of_nat (String.length s) in
  let e' := if (e <? 0)%Z then Z.max (len + e) 0 else Z.min e len in
  String.substring 0 (Z.to_nat e') s.

(** A call either returns or throws an [Error] with a message. *)
Inductive Outcome (A : Type) : Type :=
  | Returned (a : A)
  | Threw (msg : string).
Arguments Returned {A} a.
Arguments Threw {A} msg.

(** An object with string keys, by its own properties; a missing key
    reads as [undefined] (the keys read this way are none of the members
    of [Object.prototype]). *)
Definition getProp (m : gmap string JsVal) (k : string) : JsVal :=
  default VUndef (m !! k).

(** [obj[k] = v] on an object literal: the key "__proto__" is the
    accessor of [Object.prototype], which stores no property of the object
    (it sets the prototype when [v] is an object or null, and does nothing
    for another value). *)
Definition setProp (k : string) (v : JsVal) (m : gmap string JsVal) : gmap string JsVal :=
  if decide (k = "__proto__") then m else <[k := v]> m.

(** [for (const x of xs) body], the body threading a state and possibly
    throwing. *)
Fixpoint forOf {A S : Type} (body : A -> S -> option S) (xs : list A) (s : S)
  : option S :=
  match xs with
  | [] => Some s
  | x :: xs' => s' ← body x s; forOf body xs' s'
  end.

(** *** [Map<string, V>]: entries in insertion order *)
Section JsMap.
Context {V : Type}.

Definition JsMap : Type := list (string * V).

(** [m.get(k)], [m.set(k, v)], [m.delete(k)], [m.keys()], [m.values()] *)
Fixpoint map_get (k : string) (m : JsMap) : option V :=
  match m with
  | [] => None
  | (k', v) :: m' => if decide (k' = k) then Some v else map_get k m'
  end.

Fixpoint map_set (k : string) (v : V) (m : JsMap) : JsMap :=
  match m with
  | [] => [(k, v)]
  | (k', v') :: m' =>
      if decide (k' = k) then (k, v) :: m' else (k', v') :: map_set k v m'
  end.

Fixpoint map_delete (k : string) (m : JsMap) : JsMap :=
  match m with
  | [] => []
  | (k', v') :: m' =>
      if decide (k' = k) then map_delete k m' else (k', v') :: map_delete k m'
  end.

Definition map_keys (m : JsMap) : list string := m.*1.
Definition map_values (m : JsMap) : list V := m.*2.
End JsMap.
Arguments JsMap : clear implicits.

(** *** [Set<string>]: members in insertion order *)
(** [s.add(x)] *)
Definition set_add (x : string) (s : list string) : list string :=
  if decide (x ∈ s) then s else s ++ [x].

(** [new Set(xs)] *)
Definition set_of (xs : list string) : list string :=
  fold_left (fun s x => set_add x s) xs [].

End Js.

(** ** The profiles cache (zowe-explorer-api, [ProfilesCache]) *)
Module ProfilesCache.
Import Js.

Abbreviation loc := nat.

(** [imperative.IProfile]: the merged properties of one profile. *)
Abbreviation IProfile := (gmap string JsVal).

(** [imperative.IProfileLoaded], over what its [profile] field holds. *)
Record IProfileLoadedOf (P : Type) : Type := mkProfileLoaded {
  message : string;
  name : string;
  type : string;
  profile : P;
  failNotFound : bool
}.
Arguments mkProfileLoaded {P}.
Arguments message {P}.
Arguments name {P}.
Arguments type {P}.
Arguments profile {P}.
Arguments failNotFound {P}.

(** In the cache an [IProfileLoaded] holds a reference to its [profile];
    one that a method builds and returns carries the properties. *)
Abbreviation IProfileLoaded := (IProfileLoadedOf loc).

(** [imperative.IProfAttrs], as far as the cache reads it; [osLoc] is
    [profLoc.osLoc], which may be absent. *)
Record IProfAttrs : Type := mkProfAttrs {
  profName : string;
  profType : string;
  isDefaultProfile : bool;
  osLoc : option (list string)
}.

(** One entry of [IProfMergedArgs.knownArgs]. *)
Record IProfArgAttrs : Type := mkArg {
  argName : string;
  argValue : JsVal
}.

(** [imperative.Config], as far as the cache calls it:
    [config.api.secure.secureFields()],
    [config.api.secure.securePropsForProfile(name)],
    [config.api.profiles.getProfilePathFromName(name)] and
    [config.api.profiles.get(name)]. *)
Record Config : Type := mkConfig {
  secureFields : list string;
  securePropsForProfile : string -> list string;
  getProfilePathFromName : string -> string;
  profiles_get : string -> IProfile
}.

(** [imperative.ProfileInfo] after [readProfilesFromDisk]: the external
    library, taken as given. The flag of [mergeArgsForProfile] is its
    option [getSecureVals]. *)
Record ProfileInfo : Type := mkProfileInfo {
  getAllProfiles : string -> list IProfAttrs;
  mergeArgsForProfile : IProfAttrs -> bool -> list IProfArgAttrs;
  getDefaultProfile_info : string -> option IProfAttrs;
  getTeamConfig : Config
}.

(** [Validation.IValidationProfile] *)
Record IValidationProfile : Type := mkValidationProfile {
  vstatus : string;
  vname : string
}.

(** The fields of a [ProfilesCache] that the modelled methods touch, with
    the two stores of the objects they share. *)
Record Cache : Type := mkCache {
  objs : list IProfileLoaded;
  props : list IProfile;
  allProfiles : list loc;
  allTypes : list string;
  allExternalTypes : list string;
  profilesByType : JsMap (list loc);
  defaultProfileByType : JsMap loc;
  profilesForValidation : list IValidationProfile
}.

(** Assignments to the fields. *)
Definition set_objs (f : list IProfileLoaded -> list IProfileLoaded) (c : Cache) : Cache :=
  mkCache (f (objs c)) (props c) (allProfiles c) (allTypes c) (allExternalTypes c)
          (profilesByType c) (defaultProfileByType c) (profilesForValidation c).

Definition set_props (f : list IProfile -> list IProfile) (c : Cache) : Cache :=
  mkCache (objs c) (f (props c)) (allProfiles c) (allTypes c) (allExternalTypes c)
          (profilesByType c) (defaultProfileByType c) (profilesForValidation c).

Definition set_allProfiles (l : list loc) (c : Cache) : Cache :=
  mkCache (objs c) (props c) l (allTypes c) (allExternalTypes c)
          (profilesByType c) (defaultProfileByType c) (profilesForValidation c).

Definition set_allTypes (l : list string) (c : Cache) : Cache :=
  mkCache (objs c) (props c) (allProfiles c) l (allExternalTypes c)
          (profilesByType c) (defaultProfileByType c) (profilesForValidation c).

Definition set_profilesByType (f : JsMap (list loc) -> JsMap (list loc)) (c : Cache) : Cache :=
  mkCache (objs c) (props c) (allProfiles c) (allTypes c) (allExternalTypes c)
          (f (profilesByType c)) (defaultProfileByType c) (profilesForValidation c).

Definition set_defaultProfileByType (f : JsMap loc -> JsMap loc) (c : Cache) : Cache :=
  mkCache (objs c) (props c) (allProfiles c) (allTypes c) (allExternalTypes c)
          (profilesByType c) (f (defaultProfileByType c)) (profilesForValidation c).

Definition set_profilesForValidation (l : list IValidationProfile) (c : Cache) : Cache :=
  mkCache (objs c) (props c) (allProfiles c) (allTypes c) (allExternalTypes c)
          (profilesByType c) (defaultProfileByType c) l.

(** The cache as its constructor leaves it. *)
Definition newCache : Cache := mkCache [] [] [] [] [] [] [] [].

(** What a method sees of an [IProfileLoaded] argument: [None] when the
    argument is nullish, [Some None] when its [profile] is undefined. *)
Definition View : Type := option (option IProfile).

(** The view of the object at a location, and of an optional one. *)
Definition view (c : Cache) (l : loc) : View :=
  o ← objs c !! l; Some (props c !! profile o).

Definition viewOpt (c : Cache) (l : option loc) : View := l ≫= view c.

(** [p?.profile?.k] *)
Definition optProp (p : View) (k : string) : JsVal :=
  match p with
  | Some (Some m) => getProp m k
  | _ => VUndef
  end.

(** [p?.profile.k]: throws when [p] is an object without [profile]. *)
Definition optPropStrict (p : View) (k : string) : option JsVal :=
  match p with
  | None => Some VUndef
  | Some None => None
  | Some (Some m) => Some (getProp m k)
  end.

(** [Validation.IValidationUrl] *)
Record IValidationUrl : Type := mkValidationUrl {
  valid : bool;
  protocol : JsVal;
  host : JsVal;
  port : JsVal
}.

(** What the cache reads of a [URL] object. *)
Record URL : Type := mkURL {
  url_protocol : string;
  url_hostname : string;
  url_port : string
}.

(** Modelled from the spec: [imperative.AbstractSession.DEFAULT_HTTPS_PORT],
    a constant of the external library, is the port 443. *)
Definition DEFAULT_HTTPS_PORT : Z := 443.

Section Methods.
(** [imperative.SessConstants.TOKEN_TYPE_APIML], and [process.env[name]]:
    the value of the lookup, which is [undefined] for a name that the
    object does not have, a string for a variable of the environment, and a
    function or an object for a name that it inherits ("constructor",
    "toString", ...). *)
Variable TOKEN_TYPE_APIML : string.
Variable env : string -> JsVal.

(** [!type] on an optional string argument. *)
Definition noType (t : option string) : bool :=
  match t with
  | None => true
  | Some s => String.eqb s ""
  end.

(** The loop of [loadNamedProfile]: the profile it returns from, if any. *)
Fixpoint loadNamedProfile_loop (c : Cache) (ps : list loc) (n : string)
    (t : option string) : option (option loc) :=
  match ps with
  | [] => Some None
  | l :: ps' =>
      o ← objs c !! l;
      if bool_decide (name o = n) && (noType t || bool_decide (Some (type o) = t))
      then Some (Some l)
      else loadNamedProfile_loop c ps' n t
  end.

(** [loadNamedProfile(name, type?, optional = false)]; the outer [option]
    is a TypeError on an array slot that holds no object. *)
Definition loadNamedProfile (c : Cache) (n : string) (t : option string)
    (optional : option bool) : option (Outcome (option loc)) :=
  r ← loadNamedProfile_loop c (allProfiles c) n t;
  match r with
  | Some l => Some (Returned (Some l))
  | None =>
      if negb (default false optional)
      then Some (Threw ("Zowe Explorer Profiles Cache error: Could not find profile named: "
                          +:+ n +:+ "."))
      else Some (Returned None)
  end.

(** [getDefaultProfile(type = "zosmf")] *)
Definition getDefaultProfile (c : Cache) (t : option string) : option loc :=
  map_get (default "zosmf" t) (defaultProfileByType c).

(** [registerCustomProfilesType(profileTypeName)] *)
Definition registerCustomProfilesType (profileTypeName : string) (c : Cache) : Cache :=
  mkCache (objs c) (props c) (allProfiles c) (allTypes c)
          (set_add profileTypeName (allExternalTypes c))
          (profilesByType c) (defaultProfileByType c) (profilesForValidation c).

(** [getProfileLoaded(profileName, profileType, profile)] *)
Definition getProfileLoaded {P : Type} (profileName profileType : string) (p : P)
  : IProfileLoadedOf P :=
  mkProfileLoaded "" profileName profileType p false.

(** [getMergedAttrs(mProfileInfo, profAttrs)]: the fresh object it
    fills and returns. *)
Definition getMergedAttrs (mProfileInfo : ProfileInfo) (profAttrs : option IProfAttrs)
  : IProfile :=
  match profAttrs with
  | None => ∅
  | Some pa =>
      fold_left (fun p arg => setProp (argName arg) (argValue arg) p)
                (mergeArgsForProfile mProfileInfo pa true) ∅
  end.

(** The loop of [getParentProfileForToken]; the fuel bounds the number
    of iterations, and [None] means that it ran out. *)
Fixpoint getParentProfileForToken_loop (fuel : nat) (config : Config)
    (secureProps : list string) (parentProfile tempProfile : string) : option string :=
  if includes "." tempProfile then
    match fuel with
    | O => None
    | S fuel' =>
        let tempProfile := slice0 tempProfile (lastIndexOf "." tempProfile) in
        if bool_decide
             (getProfilePathFromName config tempProfile +:+ ".properties.tokenValue"
                ∈ secureProps)
        then Some tempProfile
        else getParentProfileForToken_loop fuel' config secureProps parentProfile tempProfile
    end
  else Some parentProfile.

(** [getParentProfileForToken(profileName, config)] *)
Definition getParentProfileForToken (profileName : string) (config : Config)
  : option string :=
  let secureProps := secureFields config in
  let parentProfile := slice0 profileName (lastIndexOf "." profileName) in
  getParentProfileForToken_loop (String.length profileName) config secureProps
                                parentProfile profileName.

(** [new URL(s)] and [Number(s)], of the JavaScript runtime. *)
Variable URL_new : string -> Outcome URL.
Variable Number_ : string -> JsVal.

(** [validateAndParseUrl(newUrl)] *)
Definition validateAndParseUrl (newUrl : string) : Outcome IValidationUrl :=
  let validationResult := mkValidationUrl false VNull VNull VNull in
  match URL_new newUrl with
  | Threw _ => Returned validationResult
  | Returned url =>
      let port := if includes ":443" newUrl then VNum DEFAULT_HTTPS_PORT
                  else Number_ (url_port url) in
      Returned (mkValidationUrl true (VStr (slice0 (url_protocol url) (-1)))
                                (VStr (url_hostname url)) port)
  end.

(** [getAllProfileTypes(registeredTypes)] *)
Definition getAllProfileTypes (c : Cache) (registeredTypes : list string) : list string :=
  registeredTypes ++
    filter (fun exType => forallb (fun t => bool_decide (t ≠ exType)) registeredTypes = true)
           (allExternalTypes c).

(** [shouldRemoveTokenFromProfile(profile, baseProfile)]: the value of
    the [&&] chain, before the cast. *)
Definition shouldRemoveTokenFromProfile (p baseProfile : View) : option JsVal :=
  and_ (and_ (and_ (and_
    (or_ (Some (optProp baseProfile "host")) (Some (optProp baseProfile "port")))
    (Some (optProp p "host")))
    (Some (optProp p "port")))
    (or_ (or_
       (bh ← optPropStrict baseProfile "host"; ph ← optPropStrict p "host";
        Some (strictNe bh ph))
       (bp ← optPropStrict baseProfile "port"; pp ← optPropStrict p "port";
        Some (strictNe bp pp)))
       (and_ (optPropStrict p "user") (optPropStrict p "password"))))
    (t ← optPropStrict p "tokenType"; optStartsWith t TOKEN_TYPE_APIML).

(** [checkMergingConfigSingleProfile(profile)] *)
Definition checkMergingConfigSingleProfile (l : loc) (c : Cache) : option Cache :=
  let baseProfile := map_get "base" (defaultProfileByType c) in
  r ← shouldRemoveTokenFromProfile (view c l) (viewOpt c baseProfile);
  if truthy r then
    o ← objs c !! l;
    m ← props c !! profile o;
    Some (set_props
            <[profile o := <["tokenType" := VUndef]> (<["tokenValue" := VUndef]> m)]> c)
  else Some c.

(** [checkMergingConfigAllProfiles()] *)
Definition checkMergingConfigAllProfiles (c : Cache) : option Cache :=
  forOf (fun profs c' => forOf checkMergingConfigSingleProfile profs c')
        (map_values (profilesByType c)) c.

(** [\w] *)
Definition isWordChar (a : ascii) : bool :=
  let n := nat_of_ascii a in
  (((48 <=? n) && (n <=? 57)) || ((65 <=? n) && (n <=? 90))
   || ((97 <=? n) && (n <=? 122)) || (n =? 95))%nat.

(** [\w*], on the whole string *)
Fixpoint allWordChars (s : string) : bool :=
  match s with
  | EmptyString => true
  | String a s' => isWordChar a && allWordChars s'
  end.

(** [s.match(/^\$(\w+)$/)?.[1]] *)
Definition matchEnvVar (s : string) : option string :=
  match s with
  | String "$" w =>
      if negb (String.eqb w "") && allWordChars w then Some w else None
  | _ => None
  end.

(** One of the two [if] blocks of [checkForEnvVarAndUpdate], on the
    property [k]: the flag tells whether the block ended in [continue],
    which leaves the profile as it was. *)
Definition envBlock (k : string) (m : IProfile) : option (bool * IProfile) :=
  b ← optStartsWith (getProp m k) "$";
  if truthy b then
    match getProp m k with
    | VStr s =>
        match matchEnvVar s with
        | Some x =>
            if truthy (env x) then Some (false, <[k := env x]> m)
            else Some (true, m)
        | None => Some (true, m)
        end
    | _ => Some (true, m)
    end
  else Some (false, m).

(** The body of the loop of [checkForEnvVarAndUpdate], for one profile. *)
Definition envProfile (l : loc) (c : Cache) : option Cache :=
  o ← objs c !! l;
  m ← props c !! profile o;
  '(continue, m1) ← envBlock "user" m;
  if continue : bool then Some c
  else
    '(_, m2) ← envBlock "password" m1;
    Some (set_props <[profile o := m2]> c).

(** [checkForEnvVarAndUpdate()] *)
Definition checkForEnvVarAndUpdate (c : Cache) : option Cache :=
  forOf envProfile (allProfiles c) c.

(** [this.allProfiles.find(p => p.name === n && p.type === t)] *)
Fixpoint findProfile (c : Cache) (ps : list loc) (n t : string) : option (option loc) :=
  match ps with
  | [] => Some None
  | l :: ps' =>
      o ← objs c !! l;
      if bool_decide (name o = n) && bool_decide (type o = t)
      then Some (Some l)
      else findProfile c ps' n t
  end.

(** The body of the inner loop of [refresh], for one profile of the
    type: steps 2 and 3. The second component is [tmpAllProfiles]. *)
Definition refreshProfile (mProfileInfo : ProfileInfo) (ty : string) (prof : IProfAttrs)
    (s : Cache * list loc) : option (Cache * list loc) :=
  let '(c, tmpAllProfiles) := s in
  let profAttr := getMergedAttrs mProfileInfo (Some prof) in
  let il := length (props c) in
  let c := set_props (fun ps => ps ++ [profAttr]) c in
  let profileFix := getProfileLoaded (profName prof) (profType prof) il in
  let ol := length (objs c) in
  let c := set_objs (fun os => os ++ [profileFix]) c in
  let c := if isDefaultProfile prof
           then set_defaultProfileByType (map_set ty ol) c else c in
  existingProfile ← findProfile c (allProfiles c) (profName prof) (profType prof);
  match existingProfile with
  | Some e => Some (set_objs <[e := profileFix]> c, tmpAllProfiles ++ [e])
  | None => Some (c, tmpAllProfiles ++ [ol])
  end.

(** [temp.profLoc.osLoc?.length > 0] *)
Definition hasOsLoc (temp : IProfAttrs) : bool :=
  match osLoc temp with
  | Some (_ :: _) => true
  | _ => false
  end.

(** The body of the outer loop of [refresh], for one type. The second
    component is the local [allProfiles]. *)
Definition refreshType (mProfileInfo : ProfileInfo) (ty : string)
    (s : Cache * list loc) : option (Cache * list loc) :=
  let '(c, all) := s in
  let profilesForType := filter (fun temp => hasOsLoc temp = true)
                                (getAllProfiles mProfileInfo ty) in
  match profilesForType with
  | [] => Some (c, all)
  | _ :: _ =>
      '(c', tmpAllProfiles) ← forOf (refreshProfile mProfileInfo ty) profilesForType (c, []);
      Some (set_profilesByType (map_set ty tmpAllProfiles) c', all ++ tmpAllProfiles)
  end.

(** [allProfiles.some(prof => prof.type === type)] *)
Fixpoint someOfType (c : Cache) (ps : list loc) (ty : string) : option bool :=
  match ps with
  | [] => Some false
  | l :: ps' =>
      o ← objs c !! l;
      if bool_decide (type o = ty) then Some true else someOfType c ps' ty
  end.

(** [keys.filter(type => !allProfiles.some(...))] *)
Fixpoint oldTypes (c : Cache) (all : list loc) (keys : list string)
  : option (list string) :=
  match keys with
  | [] => Some []
  | k :: keys' =>
      b ← someOfType c all k;
      rest ← oldTypes c all keys';
      Some (if b : bool then rest else k :: rest)
  end.

(** [this.profilesByType.delete(oldType);
    this.defaultProfileByType.delete(oldType)] *)
Definition deleteType (oldType : string) (c : Cache) : option Cache :=
  Some (set_defaultProfileByType (map_delete oldType)
          (set_profilesByType (map_delete oldType) c)).

(** [getProfileInfo()], from the side of the cache: the profiles are
    read from disk into [mProfileInfo], then [checkForEnvVarAndUpdate]
    runs. *)
Definition getProfileInfo (c : Cache) : option Cache := checkForEnvVarAndUpdate c.

(** [fetchBaseProfile(profileName?)]: the cache as [getProfileInfo] leaves
    it, and the profile that the method returns, [None] for [undefined];
    like the other methods it ends in [None] when [getProfileInfo] throws. *)
Definition fetchBaseProfile (mProfileInfo : ProfileInfo) (profileName : option string)
    (c : Cache) : option (Cache * option (IProfileLoadedOf IProfile)) :=
  c ← getProfileInfo c;
  let baseProfileAttrs := getDefaultProfile_info mProfileInfo "base" in
  let config := getTeamConfig mProfileInfo in
  let nested := match profileName with
                | Some n => includes "." n
                | None => false
                end in
  let noBaseToken :=
    match baseProfileAttrs with
    | None => true
    | Some b => negb (bool_decide ("tokenValue" ∈ securePropsForProfile config (profName b)))
    end in
  if nested && noBaseToken then
    parentProfile ← getParentProfileForToken (default "" profileName) config;
    Some (c, Some (getProfileLoaded parentProfile "base" (profiles_get config parentProfile)))
  else
    match baseProfileAttrs with
    | None => Some (c, None)
    | Some b =>
        let profAttr := getMergedAttrs mProfileInfo (Some b) in
        Some (c, Some (getProfileLoaded (profName b) (profType b) profAttr))
    end.

(** [refresh(apiRegister)], up to the removal of the old types; the
    argument is [apiRegister?.registeredApiTypes() ?? []]. *)
Definition refreshLoad (mProfileInfo : ProfileInfo) (registeredApiTypes : list string)
    (c : Cache) : option Cache :=
  c ← getProfileInfo c;
  let allTypes := set_add "base" (set_add "ssh"
                    (set_of (getAllProfileTypes c registeredApiTypes))) in
  '(c, all) ← forOf (refreshType mProfileInfo) allTypes (c, []);
  let c := set_allTypes allTypes (set_allProfiles all c) in
  old ← oldTypes c all (map_keys (profilesByType c));
  forOf deleteType old c.

(** [refresh(apiRegister)] *)
Definition refresh (mProfileInfo : ProfileInfo) (registeredApiTypes : list string)
    (c : Cache) : option Cache :=
  c ← refreshLoad mProfileInfo registeredApiTypes c;
  c ← checkMergingConfigAllProfiles c;
  c ← checkForEnvVarAndUpdate c;
  Some (set_profilesForValidation [] c).

(** *** The other methods of the cache *)

(** [getProfiles(type = "zosmf")] *)
Definition getProfiles (c : Cache) (t : option string) : list loc :=
  default [] (map_get (default "zosmf" t) (profilesByType c)).

(** [getAllTypes()] *)
Definition getAllTypes (c : Cache) : list string := allTypes c.

(** The loop of [getBaseProfile], with the local [baseProfile]. *)
Fixpoint getBaseProfile_loop (c : Cache) (ps : list loc) (baseProfile : option loc)
  : option (option loc) :=
  match ps with
  | [] => Some baseProfile
  | baseP :: ps' =>
      o ← objs c !! baseP;
      getBaseProfile_loop c ps'
        (if bool_decide (type o = "base") then Some baseP else baseProfile)
  end.

(** [getBaseProfile()] *)
Definition getBaseProfile (c : Cache) : option (option loc) :=
  getBaseProfile_loop c (allProfiles c) None.

(** [this.allProfiles.findIndex(profile => profile.type === profileLoaded.type
    && profile.name === profileLoaded.name)], from index [i] on; the inner
    [None] is the index [-1]. *)
Fixpoint findIndexProfile (c : Cache) (ps : list loc) (profileLoaded : loc) (i : nat)
  : option (option nat) :=
  match ps with
  | [] => Some None
  | l :: ps' =>
      o ← objs c !! l;
      p ← objs c !! profileLoaded;
      if bool_decide (type o = type p) && bool_decide (name o = name p)
      then Some (Some i)
      else findIndexProfile c ps' profileLoaded (S i)
  end.

(** [updateCachedProfile(profileLoaded, profileNode?)]: the flag tells
    whether a node is given, and the second component is the profile that
    [profileNode.setProfileToChoice] is then called with, which is the
    last thing the method does. *)
Definition updateCachedProfile (profileLoaded : loc) (profileNode : bool) (c : Cache)
  : option (Cache * option loc) :=
  profIndex ← findIndexProfile c (allProfiles c) profileLoaded 0;
  i ← profIndex;
  e ← allProfiles c !! i;
  o ← objs c !! e;
  p ← objs c !! profileLoaded;
  let c := set_objs <[e := mkProfileLoaded (message o) (name o) (type o) (profile p)
                                          (failNotFound o)]> c in
  let c := match map_get (type p) (defaultProfileByType c) with
           | Some defaultProf =>
               match objs c !! defaultProf with
               | Some d =>
                   if bool_decide (name d = name p)
                   then set_defaultProfileByType (map_set (type p) profileLoaded) c
                   else c
               | None => c
               end
           | None => c
           end in
  Some (c, if profileNode then Some profileLoaded else None).

(** [getNamesForType(type)] *)
Definition getNamesForType (mProfileInfo : ProfileInfo) (ty : string) (c : Cache)
  : option (Cache * list string) :=
  c ← getProfileInfo c;
  let profilesForType := getAllProfiles mProfileInfo ty in
  Some (c, profName <$> profilesForType).

(** The body of the loop of [fetchAllProfilesByType], for one profile of
    the library; the second component is [profByType]. *)
Definition fetchProfile (mProfileInfo : ProfileInfo) (prof : IProfAttrs)
    (s : Cache * list loc) : option (Cache * list loc) :=
  let '(c, profByType) := s in
  let profAttr := getMergedAttrs mProfileInfo (Some prof) in
  let il := length (props c) in
  let c := set_props (fun ps => ps ++ [profAttr]) c in
  let ol := length (objs c) in
  let c := set_objs (fun os => os ++ [getProfileLoaded (profName prof) (profType prof) il]) c in
  c ← checkMergingConfigSingleProfile ol c;
  Some (c, profByType ++ [ol]).

(** [fetchAllProfilesByType(type)] *)
Definition fetchAllProfilesByType (mProfileInfo : ProfileInfo) (ty : string) (c : Cache)
  : option (Cache * list loc) :=
  c ← getProfileInfo c;
  let profilesForType := getAllProfiles mProfileInfo ty in
  match profilesForType with
  | [] => Some (c, [])
  | _ :: _ => forOf (fetchProfile mProfileInfo) profilesForType (c, [])
  end.

(** The body of the loop of [fetchAllProfiles], for one type. *)
Definition fetchType (mProfileInfo : ProfileInfo) (ty : string) (s : Cache * list loc)
  : option (Cache * list loc) :=
  let '(c, profiles) := s in
  '(c, profsByType) ← fetchAllProfilesByType mProfileInfo ty c;
  Some (c, profiles ++ profsByType).

(** [fetchAllProfiles()] *)
Definition fetchAllProfiles (mProfileInfo : ProfileInfo) (c : Cache)
  : option (Cache * list loc) :=
  '(c, profiles) ← forOf (fetchType mProfileInfo) (allTypes c) (c, []);
  Some (set_allProfiles profiles c, profiles).

(** The loop of [directLoad]. *)
Fixpoint directLoad_loop (c : Cache) (profsOfType : list loc) (n : string)
  : option (option loc) :=
  match profsOfType with
  | [] => Some None
  | l :: rest =>
      o ← objs c !! l;
      if bool_decide (name o = n) then Some (Some l) else directLoad_loop c rest n
  end.

(** [directLoad(type, name)] *)
Definition directLoad (mProfileInfo : ProfileInfo) (ty n : string) (c : Cache)
  : option (Cache * option loc) :=
  '(c, profsOfType) ← fetchAllProfilesByType mProfileInfo ty c;
  r ← directLoad_loop c profsOfType n;
  Some (c, r).

(** *** The profile type configurations *)

(** [imperative.ICommandProfileTypeConfiguration]: its [type], and the
    rest of it ([schema]), which the cache only stores. *)
Record ICommandProfileTypeConfiguration : Type := mkTypeConfiguration {
  configType : string;
  schema : string
}.

(** The static array [ProfilesCache.sessionProfileTypeConfigurations] and
    the array [profileTypeConfigurations] of one cache; an assignment past
    the end of the latter leaves holes. *)
Record ConfigArrays : Type := mkConfigArrays {
  sessionProfileTypeConfigurations : list ICommandProfileTypeConfiguration;
  profileTypeConfigurations : list (option ICommandProfileTypeConfiguration)
}.

(** [a[i] = x]: an index past the end extends the array with holes. *)
Definition arraySet {A : Type} (i : nat) (x : A) (a : list (option A)) : list (option A) :=
  if (i <? length a)%nat then <[i := Some x]> a
  else a ++ replicate (i - length a) None ++ [Some x].

(** [a.findIndex(ele => ele.type == t)], from index [i] on. *)
Fixpoint findIndexType (t : string) (a : list ICommandProfileTypeConfiguration) (i : nat)
  : option nat :=
  match a with
  | [] => None
  | ele :: a' =>
      if bool_decide (configType ele = t) then Some i else findIndexType t a' (S i)
  end.

(** The callback of [addToConfigArray], for one item. *)
Definition addItem (item : ICommandProfileTypeConfiguration) (s : ConfigArrays)
  : ConfigArrays :=
  match findIndexType (configType item) (sessionProfileTypeConfigurations s) 0 with
  | Some index =>
      mkConfigArrays (<[index := item]> (sessionProfileTypeConfigurations s))
                     (arraySet index item (profileTypeConfigurations s))
  | None =>
      mkConfigArrays (sessionProfileTypeConfigurations s ++ [item])
                     (profileTypeConfigurations s ++ [Some item])
  end.

(** [addToConfigArray(extendermetadata)] *)
Definition addToConfigArray
    (extendermetadata : option (list ICommandProfileTypeConfiguration))
    (s : ConfigArrays) : ConfigArrays :=
  match extendermetadata with
  | None => s
  | Some items => fold_left (fun s item => addItem item s) items s
  end.

(** [getConfigArray()] *)
Definition getConfigArray (s : ConfigArrays) : list ICommandProfileTypeConfiguration :=
  sessionProfileTypeConfigurations s.

End Methods.
End ProfilesCache.


(** ** The statements of the specification about the cache, as predicates *)
Module ProfilesCacheSpec.
Import Js ProfilesCache.

Section Spec.
Variable TOKEN_TYPE_APIML : string.
Variable env : string -> JsVal.

(** A property "is there" when its value is truthy. *)
Definition has (v : JsVal) : Prop := truthy v = true.

(** The conditions under which a profile's APIML token is dropped, in
    the words of the specification. *)
Definition Conditions (p baseProfile : View) : Prop :=
  (has (optProp baseProfile "host") \/ has (optProp baseProfile "port"))
  /\ has (optProp p "host")
  /\ has (optProp p "port")
  /\ (exists s, optProp p "tokenType" = VStr s /\ String.prefix TOKEN_TYPE_APIML s = true)
  /\ (optProp baseProfile "host" ≠ optProp p "host"
      \/ optProp baseProfile "port" ≠ optProp p "port"
      \/ (has (optProp p "user") /\ has (optProp p "password"))).

(** The profile's [tokenType] and [tokenValue] are undefined. *)
Definition TokensUndefined (p : View) : Prop :=
  optProp p "tokenType" = VUndef /\ optProp p "tokenValue" = VUndef.

(** The properties that [refresh] may rewrite after it loaded a profile. *)
Definition touched : list string := ["tokenType"; "tokenValue"; "user"; "password"].

(** How it rewrites them: the two tokens stay or go to undefined
    together, and a user or password stays as truthy as it was (a truthy
    value of [process.env] replaces its name). *)
Definition Rewritten (m m' : IProfile) : Prop :=
  (forall k, k ∉ touched -> m' !! k = m !! k)
  /\ truthy (getProp m' "user") = truthy (getProp m "user")
  /\ truthy (getProp m' "password") = truthy (getProp m "password")
  /\ ((getProp m' "tokenType" = getProp m "tokenType"
       /\ getProp m' "tokenValue" = getProp m "tokenValue")
      \/ (getProp m' "tokenType" = VUndef /\ getProp m' "tokenValue" = VUndef)).

(** The default base profile, as the token check reads it. *)
Definition baseView (c : Cache) : View :=
  viewOpt c (map_get "base" (defaultProfileByType c)).

(** What the library promises of [getAllProfiles(type)]: the profiles
    it returns have that type. *)
Definition TypedProfiles (info : ProfileInfo) : Prop :=
  forall ty p, p ∈ getAllProfiles info ty -> profType p = ty.

(** The profile that ends up as the default of a type: the last one
    that the library marks. *)
Definition lastDefault (profs : list IProfAttrs) : option IProfAttrs :=
  last (filter (fun p => isDefaultProfile p = true) profs).

(** [profilesForType] of [refresh], for one type. *)
Definition profilesForType (info : ProfileInfo) (ty : string) : list IProfAttrs :=
  filter (fun temp => hasOsLoc temp = true) (getAllProfiles info ty).

(** Some profile of the list has the type. *)
Definition HasProfileOfType (c : Cache) (ps : list loc) (ty : string) : Prop :=
  exists l o, l ∈ ps /\ objs c !! l = Some o /\ type o = ty.

(** The two maps go together: a type with a default has a list of
    profiles. The constructor establishes this and [refresh] keeps it. *)
Definition Linked (c : Cache) : Prop :=
  forall ty, is_Some (map_get ty (defaultProfileByType c)) ->
             is_Some (map_get ty (profilesByType c)).

(** The caches that construction, [registerCustomProfilesType] and
    completed calls of [refresh] (on a library that keeps its promise)
    lead to. *)
Inductive Reachable : Cache -> Prop :=
  | reach_new : Reachable newCache
  | reach_register c profileTypeName :
      Reachable c -> Reachable (registerCustomProfilesType profileTypeName c)
  | reach_refresh c c' info registeredApiTypes :
      Reachable c -> TypedProfiles info ->
      refresh TOKEN_TYPE_APIML env info registeredApiTypes c = Some c' ->
      Reachable c'.

(** The types that [refresh] goes through. *)
Definition refreshTypes (c : Cache) (registeredApiTypes : list string) : list string :=
  set_add "base" (set_add "ssh" (set_of (getAllProfileTypes c registeredApiTypes))).

(** The prefixes of a profile name that end just before one of its
    periods, shortest first: for "a.b.c" they are "a" and "a.b". *)
Fixpoint dotPrefixes (s : string) : list string :=
  match s with
  | EmptyString => []
  | String a s' =>
      let rest := String a <$> dotPrefixes s' in
      if Ascii.eqb a "." then EmptyString :: rest else rest
  end.

(** The ancestors of a nested profile name, the immediate parent first. *)
Definition ancestors (profileName : string) : list string :=
  rev (dotPrefixes profileName).

(** The token value of the profile is among the secure fields of the
    configuration. *)
Definition hasSecureToken (config : Config) (profileName : string) : bool :=
  bool_decide (getProfilePathFromName config profileName +:+ ".properties.tokenValue"
                 ∈ secureFields config).

(** The deepest ancestor with a secure token value, or the immediate
    parent when there is none. *)
Definition tokenParent (config : Config) (profileName : string) : string :=
  match List.find (hasSecureToken config) (ancestors profileName) with
  | Some a => a
  | None => hd EmptyString (ancestors profileName)
  end.

(** The default base profile keeps its token in the secure array. *)
Definition baseHoldsToken (info : ProfileInfo) : Prop :=
  exists b, getDefaultProfile_info info "base" = Some b
            /\ "tokenValue" ∈ securePropsForProfile (getTeamConfig info) (profName b).

(** The object [m] is made of the known arguments that the library
    merges for the profile [p] (secure values retrieved): each name reads
    as the value of the last argument so named, but for "__proto__", under
    which an object literal stores nothing. *)
Definition MergedFrom (info : ProfileInfo) (p : IProfAttrs) (m : IProfile) : Prop :=
  m !! "__proto__" = None
  /\ forall k, k ≠ "__proto__" ->
       m !! k = argValue <$> last (filter (fun a => argName a = k)
                                          (mergeArgsForProfile info p true)).

(** [loadNamedProfile] looks for this profile: the name is the one
    asked for, and so is the type when a (non-empty) type is given. *)
Definition Wanted (c : Cache) (n : string) (t : option string) (l : loc) : Prop :=
  exists o, objs c !! l = Some o /\ name o = n
            /\ (forall s, t = Some s -> s ≠ EmptyString -> type o = s).

(** Every reference of [allProfiles] names an object of the store. *)
Definition ValidProfiles (c : Cache) : Prop :=
  forall l, l ∈ allProfiles c -> l < length (objs c).

End Spec.
End ProfilesCacheSpec.

(** ** The shared tree utilities (zowe-explorer, [SharedUtils]) *)
Module SharedUtils.
Import Js.

(** *** Strings by UTF-16 code unit

    [parseFavorites] cuts its lines by index and trims them, so its strings
    are modelled as JavaScript has them: sequences of 16-bit code units. *)
Abbreviation jsstring := (list N).

(** A literal, from its ASCII spelling. *)
Definition str (s : string) : jsstring := N_of_ascii <$> list_ascii_of_string s.

(** The code units that [trim] removes: WhiteSpace and LineTerminator. *)
Definition isWhiteSpace (c : N) : bool :=
  (((9 <=? c) && (c <=? 13)) || (c =? 32) || (c =? 160) || (c =? 5760)
   || ((8192 <=? c) && (c <=? 8202)) || (c =? 8232) || (c =? 8233)
   || (c =? 8239) || (c =? 8287) || (c =? 12288) || (c =? 65279))%N.

Fixpoint trimStart (s : jsstring) : jsstring :=
  match s with
  | [] => []
  | c :: s' => if isWhiteSpace c then trimStart s' else s
  end.

(** [s.trim()] *)
Definition trim (s : jsstring) : jsstring := rev (trimStart (rev (trimStart s))).

(** [s.indexOf(c)] for a needle of one code unit, [-1] when there is none. *)
Fixpoint indexOf (c : N) (s : jsstring) : Z :=
  match s with
  | [] => -1
  | x :: s' =>
      if (x =? c)%N then 0%Z
      else let r := indexOf c s' in if (r <? 0)%Z then (-1)%Z else (r + 1)%Z
  end.

(** [s.startsWith(c)] for a needle of one code unit. *)
Definition startsWith (c : N) (s : jsstring) : bool :=
  match s with
  | x :: _ => (x =? c)%N
  | [] => false
  end.

(** [s.substring(a, b)]: both indices are clamped to the string, and
    swapped when they come in the wrong order. *)
Definition substring (s : jsstring) (a b : Z) : jsstring :=
  let clamp z := Z.to_nat (Z.min (Z.max z 0) (Z.of_nat (length s))) in
  let lo := Nat.min (clamp a) (clamp b) in
  let hi := Nat.max (clamp a) (clamp b) in
  take (hi - lo) (drop lo s).

(** [s.substring(a)] *)
Definition substringFrom (s : jsstring) (a : Z) : jsstring :=
  substring s a (Z.of_nat (length s)).

(** The code units of "[", "]", "{" and "}". *)
Definition LBRACKET : N := 91.
Definition RBRACKET : N := 93.
Definition LBRACE : N := 123.
Definition RBRACE : N := 125.

(** [Definitions.FavoriteData]; [contextValue] may be undefined. *)
Record FavoriteData : Type := mkFavorite {
  profileName : jsstring;
  label : jsstring;
  contextValue : option jsstring
}.

(** The text that [invalidFavoriteWarning(line)] hands to the logger. *)
Definition invalidFavoriteWarning (line : jsstring) : jsstring :=
  str "Failed to parse a saved favorite. Attempted to parse: " ++ line.

(** The callback that [parseFavorites] maps over the lines: the entry, or
    [None] for [null], and the warnings it logs. *)
Definition parseFavorite (line : jsstring) : option FavoriteData * list jsstring :=
  let closingSquareBracket := indexOf RBRACKET line in
  if negb (startsWith LBRACKET line) || (closingSquareBracket =? -1)%Z then
    (None, [invalidFavoriteWarning line])
  else
    let profileName := substring line 1 closingSquareBracket in
    let remainderOfLine := trim (substringFrom line (closingSquareBracket + 2)) in
    if (length remainderOfLine =? 0)%nat then
      (None, [invalidFavoriteWarning line])
    else
      let openingCurlyBrace := indexOf LBRACE remainderOfLine in
      (Some (mkFavorite
               profileName
               (trim (substring remainderOfLine 0 openingCurlyBrace))
               (if (openingCurlyBrace >? 0)%Z
                then Some (substring remainderOfLine (openingCurlyBrace + 1)
                                     (indexOf RBRACE remainderOfLine))
                else None)),
       []).

(** [.filter(Boolean)] on entries that are objects or null. *)
Definition filterBoolean {A : Type} (xs : list (option A)) : list (option A) :=
  filter (fun x => is_Some x) xs.

(** [parseFavorites(lines)]: the array it returns, and what it logged. *)
Definition parseFavorites (lines : list jsstring)
  : list (option FavoriteData) * list jsstring :=
  let mapped := parseFavorite <$> lines in
  (filterBoolean (mapped.*1), concat (mapped.*2)).

(** *** [checkIfChildPath]

    [path.relative] and [path.isAbsolute] belong to the runtime; the
    function only tests its result, so paths stay [string]s. *)
Section Path.
Variable relative : string -> string -> string.
Variable isAbsolute : string -> bool.

(** [checkIfChildPath(parentPath, childPath)]: the value of the [&&]
    chain, which the declared [boolean] does not convert. *)
Definition checkIfChildPath (parentPath childPath : string) : JsVal :=
  let relativePath := relative parentPath childPath in
  andV (andV (VStr relativePath)
             (VBool (negb (String.prefix ".." relativePath))))
       (VBool (negb (isAbsolute relativePath))).
End Path.

(** *** [handleProfileChange] *)

(** What a [catch] clause receives: an [Error] with its message, or any
    other thrown value. *)
Inductive Thrown : Type :=
  | ErrorObject (message : string)
  | OtherValue (v : JsVal).

Inductive Completion (A : Type) : Type :=
  | Done (a : A)
  | Raise (e : Thrown).
Arguments Done {A} a.
Arguments Raise {A} e.

Definition bindC {A B : Type} (m : Completion A) (k : A -> Completion B) : Completion B :=
  match m with
  | Done a => k a
  | Raise e => Raise e
  end.

(** The profile handed over: only its name is read here. *)
Abbreviation Profile := (ProfilesCache.IProfileLoadedOf (gmap string JsVal)).

(** A tree node: its label, and its [setProfileToChoice] method when it
    has one, as the outcome of calling it. *)
Record TreeNode : Type := mkNode {
  nodeLabel : option string;
  setProfileToChoice : option (option Profile -> Completion unit)
}.

(** A tree provider: the outcome of [await provider.getChildren()], whose
    value may fail to be an array. *)
Record Provider : Type := mkProvider {
  getChildren : Completion (option (list TreeNode))
}.

(** What the function does that its caller can observe. *)
Inductive Event : Type :=
  | LoggedError (message : string)
  | ProfileSet (node : option string).

(** The body of the [try] block, for one provider. *)
Definition tryBlock (provider : Provider) (profile : option Profile)
  : Completion (list Event) :=
  bindC (getChildren provider) (fun children =>
  bindC (match children with
         | Some nodes => Done nodes
         | None => Raise (ErrorObject
                            "Cannot read properties of undefined (reading 'find')")
         end) (fun nodes =>
  let node := List.find (fun n => bool_decide (nodeLabel n = ProfilesCache.name <$> profile))
                        nodes in
  match node with
  | None => Done []
  | Some n =>
      match setProfileToChoice n with
      | None => Done []
      | Some method => bindC (method profile) (fun _ => Done [ProfileSet (nodeLabel n)])
      end
  end)).

(** [handleProfileChange(treeProviders, profile)], over
    [Object.values(treeProviders)]. *)
Fixpoint handleProfileChange (providers : list Provider) (profile : option Profile)
  : Completion (list Event) :=
  match providers with
  | [] => Done []
  | provider :: rest =>
      match tryBlock provider profile with
      | Done events =>
          bindC (handleProfileChange rest profile) (fun later => Done (events ++ later))
      | Raise err =>
          Done (match err with
                | ErrorObject message => [LoggedError message]
                | OtherValue _ => []
                end)
      end
  end.

(** *** Trees of nodes: [concatChildNodes], [handleDragAndDropOverwrite] *)

(** A tree node ([Types.IZoweNodeType]), as far as these two functions
    read it: its [label], the path of its [resourceUri] and its
    [children]; each of them may be undefined. *)
#[local] Unset Elimination Schemes.
Inductive IZoweNodeType : Type :=
  | ZoweNode (label : option string) (resourceUri : option string)
             (children : option (list IZoweNodeType)).
#[local] Set Elimination Schemes.

Definition label_ (node : IZoweNodeType) : option string :=
  match node with ZoweNode l _ _ => l end.

Definition resourceUri (node : IZoweNodeType) : option string :=
  match node with ZoweNode _ u _ => u end.

Definition children (node : IZoweNodeType) : option (list IZoweNodeType) :=
  match node with ZoweNode _ _ c => c end.

Section Concat.
Variable visit : IZoweNodeType -> option (list IZoweNodeType).

(** The loop of [concatChildNodes], with the local [allNodes]; [visit]
    gives what one iteration appends. *)
Fixpoint concatLoop (nodes allNodes : list IZoweNodeType) : option (list IZoweNodeType) :=
  match nodes with
  | [] => Some allNodes
  | node :: rest => r ← visit node; concatLoop rest (allNodes ++ r)
  end.
End Concat.

(** One iteration: [concatChildNodes(node.children)], then the node.
    Iterating over children that are undefined is a TypeError. *)
Fixpoint concatNode (node : IZoweNodeType) : option (list IZoweNodeType) :=
  match node with
  | ZoweNode _ _ c =>
      match c with
      | None => None
      | Some nodes =>
          sub ← concatLoop concatNode nodes [];
          Some (sub ++ [node])
      end
  end.

(** [concatChildNodes(nodes)] *)
Definition concatChildNodes (nodes : list IZoweNodeType) : option (list IZoweNodeType) :=
  concatLoop concatNode nodes [].

(** [xs.some(f)], where [f] may throw. *)
Fixpoint some {A : Type} (f : A -> option bool) (xs : list A) : option bool :=
  match xs with
  | [] => Some false
  | x :: xs' => b ← f x; if b : bool then Some true else some f xs'
  end.

(** [target.children?.find((tc) => tc.label === n.label) != null] *)
Definition findsLabel (target : option IZoweNodeType) (n : IZoweNodeType) : option bool :=
  t ← target;
  match children t with
  | None => Some false
  | Some tcs => Some (bool_decide (Exists (fun tc => label_ tc = label_ n) tcs))
  end.

(** [handleDragAndDropOverwrite(target, draggedNodes)], over
    [Object.values(draggedNodes)]: what it returns, and whether it asked.
    [confirm] is the localized "Confirm" and [resp] the answer that
    [Gui.warningMessage] gives when it is asked. *)
Definition handleDragAndDropOverwrite (confirm : string) (resp : option string)
    (target : option IZoweNodeType) (draggedNodes : list IZoweNodeType)
  : option (bool * bool) :=
  movedIntoChild ← some (fun n => t ← target; tp ← resourceUri t; np ← resourceUri n;
                                  Some (String.prefix np tp)) draggedNodes;
  if movedIntoChild : bool then Some (false, false)
  else
    willOverwrite ← some (findsLabel target) draggedNodes;
    if willOverwrite : bool then
      match resp with
      | None => Some (false, true)
      | Some r => Some (bool_decide (r = confirm), true)
      end
    else Some (true, false).

(** *** [updateSortOptionsWithDefault] *)

(** [s.replace(pattern, "")] for a string pattern: the first occurrence
    goes. *)
Fixpoint replaceFirst (pattern s : jsstring) : jsstring :=
  if bool_decide (pattern `prefix_of` s) then drop (length pattern) s
  else match s with
       | [] => []
       | c :: s' => c :: replaceFirst pattern s'
       end.

(** The loop of [updateSortOptionsWithDefault], from index [i] on. *)
Fixpoint updateSortOptions_loop (marker : jsstring) (sortMethod : option Z) (i : nat)
    (sortOptions : list jsstring) : list jsstring :=
  match sortOptions with
  | [] => []
  | option :: rest =>
      let option := replaceFirst marker option in
      (if bool_decide (sortMethod = Some (Z.of_nat i)) then option ++ marker else option)
        :: updateSortOptions_loop marker sortMethod (S i) rest
  end.

(** [updateSortOptionsWithDefault(sortMethod, sortOptions)]: the array
    afterwards. [default_] is the localized "(default)", and [sortMethod]
    is [Number(sortMethod)] when that is an integer. *)
Definition updateSortOptionsWithDefault (default_ : jsstring) (sortMethod : option Z)
    (sortOptions : list jsstring) : list jsstring :=
  updateSortOptions_loop (32%N :: default_) sortMethod 0 sortOptions.

End SharedUtils.

(** ** The statements of the specification about the utilities *)
Module SharedUtilsSpec.
Import Js SharedUtils.

(** What follows the first closing bracket of a line and the one
    character after it (the colon of "[profile]: label{context}"). *)
Fixpoint afterBracket (line : jsstring) : jsstring :=
  match line with
  | [] => []
  | c :: line' => if (c =? RBRACKET)%N then drop 1 line' else afterBracket line'
  end.

(** The lines that [parseFavorites] drops. *)
Definition Dropped (line : jsstring) : Prop :=
  startsWith LBRACKET line = false
  \/ RBRACKET ∉ line
  \/ trim (afterBracket line) = [].

#[global] Instance Dropped_dec line : Decision (Dropped line).
Proof. unfold Dropped. apply _. Defined.

(** What the [catch] clause of [handleProfileChange] logs. *)
Definition logged (e : Thrown) : list Event :=
  match e with
  | ErrorObject message => [LoggedError message]
  | OtherValue _ => []
  end.

End SharedUtilsSpec.

(** ** A small configuration, to run the cache on *)
Module Examples.
Import Js ProfilesCache SharedUtils.

(** [getProfilePathFromName] of the library: "a.b" is at
    "profiles.a.profiles.b". *)
Fixpoint dotsToProfiles (s : string) : string :=
  match s with
  | EmptyString => EmptyString
  | String a s' =>
      if Ascii.eqb a "." then ".profiles." +:+ dotsToProfiles s'
      else String a (dotsToProfiles s')
  end.

Definition exampleConfig : Config :=
  mkConfig ["profiles.lpar1.properties.tokenValue"]
           (fun _ => [])
           (fun n => "profiles." +:+ dotsToProfiles n)
           (fun n => if decide (n = "lpar1")
                     then {[ "host" := VStr "lpar1.example.com" ]} else ∅).

Definition exampleInfo : ProfileInfo :=
  mkProfileInfo
    (fun t =>
       if decide (t = "zosmf") then
         [mkProfAttrs "lpar1" "zosmf" true (Some ["zowe.config.json"]);
          mkProfAttrs "lpar2" "zosmf" false (Some ["zowe.config.json"])]
       else if decide (t = "base") then
         [mkProfAttrs "global_base" "base" true (Some ["zowe.config.json"])]
       else [])
    (fun p _ =>
       if decide (profName p = "lpar1") then
         [mkArg "host" (VStr "lpar1.example.com"); mkArg "port" (VNum 443);
          mkArg "tokenType" (VStr "apimlAuthenticationToken.1");
          mkArg "tokenValue" (VStr "secret")]
       else if decide (profName p = "lpar2") then
         [mkArg "host" (VStr "gateway.example.com"); mkArg "port" (VNum 7554);
          mkArg "user" (VStr "$ZOWE_USER"); mkArg "password" (VStr "pw");
          mkArg "tokenType" (VStr "apimlAuthenticationToken.1");
          mkArg "tokenValue" (VStr "secret")]
       else
         [mkArg "host" (VStr "gateway.example.com"); mkArg "port" (VNum 7554);
          mkArg "tokenType" (VStr "apimlAuthenticationToken.1");
          mkArg "tokenValue" (VStr "secret")])
    (fun t => if decide (t = "base")
              then Some (mkProfAttrs "global_base" "base" true (Some ["zowe.config.json"]))
              else None)
    exampleConfig.

(** [process.env] with one variable; "constructor" is the member that
    every object inherits, a function. *)
Definition exampleEnv (x : string) : JsVal :=
  if decide (x = "ZOWE_USER") then VStr "ibmuser"
  else if decide (x = "constructor") then VObj 0
  else VUndef.

Definition APIML : string := "apimlAuthenticationToken".

(** A library with one "zosmf" profile behind the gateway of the base
    profile, holding a token of the gateway; [marked] tells whether the
    profile is the default of its type, and [baseHost] is the host of the
    base profile. *)
Definition gatewayInfo (marked : bool) (baseHost : string) : ProfileInfo :=
  mkProfileInfo
    (fun t =>
       if decide (t = "zosmf") then
         [mkProfAttrs "lpar1" "zosmf" marked (Some ["zowe.config.json"])]
       else if decide (t = "base") then
         [mkProfAttrs "global_base" "base" true (Some ["zowe.config.json"])]
       else [])
    (fun p _ =>
       if decide (profName p = "lpar1") then
         [mkArg "host" (VStr "gateway.example.com"); mkArg "port" (VNum 7554);
          mkArg "tokenType" (VStr "apimlAuthenticationToken.1");
          mkArg "tokenValue" (VStr "secret")]
       else
         [mkArg "host" (VStr baseHost); mkArg "port" (VNum 7554)])
    (fun t => if decide (t = "base")
              then Some (mkProfAttrs "global_base" "base" true (Some ["zowe.config.json"]))
              else None)
    exampleConfig.

(** Three calls of [refresh] on a new cache: two with the profile marked
    as the default of its type, behind the gateway of the base profile; one
    after the library dropped the mark and the base profile moved to
    another host. *)
Definition threeRefreshes : option Cache :=
  c ← refresh APIML exampleEnv (gatewayInfo true "gateway.example.com") ["zosmf"] newCache;
  c ← refresh APIML exampleEnv (gatewayInfo true "gateway.example.com") ["zosmf"] c;
  refresh APIML exampleEnv (gatewayInfo false "other.example.com") ["zosmf"] c.

(** A library that lists a base profile only. *)
Definition baseOnlyInfo : ProfileInfo :=
  mkProfileInfo
    (fun t =>
       if decide (t = "base") then
         [mkProfAttrs "global_base" "base" true (Some ["zowe.config.json"])]
       else [])
    (fun p _ => [mkArg "host" (VStr "gateway.example.com"); mkArg "port" (VNum 7554)])
    (fun t => if decide (t = "base")
              then Some (mkProfAttrs "global_base" "base" true (Some ["zowe.config.json"]))
              else None)
    exampleConfig.

(** A library whose default "zosmf" profile has no location on disk. *)
Definition noLocationInfo : ProfileInfo :=
  mkProfileInfo
    (fun t =>
       if decide (t = "zosmf") then
         [mkProfAttrs "lpar1" "zosmf" true None;
          mkProfAttrs "lpar2" "zosmf" false (Some ["zowe.config.json"])]
       else [])
    (fun p _ => [mkArg "host" (VStr "lpar.example.com"); mkArg "port" (VNum 443)])
    (fun _ => None)
    exampleConfig.

(** A library that merges an argument named "__proto__". *)
Definition protoInfo : ProfileInfo :=
  mkProfileInfo
    (fun _ => [])
    (fun p _ => [mkArg "host" (VStr "lpar.example.com"); mkArg "__proto__" (VStr "x")])
    (fun _ => None)
    exampleConfig.

(** The cache as a [refresh] of a new cache leaves it when the library
    throws in its second call of [mergeArgsForProfile]: the body of the
    loop has run for the first "zosmf" profile of [exampleInfo], the default
    of its type, and [allProfiles] and [profilesByType] are not assigned. *)
Definition abortedRefresh : option Cache :=
  c ← getProfileInfo exampleEnv newCache;
  s ← refreshProfile exampleInfo "zosmf"
        (mkProfAttrs "lpar1" "zosmf" true (Some ["zowe.config.json"])) (c, []);
  Some s.1.


(** The POSIX [path.relative] and [path.isAbsolute], on absolute paths
    without "." and ".." segments. *)
Fixpoint splitSlash (s cur : string) : list string :=
  match s with
  | EmptyString => [cur]
  | String a s' =>
      if Ascii.eqb a "/" then cur :: splitSlash s' EmptyString
      else splitSlash s' (cur +:+ String a EmptyString)
  end.

Definition segments (p : string) : list string :=
  filter (fun seg => seg ≠ EmptyString) (splitSlash p EmptyString).

Fixpoint dropCommon (a b : list string) : list string * list string :=
  match a, b with
  | x :: a', y :: b' => if decide (x = y) then dropCommon a' b' else (a, b)
  | _, _ => (a, b)
  end.

Fixpoint joinSlash (segs : list string) : string :=
  match segs with
  | [] => EmptyString
  | [seg] => seg
  | seg :: rest => seg +:+ "/" +:+ joinSlash rest
  end.

Definition posixRelative (from to : string) : string :=
  if decide (from = to) then EmptyString
  else let '(up, down) := dropCommon (segments from) (segments to) in
       joinSlash (((fun _ => "..") <$> up) ++ down).

Definition posixIsAbsolute (p : string) : bool := String.prefix "/" p.

(** Three tree providers: the first has a node for the profile, the
    second fails to list its children, the third would have a node too. *)
Definition exampleProviders : list Provider :=
  [mkProvider (Done (Some [mkNode (Some "other") None;
                           mkNode (Some "lpar1") (Some (fun _ => Done tt))]));
   mkProvider (Raise (ErrorObject "Unable to list jobs"));
   mkProvider (Done (Some [mkNode (Some "lpar1") (Some (fun _ => Done tt))]))].

Definition exampleProfile : Profile := mkProfileLoaded "" "lpar1" "zosmf" ∅ false.

End Examples.

(** ** Invariants of the cache, for the proofs about [refresh] *)
Module ProfilesCacheInv.
Import Js ProfilesCache ProfilesCacheSpec.

(** The value of an expression is truthy (and it did not throw). *)
Definition Truthy (x : option JsVal) : Prop :=
  exists r, x = Some r /\ truthy r = true.

(** From [c] to [c'] only stored properties changed, each as [Rewritten]
    allows: the token check and the environment substitution do this. *)
Definition Evolves (c c' : Cache) : Prop :=
  objs c' = objs c
  /\ allProfiles c' = allProfiles c
  /\ allTypes c' = allTypes c
  /\ allExternalTypes c' = allExternalTypes c
  /\ profilesByType c' = profilesByType c
  /\ defaultProfileByType c' = defaultProfileByType c
  /\ length (props c') = length (props c)
  /\ forall i m, props c !! i = Some m ->
       exists m', props c' !! i = Some m' /\ Rewritten m m'.

(** The same profile, seen before and after such a change. *)
Definition ViewRel (p p' : View) : Prop :=
  match p, p' with
  | None, None => True
  | Some None, Some None => True
  | Some (Some m), Some (Some m') => Rewritten m m'
  | _, _ => False
  end.

(** [profile.tokenType = profile.tokenValue = undefined] *)
Definition scrub (m : IProfile) : IProfile :=
  <["tokenType" := VUndef]> (<["tokenValue" := VUndef]> m).

(** From [c] to [c'] the stores only grew, but for [Object.assign] on
    objects of [allProfiles], which keeps their name and type: the loading
    loops do this. *)
Definition Grows (c c' : Cache) : Prop :=
  allProfiles c' = allProfiles c
  /\ allExternalTypes c' = allExternalTypes c
  /\ length (objs c) <= length (objs c')
  /\ (forall l o, objs c !! l = Some o ->
        exists o', objs c' !! l = Some o' /\ name o' = name o /\ type o' = type o)
  /\ (forall l o, objs c !! l = Some o -> l ∉ allProfiles c -> objs c' !! l = Some o)
  /\ (forall i m, props c !! i = Some m -> props c' !! i = Some m).

(** Where the default profile [p] of a type sits after the loops. *)
Definition DefaultStored (info : ProfileInfo) (c0 c : Cache) (ty : string) (p : IProfAttrs)
  : Prop :=
  exists ol il,
    map_get ty (defaultProfileByType c) = Some ol
    /\ length (objs c0) <= ol
    /\ objs c !! ol = Some (getProfileLoaded (profName p) (profType p) il)
    /\ props c !! il = Some (getMergedAttrs info (Some p)).

(** The invariant of the inner loop of [refresh], over the profiles
    [pre] of the type done so far. *)
Definition InnerInv (info : ProfileInfo) (ty : string) (c : Cache)
    (pre : list IProfAttrs) (s : Cache * list loc) : Prop :=
  Grows c s.1
  /\ profilesByType s.1 = profilesByType c
  /\ length s.2 = length pre
  /\ (forall l, l ∈ s.2 ->
        exists o p, p ∈ pre /\ objs s.1 !! l = Some o
                    /\ name o = profName p /\ type o = profType p)
  /\ (forall ty', ty' ≠ ty ->
        map_get ty' (defaultProfileByType s.1) = map_get ty' (defaultProfileByType c))
  /\ (ValidProfiles c -> forall p, lastDefault pre = Some p -> DefaultStored info c s.1 ty p).

(** The invariant of the outer loop of [refresh], over the types [pre]
    done so far. *)
Definition OuterInv (info : ProfileInfo) (c1 : Cache)
    (pre : list string) (s : Cache * list loc) : Prop :=
  Grows c1 s.1
  /\ (forall l, l ∈ s.2 ->
        exists o ls, objs s.1 !! l = Some o /\ type o ∈ pre
                     /\ map_get (type o) (profilesByType s.1) = Some ls
                     /\ l ∈ ls /\ forall x, x ∈ ls -> x ∈ s.2)
  /\ (forall ty, is_Some (map_get ty (profilesByType c1)) ->
                 is_Some (map_get ty (profilesByType s.1)))
  /\ (forall ty, is_Some (map_get ty (defaultProfileByType s.1)) ->
                 is_Some (map_get ty (defaultProfileByType c1))
                 \/ is_Some (map_get ty (profilesByType s.1)))
  /\ (forall ty, ty ∈ pre -> profilesForType info ty ≠ [] ->
        exists l o, l ∈ s.2 /\ objs s.1 !! l = Some o /\ type o = ty)
  /\ (ValidProfiles c1 -> forall ty p, ty ∈ pre ->
        lastDefault (profilesForType info ty) = Some p -> DefaultStored info c1 s.1 ty p).

(** The default profile [p] of a type, as loaded. *)
Definition LoadedDefault (info : ProfileInfo) (c : Cache) (ty : string) (p : IProfAttrs)
  : Prop :=
  exists ol il,
    map_get ty (defaultProfileByType c) = Some ol
    /\ objs c !! ol = Some (getProfileLoaded (profName p) (profType p) il)
    /\ props c !! il = Some (getMergedAttrs info (Some p)).

End ProfilesCacheInv.

(** ** What the cache holds, for the further properties of its methods *)
Module ProfilesCacheViews.
Import Js ProfilesCache ProfilesCacheSpec.

(** The name and the type of the object at a location. *)
Definition keyOf (c : Cache) (l : loc) : option (string * string) :=
  (fun o => (name o, type o)) <$> objs c !! l.

(** The type of the object at a location. *)
Definition typeAt (c : Cache) (l : loc) : option string := type <$> objs c !! l.

(** The name and the type of a profile of the library. *)
Definition attrKey (p : IProfAttrs) : string * string := (profName p, profType p).

(** The profiles that [refresh] loads for the types it goes through, in
    the order in which it meets them. *)
Definition loadedProfiles (info : ProfileInfo) (tys : list string) : list IProfAttrs :=
  tys ≫= profilesForType info.

(** The first profile of [allProfiles] with a name and a type. *)
Definition FirstWith (c : Cache) (k : string * string) (l : loc) : Prop :=
  exists i, allProfiles c !! i = Some l /\ keyOf c l = Some k
            /\ forall j x, j < i -> allProfiles c !! j = Some x -> keyOf c x ≠ Some k.

(** Where [refresh] takes the object for a profile of the library from:
    the first cached profile of that name and type, or a new object when
    there is none. *)
Definition Origin (c : Cache) (p : IProfAttrs) (l : loc) : Prop :=
  FirstWith c (attrKey p) l
  \/ (length (objs c) <= l
      /\ forall x, x ∈ allProfiles c -> keyOf c x ≠ Some (attrKey p)).

(** The profiles that [refresh] stores for a type it went through. *)
Definition segment (info : ProfileInfo) (c : Cache) (ty : string) : list loc :=
  if decide (profilesForType info ty = []) then []
  else default [] (map_get ty (profilesByType c)).

(** The invariant of the inner loop of [refresh] for these properties:
    the profiles pushed so far go with the profiles [pre] of the library,
    one to one. [c1] is the cache when the loops start, [c] when the inner
    loop starts. *)
Definition InnerLoad (c1 c : Cache) (pre : list IProfAttrs) (s : Cache * list loc) : Prop :=
  ProfilesCacheInv.Grows c s.1
  /\ profilesByType s.1 = profilesByType c
  /\ Forall2 (fun l p => keyOf s.1 l = Some (attrKey p)
                         /\ (ValidProfiles c1 -> Origin c1 p l)) s.2 pre.

(** The invariant of the outer loop. *)
Definition OuterLoad (info : ProfileInfo) (c1 : Cache) (pre : list string)
    (s : Cache * list loc) : Prop :=
  ProfilesCacheInv.Grows c1 s.1
  /\ s.2 = pre ≫= segment info s.1
  /\ (forall ty, ty ∈ pre ->
        Forall2 (fun l p => keyOf s.1 l = Some (attrKey p)
                            /\ (ValidProfiles c1 -> Origin c1 p l))
                (segment info s.1 ty) (profilesForType info ty))
  /\ (forall ty, ty ∉ pre ->
        map_get ty (profilesByType s.1) = map_get ty (profilesByType c1)).

(** [loadNamedProfile] looks for this profile of the library. *)
Definition WantedAttrs (n : string) (t : option string) (p : IProfAttrs) : Prop :=
  profName p = n /\ (forall s, t = Some s -> s ≠ EmptyString -> profType p = s).

Section Env.
Variable env : string -> JsVal.

(** The value names a variable of the environment: a string that starts
    with a dollar sign. *)
Definition Dollar (v : option JsVal) : Prop :=
  exists s, v = Some (VStr s) /\ String.prefix "$" s = true.

(** How [checkForEnvVarAndUpdate] may change a property: not at all, or,
    when it named a variable, to what [process.env] holds under a name, a
    truthy value (the non-empty string of a variable, or the function or
    object of an inherited member). *)
Definition FromEnv (v v' : option JsVal) : Prop :=
  v' = v
  \/ (Dollar v /\ exists x, truthy (env x) = true /\ v' = Some (env x)).

(** How it may change a profile: in its user and its password only. *)
Definition EnvRewritten (m m' : IProfile) : Prop :=
  (forall k, k ≠ "user" -> k ≠ "password" -> m' !! k = m !! k)
  /\ FromEnv (m !! "user") (m' !! "user")
  /\ FromEnv (m !! "password") (m' !! "password").

(** The user of the profile starts with a dollar sign, but is no name
    under which [process.env] holds a truthy value. *)
Definition UnresolvedUser (m : IProfile) : Prop :=
  exists s, getProp m "user" = VStr s /\ String.prefix "$" s = true
            /\ forall x, matchEnvVar s = Some x -> truthy (env x) = false.
End Env.

(** A value that is not nullish and has no [startsWith] method: a number
    or a boolean. *)
Definition NoStartsWith (v : JsVal) : Prop :=
  match v with
  | VNum _ | VBool _ => True
  | _ => False
  end.

(** A value that a block of [checkForEnvVarAndUpdate] passes over:
    nullish, or a string that does not start with a dollar sign. *)
Definition PlainValue (v : JsVal) : Prop :=
  match v with
  | VUndef | VNull => True
  | VStr s => String.prefix "$" s = false
  | _ => False
  end.

(** The object [o] with the [profile] of [p]. *)
Definition withProfile (o p : IProfileLoaded) : IProfileLoaded :=
  mkProfileLoaded (message o) (name o) (type o) (profile p) (failNotFound o).

(** What [updateCachedProfile] does to the default of the type of [p]:
    the profile handed in replaces a default of the same name. *)
Definition updatedDefaults (c : Cache) (pl : loc) (p : IProfileLoaded) : JsMap loc :=
  match map_get (type p) (defaultProfileByType c) with
  | Some d =>
      if decide (name <$> objs c !! d = Some (name p))
      then map_set (type p) pl (defaultProfileByType c)
      else defaultProfileByType c
  | None => defaultProfileByType c
  end.

(** From [c0] to [c] only the two stores changed. *)
Definition SameRest (c0 c : Cache) : Prop :=
  allProfiles c = allProfiles c0 /\ allTypes c = allTypes c0
  /\ allExternalTypes c = allExternalTypes c0
  /\ profilesByType c = profilesByType c0
  /\ defaultProfileByType c = defaultProfileByType c0
  /\ profilesForValidation c = profilesForValidation c0.

(** The default base profile, when there is one, is a stored object with
    stored properties. *)
Definition BaseStored (c : Cache) : Prop :=
  forall d, map_get "base" (defaultProfileByType c) = Some d ->
    exists o, objs c !! d = Some o /\ profile o < length (props c).

(** The properties [m] that a fetched profile [p] carries: the merged
    ones, without the tokens when the conditions hold of them against the
    base profile [b]. *)
Definition Fetched (TOKEN_TYPE_APIML : string) (info : ProfileInfo) (b : View)
    (p : IProfAttrs) (m : IProfile) : Prop :=
  (Conditions TOKEN_TYPE_APIML (Some (Some (getMergedAttrs info (Some p)))) b
   /\ m = ProfilesCacheInv.scrub (getMergedAttrs info (Some p)))
  \/ (~ Conditions TOKEN_TYPE_APIML (Some (Some (getMergedAttrs info (Some p)))) b
      /\ m = getMergedAttrs info (Some p)).









(** The configuration that an array holds for a type: the first one of
    that type. *)
Definition configOfType (t : string) (a : list ICommandProfileTypeConfiguration)
  : option ICommandProfileTypeConfiguration :=
  List.find (fun ele => bool_decide (configType ele = t)) a.

End ProfilesCacheViews.

(** ** Trees and strings, for the further properties of the utilities *)
Module SharedUtilsViews.
Import Js SharedUtils.

(** The nodes of a tree, the root first. *)
Fixpoint subtree (node : IZoweNodeType) : list IZoweNodeType :=
  match node with
  | ZoweNode _ _ c =>
      node :: match c with
              | Some nodes => flat_map subtree nodes
              | None => []
              end
  end.

(** The nodes of the trees of a list. *)
Definition forest (nodes : list IZoweNodeType) : list IZoweNodeType :=
  flat_map subtree nodes.

(** Every node of the trees has its array of children. *)
Definition Complete (nodes : list IZoweNodeType) : Prop :=
  Forall (fun n => is_Some (children n)) (forest nodes).

(** In the list [r], every node comes right after the nodes below it, in
    the order in which [concatChildNodes] lists those. *)
Definition BottomUp (r : list IZoweNodeType) : Prop :=
  forall i n, r !! i = Some n ->
    exists sub pre post,
      concatChildNodes (default [] (children n)) = Some sub
      /\ r = pre ++ sub ++ n :: post
      /\ length pre + length sub = i.

(** The target is one of the dragged nodes or lies below one, as the
    function tests it: its path starts with the path of a dragged node. *)
Definition MovedIntoChild (target : option IZoweNodeType)
    (draggedNodes : list IZoweNodeType) : Prop :=
  exists n t tp np,
    n ∈ draggedNodes /\ target = Some t /\ resourceUri t = Some tp
    /\ resourceUri n = Some np /\ String.prefix np tp = true.

(** A child of the target has the label of a dragged node. *)
Definition WillOverwrite (target : option IZoweNodeType)
    (draggedNodes : list IZoweNodeType) : Prop :=
  exists n t tcs tc,
    n ∈ draggedNodes /\ target = Some t /\ children t = Some tcs
    /\ tc ∈ tcs /\ label_ tc = label_ n.

(** The string [d] occurs in [s]. *)
Definition Occurs (d s : jsstring) : Prop := exists p q, s = p ++ d ++ q.

(** The same, computed. *)
Fixpoint occursb (d s : jsstring) : bool :=
  bool_decide (d `prefix_of` s)
  || match s with
     | [] => false
     | _ :: s' => occursb d s'
     end.

End SharedUtilsViews.

(** ** A cache and a tree, to run the other methods on *)
Module MoreExamples.
Import Js ProfilesCache SharedUtils Examples.

(** A cache with two "zosmf" profiles and a base profile, and two more
    profile objects that a caller holds: one with the name and type of a
    cached profile, one of a profile that is not cached. *)
Definition exampleCache : Cache :=
  mkCache
    [mkProfileLoaded "" "lpar1" "zosmf" 0 false;
     mkProfileLoaded "" "lpar2" "zosmf" 1 false;
     mkProfileLoaded "" "global_base" "base" 2 false;
     mkProfileLoaded "" "lpar1" "zosmf" 3 false;
     mkProfileLoaded "" "lpar9" "zosmf" 3 false]
    [<["user" := VStr "$NOPE"]> {["password" := VStr "$ZOWE_USER"]};
     {["user" := VStr "$ZOWE_USER"]};
     <["host" := VStr "gateway.example.com"]> {["port" := VNum 7554]};
     {["host" := VStr "lpar1.example.com"]}]
    [0; 1; 2]
    ["zosmf"; "base"]
    []
    [("zosmf", [0; 1]); ("base", [2])]
    [("zosmf", 0); ("base", 2)]
    [].

(** A cache whose one profile has a number as user. *)
Definition exampleCacheNumericUser : Cache :=
  mkCache [mkProfileLoaded "" "lpar1" "zosmf" 0 false]
          [{["user" := VNum 42]}]
          [0] ["zosmf"] [] [("zosmf", [0])] [] [].

(** A cache whose one profile has as user the name of a member that
    [process.env] inherits. *)
Definition exampleCacheInherited : Cache :=
  mkCache [mkProfileLoaded "" "lpar1" "zosmf" 0 false]
          [{["user" := VStr "$constructor"]}]
          [0] ["zosmf"] [] [("zosmf", [0])] [] [].

(** A session node with two children, the second of which has a child. *)
Definition exampleLeaf (l : string) : IZoweNodeType :=
  ZoweNode (Some l) (Some ("/lpar1/" +:+ l)) (Some []).

Definition exampleTree : IZoweNodeType :=
  ZoweNode (Some "lpar1") (Some "/lpar1")
           (Some [exampleLeaf "a.txt";
                  ZoweNode (Some "dir") (Some "/lpar1/dir")
                           (Some [exampleLeaf "dir/b.txt"])]).

(** Two sort options of the data set tree. *)
Definition exampleSortOptions : list jsstring := [str "Name"; str "Date Created"].

End MoreExamples.
(** ** Facts about the JavaScript containers *)
Module JsFacts.
Import Js.

Section MapFacts.
Context {V : Type}.
Implicit Types (m : JsMap V) (k : string) (v : V).

Lemma map_get_set_eq m k v : map_get k (map_set k v m) = Some v.
Proof.
  induction m as [|[k' v'] m IH]; simpl.
  - by rewrite decide_True.
  - destruct (decide (k' = k)) as [->|Hne]; simpl.
    + by rewrite decide_True.
    + by rewrite decide_False.
Qed.

Lemma map_get_set_ne m k k' v : k ≠ k' -> map_get k (map_set k' v m) = map_get k m.
Proof.
  intros Hne. induction m as [|[k0 v0] m IH]; simpl.
  - by rewrite decide_False.
  - destruct (decide (k0 = k')) as [->|Hne']; simpl.
    + by rewrite !decide_False.
    + destruct (decide (k0 = k)); [done|apply IH].
Qed.

Lemma map_get_delete_eq m k : map_get k (map_delete k m) = None.
Proof.
  induction m as [|[k' v'] m IH]; simpl; [done|].
  destruct (decide (k' = k)) as [->|Hne]; simpl; [done|].
  by rewrite decide_False.
Qed.

Lemma map_get_delete_ne m k k' : k ≠ k' -> map_get k (map_delete k' m) = map_get k m.
Proof.
  intros Hne. induction m as [|[k0 v0] m IH]; simpl; [done|].
  destruct (decide (k0 = k')) as [->|Hne']; simpl.
  - by rewrite decide_False.
  - destruct (decide (k0 = k)); [done|apply IH].
Qed.

Lemma map_get_keys m k : is_Some (map_get k m) <-> k ∈ map_keys m.
Proof.
  unfold map_keys. induction m as [|[k' v'] m IH]; simpl.
  - split; [intros [? ?]; done|intros H; inversion H].
  - destruct (decide (k' = k)) as [->|Hne].
    + split; [intros _; left|eauto].
    + rewrite IH. split; [by right|].
      intros H. apply elem_of_cons in H as [?|?]; [congruence|done].
Qed.

End MapFacts.

Section ForOf.
Context {A S : Type}.
Implicit Types (body : A -> S -> option S) (xs : list A) (s : S).

Lemma forOf_app body xs ys s :
  forOf body (xs ++ ys) s = forOf body xs s ≫= forOf body ys.
Proof.
  revert s. induction xs as [|x xs IH]; intros s; simpl; [done|].
  destruct (body x s) as [s'|]; simpl; [apply IH|done].
Qed.

(** An invariant of the loop body is an invariant of the loop. *)
Lemma forOf_invariant body (I : S -> Prop) xs s s' :
  (forall x t t', x ∈ xs -> I t -> body x t = Some t' -> I t') ->
  I s -> forOf body xs s = Some s' -> I s'.
Proof.
  revert s. induction xs as [|x xs IH]; intros s Hstep Hs Hrun; simpl in Hrun.
  - by injection Hrun as <-.
  - destruct (body x s) as [t|] eqn:Hb; simpl in Hrun; [|done].
    apply (IH t); [|by eapply Hstep; [left|..]|done].
    intros y u u' Hy. apply Hstep. by right.
Qed.

(** The same, the invariant following the elements done so far. *)
Lemma forOf_invariant_prefix body (I : list A -> S -> Prop) xs s s' :
  (forall pre x post t t',
      xs = pre ++ x :: post -> I pre t -> body x t = Some t' -> I (pre ++ [x]) t') ->
  I [] s -> forOf body xs s = Some s' -> I xs s'.
Proof.
  intros Hstep.
  assert (Hgen : forall post pre t, xs = pre ++ post -> I pre t ->
                   forOf body post t = Some s' -> I xs s').
  { induction post as [|x post IH]; intros pre t Hxs Ht Hrun; simpl in Hrun.
    - injection Hrun as <-. by rewrite Hxs, app_nil_r.
    - destruct (body x t) as [u|] eqn:Hb; simpl in Hrun; [|done].
      apply (IH (pre ++ [x]) u); [by rewrite <- app_assoc|by eapply Hstep|done]. }
  intros Hs Hrun. by apply (Hgen xs [] s).
Qed.
End ForOf.

Lemma set_add_elem x y s : y ∈ set_add x s <-> y = x \/ y ∈ s.
Proof.
  unfold set_add. destruct (decide (x ∈ s)) as [Hin|Hnin].
  - split; [by right|]. intros [->|?]; done.
  - rewrite elem_of_app, list_elem_of_singleton. tauto.
Qed.

Lemma set_add_NoDup x s : NoDup s -> NoDup (set_add x s).
Proof.
  intros Hnd. unfold set_add. destruct (decide (x ∈ s)) as [Hin|Hnin]; [done|].
  apply NoDup_app. split; [done|]. split.
  - intros y Hy ->%list_elem_of_singleton. done.
  - apply NoDup_singleton.
Qed.

Lemma set_of_NoDup xs : NoDup (set_of xs).
Proof.
  unfold set_of.
  assert (H : forall acc, NoDup acc -> NoDup (fold_left (fun s x => set_add x s) xs acc)).
  { induction xs as [|x xs IH]; intros acc Hacc; simpl; [done|].
    apply IH. by apply set_add_NoDup. }
  apply H, NoDup_nil_2.
Qed.

Lemma set_of_elem x xs : x ∈ set_of xs <-> x ∈ xs.
Proof.
  unfold set_of.
  assert (H : forall acc, x ∈ fold_left (fun s x => set_add x s) xs acc <-> x ∈ acc \/ x ∈ xs).
  { induction xs as [|y xs IH]; intros acc; simpl.
    - split; [by left|]. intros [?|H]; [done|inversion H].
    - rewrite IH, set_add_elem, elem_of_cons. tauto. }
  rewrite H. split; [intros [H0|?]; [inversion H0|done]|by right].
Qed.

Example slice0_examples :
  slice0 "lpar.zosmf" (lastIndexOf "." "lpar.zosmf") = "lpar"
  /\ slice0 "https:" (-1) = "https"
  /\ slice0 "abc" 7 = "abc"
  /\ lastIndexOf "." "a.b.c" = 3%Z
  /\ lastIndexOf "." "abc" = (-1)%Z
  /\ includes ":443" "https://host:4430/zosmf" = true.
Proof. repeat split. Qed.

End JsFacts.

(** ** Facts about the profiles cache *)
Module ProfilesCacheFacts.
Import Js JsFacts ProfilesCache ProfilesCacheSpec ProfilesCacheInv.


Lemma Truthy_Some v : Truthy (Some v) <-> truthy v = true.
Proof. split; [intros (r & [= <-] & H); done|intros H; by exists v]. Qed.

Lemma and_Truthy a b : Truthy (and_ a b) <-> Truthy a /\ Truthy b.
Proof.
  unfold Truthy, and_. destruct a as [v|]; simpl.
  - destruct (truthy v) eqn:Hv.
    + split; [intros H; split; [by exists v|done]|intros [_ H]; done].
    + split; [intros (r & [= <-] & H); congruence|].
      intros [(r & [= <-] & H) _]; congruence.
  - split; [intros (r & H & _); done|intros [(r & H & _) _]; done].
Qed.

Lemma or_Truthy a b :
  Truthy (or_ a b) <->
  Truthy a \/ (exists v, a = Some v /\ truthy v = false /\ Truthy b).
Proof.
  unfold Truthy, or_. destruct a as [v|]; simpl.
  - destruct (truthy v) eqn:Hv.
    + split; [intros _; left; by exists v|intros _; by exists v].
    + split; [intros H; right; by exists v|].
      intros [(r & [= <-] & H)|(w & [= <-] & _ & H)]; [congruence|done].
  - split; [intros (r & H & _); done|].
    intros [(r & H & _)|(w & H & _)]; done.
Qed.

Lemma and_last a b r : and_ a b = Some r -> truthy r = true -> b = Some r.
Proof.
  unfold and_. destruct a as [v|]; simpl; [|done].
  destruct (truthy v) eqn:Hv; [done|]. intros [= <-]. congruence.
Qed.

Lemma optStartsWith_Truthy v p :
  Truthy (optStartsWith v p) <-> exists s, v = VStr s /\ String.prefix p s = true.
Proof.
  unfold Truthy. destruct v; simpl.
  - split; [intros (r & [= <-] & H); done|intros (s & H & _); done].
  - split; [intros (r & [= <-] & H); done|intros (s & H & _); done].
  - split; [intros (r & H & _); done|intros (s & H & _); done].
  - split; [intros (r & H & _); done|intros (s & H & _); done].
  - split.
    + intros (r & [= <-] & H). by exists s.
    + intros (s' & [= <-] & H). by eexists.
  - split; [intros (r & H & _); done|intros (s & H & _); done].
Qed.

Lemma optStartsWith_true v p r :
  optStartsWith v p = Some r -> truthy r = true -> r = VBool true.
Proof. destruct v; simpl; intros [= <-]; simpl; try done. by intros ->. Qed.

Lemma fold_setProp_last (args : list IProfArgAttrs) (m : IProfile) (k : string) :
  k ≠ "__proto__" ->
  fold_left (fun p arg => setProp (argName arg) (argValue arg) p) args m !! k
  = match last (filter (fun a => argName a = k) args) with
    | Some a => Some (argValue a)
    | None => m !! k
    end.
Proof.
  intros Hk. induction args as [|a args IH] using rev_ind; [done|].
  rewrite fold_left_app, filter_app. simpl. rewrite filter_cons, filter_nil.
  unfold setProp at 1.
  destruct (decide (argName a = k)) as [<-|Hne].
  - rewrite decide_False by done. by rewrite lookup_insert_eq, last_snoc.
  - rewrite app_nil_r. destruct (decide (argName a = "__proto__")); [done|].
    by rewrite lookup_insert_ne.
Qed.

Lemma fold_setProp_proto (args : list IProfArgAttrs) (m : IProfile) :
  fold_left (fun p arg => setProp (argName arg) (argValue arg) p) args m !! "__proto__"
  = m !! "__proto__".
Proof.
  induction args as [|a args IH] using rev_ind; [done|].
  rewrite fold_left_app. simpl. unfold setProp at 1.
  destruct (decide (argName a = "__proto__")); [done|].
  by rewrite lookup_insert_ne.
Qed.

Lemma getMergedAttrs_MergedFrom (info : ProfileInfo) (pa : IProfAttrs) :
  MergedFrom info pa (getMergedAttrs info (Some pa)).
Proof.
  split.
  - unfold getMergedAttrs. by rewrite fold_setProp_proto.
  - intros k Hk. unfold getMergedAttrs. rewrite fold_setProp_last by done.
    by destruct (last _).
Qed.

Section Facts.
Variable TOKEN_TYPE_APIML : string.
Variable env : string -> JsVal.

Abbreviation shouldRemove := (shouldRemoveTokenFromProfile TOKEN_TYPE_APIML).
Abbreviation Conditions := (ProfilesCacheSpec.Conditions TOKEN_TYPE_APIML).




Lemma has_view p k : has (optProp p k) -> exists m, p = Some (Some m).
Proof. destruct p as [[m|]|]; [eauto|discriminate..]. Qed.

Lemma shouldRemove_Truthy p b : Truthy (shouldRemove p b) <-> Conditions p b.
Proof.
  unfold shouldRemoveTokenFromProfile, ProfilesCacheSpec.Conditions, has.
  rewrite !and_Truthy. split.
  - intros ((((Hb & Hh%Truthy_Some) & Hp%Truthy_Some) & Hd) & Ht).
    destruct (has_view _ _ Hh) as [m ->].
    assert (exists mb, b = Some (Some mb)) as [mb ->].
    { apply or_Truthy in Hb as [Hb%Truthy_Some|(v & _ & _ & Hb%Truthy_Some)];
        by apply has_view in Hb. }
    cbn [optProp optPropStrict mbind option_bind] in *. apply optStartsWith_Truthy in Ht.
    split_and!; try done.
    + apply or_Truthy in Hb as [Hb%Truthy_Some|(v & _ & _ & Hb%Truthy_Some)]; auto.
    + apply or_Truthy in Hd as [Hd|(v & _ & _ & Hd)].
      * apply or_Truthy in Hd as [Hd%Truthy_Some|(v & _ & _ & Hd%Truthy_Some)].
        -- left. by apply bool_decide_eq_true in Hd.
        -- right; left. by apply bool_decide_eq_true in Hd.
      * right; right. by rewrite and_Truthy, !Truthy_Some in Hd.
  - intros (Hb & Hh & Hp & Ht & Hd).
    destruct (has_view _ _ Hh) as [m ->].
    assert (exists mb, b = Some (Some mb)) as [mb ->].
    { destruct Hb as [Hb|Hb]; by apply has_view in Hb. }
    cbn [optProp optPropStrict mbind option_bind] in *. split_and!; try (by apply Truthy_Some).
    + apply or_Truthy. rewrite !Truthy_Some.
      destruct (truthy (getProp mb "host")) eqn:E; [by left|right].
      destruct Hb as [Hb|Hb]; [done|].
      eexists. split; [done|]. split; [done|]. by apply Truthy_Some.
    + apply or_Truthy.
      destruct (decide (getProp mb "host" = getProp m "host")) as [E1|E1].
      2:{ left. apply or_Truthy. left. apply Truthy_Some.
          by apply bool_decide_eq_true. }
      destruct (decide (getProp mb "port" = getProp m "port")) as [E2|E2].
      2:{ left. apply or_Truthy. right. eexists. split; [done|]. split.
          - by apply bool_decide_eq_false; intros ?.
          - apply Truthy_Some. by apply bool_decide_eq_true. }
      right. exists (VBool false). split; [|split; [done|]].
      * unfold or_, strictNe; simpl.
        by rewrite !bool_decide_eq_false_2 by (by intros ?).
      * apply and_Truthy. rewrite !Truthy_Some.
        destruct Hd as [?|[?|?]]; done.
    + by apply optStartsWith_Truthy.
Qed.

Lemma shouldRemove_value p b r :
  shouldRemove p b = Some r -> truthy r = true -> r = VBool true.
Proof.
  intros H Hr. unfold shouldRemoveTokenFromProfile in H.
  apply and_last in H; [|done].
  destruct (optPropStrict p "tokenType") as [t|]; simpl in H; [|done].
  by eapply optStartsWith_true.
Qed.

Lemma shouldRemove_true_iff p b :
  shouldRemove p b = Some (VBool true) <-> Conditions p b.
Proof.
  rewrite <- shouldRemove_Truthy. split.
  - intros H. by exists (VBool true).
  - intros (r & H & Hr). by rewrite (shouldRemove_value _ _ _ H Hr) in H.
Qed.

(** *** How the token check and the environment substitution change a
    stored profile *)






Lemma Rewritten_refl m : Rewritten m m.
Proof. unfold Rewritten. split_and!; auto. Qed.

Lemma Rewritten_trans m1 m2 m3 : Rewritten m1 m2 -> Rewritten m2 m3 -> Rewritten m1 m3.
Proof.
  intros (Ha & Hu & Hp & Ht) (Ha' & Hu' & Hp' & Ht'). split_and!.
  - intros k Hk. by rewrite Ha', Ha.
  - congruence.
  - congruence.
  - destruct Ht' as [[E1 E2]|?]; [|by right].
    rewrite E1, E2. done.
Qed.

Lemma Evolves_refl c : Evolves c c.
Proof. unfold Evolves. split_and!; try done. intros i m H. eauto using Rewritten_refl. Qed.

Lemma Evolves_trans c1 c2 c3 : Evolves c1 c2 -> Evolves c2 c3 -> Evolves c1 c3.
Proof.
  intros (Ho & Ha & Hty & Hex & Hb & Hd & Hl & Hp) (Ho' & Ha' & Hty' & Hex' & Hb' & Hd' & Hl' & Hp').
  unfold Evolves. split_and!; try congruence.
  intros i m H. destruct (Hp _ _ H) as (m2 & H2 & R2).
  destruct (Hp' _ _ H2) as (m3 & H3 & R3). eauto using Rewritten_trans.
Qed.

Lemma Evolves_props_None c c' i : Evolves c c' -> props c !! i = None -> props c' !! i = None.
Proof.
  intros (_ & _ & _ & _ & _ & _ & Hl & _). rewrite !lookup_ge_None. lia.
Qed.

Lemma Evolves_view c c' l : Evolves c c' -> ViewRel (view c l) (view c' l).
Proof.
  intros Hev. pose proof Hev as (Ho & _ & _ & _ & _ & _ & _ & Hp).
  unfold view, ViewRel. rewrite Ho.
  destruct (objs c !! l) as [o|]; cbn [mbind option_bind]; [|done].
  destruct (props c !! profile o) as [m|] eqn:E.
  - destruct (Hp _ _ E) as (m' & -> & R). done.
  - by rewrite (Evolves_props_None _ _ _ Hev E).
Qed.

Lemma Evolves_baseView c c' : Evolves c c' -> ViewRel (baseView c) (baseView c').
Proof.
  intros Hev. pose proof Hev as (_ & _ & _ & _ & _ & Hd & _ & _).
  unfold baseView. rewrite Hd.
  destruct (map_get "base" (defaultProfileByType c)) as [l|]; simpl; [|done].
  by apply Evolves_view.
Qed.

Lemma Rewritten_other m m' k : Rewritten m m' -> k ∉ touched -> getProp m' k = getProp m k.
Proof. intros (Ha & _) Hk. unfold getProp. by rewrite Ha. Qed.

Lemma ViewRel_other p p' k : ViewRel p p' -> k ∉ touched -> optProp p' k = optProp p k.
Proof.
  destruct p as [[m|]|], p' as [[m'|]|]; simpl; try done.
  apply Rewritten_other.
Qed.

Lemma not_touched_host : "host" ∉ touched.
Proof. unfold touched. by apply (bool_decide_unpack _). Qed.

Lemma not_touched_port : "port" ∉ touched.
Proof. unfold touched. by apply (bool_decide_unpack _). Qed.

Lemma ViewRel_user p p' : ViewRel p p' ->
  truthy (optProp p' "user") = truthy (optProp p "user")
  /\ truthy (optProp p' "password") = truthy (optProp p "password").
Proof.
  destruct p as [[m|]|], p' as [[m'|]|]; simpl; try done.
  intros (_ & Hu & Hp & _). done.
Qed.

Lemma ViewRel_tokens p p' : ViewRel p p' ->
  (optProp p' "tokenType" = optProp p "tokenType"
   /\ optProp p' "tokenValue" = optProp p "tokenValue")
  \/ TokensUndefined p'.
Proof.
  unfold TokensUndefined.
  destruct p as [[m|]|], p' as [[m'|]|]; simpl; try done; try (by left).
  intros (_ & _ & _ & Ht). done.
Qed.

Lemma TokensUndefined_forward p p' : ViewRel p p' -> TokensUndefined p -> TokensUndefined p'.
Proof.
  intros HR [H1 H2]. destruct (ViewRel_tokens _ _ HR) as [[E1 E2]|?]; [|done].
  split; congruence.
Qed.

Lemma Conditions_forward p p' b b' :
  ViewRel p p' -> ViewRel b b' -> Conditions p b -> Conditions p' b' \/ TokensUndefined p'.
Proof.
  intros Hp Hb (C1 & C2 & C3 & C4 & C5).
  destruct (ViewRel_tokens _ _ Hp) as [[E1 E2]|?]; [left|by right].
  destruct (ViewRel_user _ _ Hp) as [Eu Epw].
  unfold ProfilesCacheSpec.Conditions, has.
  rewrite !(ViewRel_other _ _ _ Hp not_touched_host), !(ViewRel_other _ _ _ Hp not_touched_port),
    !(ViewRel_other _ _ _ Hb not_touched_host), !(ViewRel_other _ _ _ Hb not_touched_port),
    E1, Eu, Epw.
  done.
Qed.

Lemma Conditions_backward p p' b b' :
  ViewRel p p' -> ViewRel b b' -> Conditions p' b' -> Conditions p b.
Proof.
  intros Hp Hb (C1 & C2 & C3 & C4 & C5).
  destruct (ViewRel_user _ _ Hp) as [Eu Epw].
  assert (optProp p' "tokenType" = optProp p "tokenType") as E1.
  { destruct (ViewRel_tokens _ _ Hp) as [[E1 E2]|[E1 _]]; [done|].
    destruct C4 as (s0 & C4 & _). congruence. }
  unfold ProfilesCacheSpec.Conditions, has in *.
  rewrite !(ViewRel_other _ _ _ Hp not_touched_host), !(ViewRel_other _ _ _ Hp not_touched_port),
    !(ViewRel_other _ _ _ Hb not_touched_host), !(ViewRel_other _ _ _ Hb not_touched_port),
    ?E1, ?Eu, ?Epw in *.
  done.
Qed.

Lemma Conditions_tokens p b : Conditions p b -> ~ TokensUndefined p.
Proof. intros (_ & _ & _ & (s0 & E & _) & _) [E' _]. congruence. Qed.


Lemma Evolves_update c i m m' :
  props c !! i = Some m -> Rewritten m m' -> Evolves c (set_props <[i := m']> c).
Proof.
  intros Hi HR. unfold Evolves; simpl. split_and!; try done.
  - apply length_insert.
  - intros j mj Hj. destruct (decide (i = j)) as [<-|Hne].
    + rewrite list_lookup_insert_eq by (by eapply lookup_lt_Some).
      exists m'. split; [done|]. congruence.
    + rewrite list_lookup_insert_ne by done. eauto using Rewritten_refl.
Qed.


Lemma Rewritten_scrub m : Rewritten m (scrub m).
Proof.
  unfold Rewritten, scrub, getProp. split_and!.
  - intros k Hk. unfold touched in Hk.
    rewrite !lookup_insert_ne; [done|intros <-; apply Hk..].
    + right; left.
    + left.
  - by rewrite !lookup_insert_ne.
  - by rewrite !lookup_insert_ne.
  - right. rewrite lookup_insert_eq, lookup_insert_ne, lookup_insert_eq; done.
Qed.

Lemma scrub_TokensUndefined m : TokensUndefined (Some (Some (scrub m))).
Proof.
  unfold TokensUndefined, optProp, scrub, getProp.
  rewrite lookup_insert_eq, lookup_insert_ne, lookup_insert_eq; done.
Qed.

(** One call of [checkMergingConfigSingleProfile]. *)
Lemma checkSingle_step l c c' :
  checkMergingConfigSingleProfile TOKEN_TYPE_APIML l c = Some c' ->
  Evolves c c'
  /\ ~ Conditions (view c' l) (baseView c')
  /\ (Conditions (view c l) (baseView c) -> TokensUndefined (view c' l)).
Proof.
  unfold checkMergingConfigSingleProfile. fold (baseView c).
  destruct (shouldRemove (view c l) (baseView c)) as [r|] eqn:Hr; simpl; [|done].
  destruct (truthy r) eqn:Ht.
  - destruct (objs c !! l) as [o|] eqn:Ho; simpl; [|done].
    destruct (props c !! profile o) as [m|] eqn:Hm; simpl; [|done].
    intros [= <-].
    assert (TokensUndefined (view (set_props <[profile o:=scrub m]> c) l)) as HU.
    { unfold view; simpl. rewrite Ho; simpl.
      rewrite list_lookup_insert_eq by (by eapply lookup_lt_Some).
      apply scrub_TokensUndefined. }
    split; [by eapply Evolves_update, Rewritten_scrub|].
    split; [|done]. intros HC. by apply Conditions_tokens in HC.
  - intros [= <-]. split; [apply Evolves_refl|].
    assert (~ Conditions (view c l) (baseView c)) as HN.
    { intros HC%shouldRemove_true_iff. rewrite HC in Hr. by injection Hr as <-. }
    done.
Qed.

Lemma checkSingle_loop ls c c' :
  forOf (checkMergingConfigSingleProfile TOKEN_TYPE_APIML) ls c = Some c' ->
  Evolves c c'
  /\ forall l, l ∈ ls ->
       ~ Conditions (view c' l) (baseView c')
       /\ (Conditions (view c l) (baseView c) -> TokensUndefined (view c' l)).
Proof.
  revert c. induction ls as [|l0 ls IH]; intros c; simpl.
  - intros [= <-]. split; [apply Evolves_refl|]. intros l H; inversion H.
  - destruct (checkMergingConfigSingleProfile _ l0 c) as [c1|] eqn:H1; simpl; [|done].
    intros H2. destruct (checkSingle_step _ _ _ H1) as (E1 & N1 & U1).
    destruct (IH _ H2) as (E2 & Hrest).
    split; [by eapply Evolves_trans|].
    intros l [->|Hl]%elem_of_cons.
    + split.
      * intros HC. apply N1.
        eapply Conditions_backward; [apply Evolves_view|apply Evolves_baseView|]; done.
      * intros HC. eapply TokensUndefined_forward; [by apply Evolves_view|auto].
    + destruct (Hrest _ Hl) as [N2 U2]. split; [done|].
      intros HC.
      destruct (Conditions_forward _ (view c1 l) _ (baseView c1)
                  (Evolves_view _ _ l E1) (Evolves_baseView _ _ E1) HC) as [HC1|HU1].
      * auto.
      * eapply TokensUndefined_forward; [by apply Evolves_view|done].
Qed.

Lemma elem_of_concat {A} (x : A) (xss : list (list A)) :
  x ∈ concat xss <-> exists xs, xs ∈ xss /\ x ∈ xs.
Proof.
  induction xss as [|ys xss IH]; simpl.
  - split; [intros H; inversion H|intros (xs & H & _); inversion H].
  - rewrite elem_of_app, IH. split.
    + intros [H|(xs & H1 & H2)]; [exists ys; split; [left|done]|].
      exists xs. split; [by right|done].
    + intros (xs & [->|H1]%elem_of_cons & H2); [by left|right; eauto].
Qed.

Lemma forOf_nested {A S} (body : A -> S -> option S) (xss : list (list A)) (s : S) :
  forOf (fun xs t => forOf body xs t) xss s = forOf body (concat xss) s.
Proof.
  revert s. induction xss as [|xs xss IH]; intros s; simpl; [done|].
  rewrite forOf_app. destruct (forOf body xs s); simpl; [apply IH|done].
Qed.

(** [checkMergingConfigAllProfiles] *)
Lemma checkAll_spec c c' :
  checkMergingConfigAllProfiles TOKEN_TYPE_APIML c = Some c' ->
  Evolves c c'
  /\ forall ls l, ls ∈ map_values (profilesByType c) -> l ∈ ls ->
       ~ Conditions (view c' l) (baseView c')
       /\ (Conditions (view c l) (baseView c) -> TokensUndefined (view c' l)).
Proof.
  unfold checkMergingConfigAllProfiles. rewrite forOf_nested.
  intros (E & H)%checkSingle_loop. split; [done|].
  intros ls l Hls Hl. apply H, elem_of_concat. eauto.
Qed.

Lemma prefix_dollar s : String.prefix "$" s = true -> truthy (VStr s) = true.
Proof. destruct s; simpl; [discriminate|done]. Qed.

Lemma envBlock_Rewritten k m b m' :
  k = "user" \/ k = "password" ->
  envBlock env k m = Some (b, m') -> Rewritten m m'.
Proof.
  intros Hk. unfold envBlock.
  destruct (getProp m k) as [| | | |s|] eqn:Hg; simpl; try done;
    try (intros [= <- <-]; apply Rewritten_refl).
  destruct (String.prefix "$" s) eqn:Hpre; simpl;
    [|intros [= <- <-]; apply Rewritten_refl].
  destruct (matchEnvVar s) as [x|]; [|intros [= <- <-]; apply Rewritten_refl].
  destruct (truthy (env x)) eqn:Htv; intros [= <- <-]; [|apply Rewritten_refl].
  apply prefix_dollar in Hpre.
  unfold Rewritten, getProp in *.
  destruct Hk as [-> | ->].
  - split_and!.
    + intros k Hk. rewrite lookup_insert_ne; [done|].
      intros <-. apply Hk. unfold touched. by apply (bool_decide_unpack _).
    + rewrite lookup_insert_eq, Hg. cbn [default id]. by rewrite Htv, Hpre.
    + by rewrite lookup_insert_ne.
    + left. by rewrite !lookup_insert_ne.
  - split_and!.
    + intros k Hk. rewrite lookup_insert_ne; [done|].
      intros <-. apply Hk. unfold touched. by apply (bool_decide_unpack _).
    + by rewrite lookup_insert_ne.
    + rewrite lookup_insert_eq, Hg. cbn [default id]. by rewrite Htv, Hpre.
    + left. by rewrite !lookup_insert_ne.
Qed.

Lemma envProfile_step l c c' : envProfile env l c = Some c' -> Evolves c c'.
Proof.
  unfold envProfile.
  destruct (objs c !! l) as [o|] eqn:Ho; simpl; [|done].
  destruct (props c !! profile o) as [m|] eqn:Hm; simpl; [|done].
  destruct (envBlock env "user" m) as [[b1 m1]|] eqn:H1; simpl; [|done].
  assert (Rewritten m m1) as R1 by (eapply envBlock_Rewritten; [|done]; auto).
  destruct b1.
  - intros [= <-]. apply Evolves_refl.
  - destruct (envBlock env "password" m1) as [[b2 m2]|] eqn:H2; simpl; [|done].
    assert (Rewritten m1 m2) as R2 by (eapply envBlock_Rewritten; [|done]; auto).
    intros [= <-]. eapply Evolves_update; [done|]. by eapply Rewritten_trans.
Qed.

Lemma checkForEnvVarAndUpdate_Evolves c c' :
  checkForEnvVarAndUpdate env c = Some c' -> Evolves c c'.
Proof.
  unfold checkForEnvVarAndUpdate. generalize (allProfiles c) as ls.
  intros ls H.
  eapply (forOf_invariant _ (fun t => Evolves c t)); [|apply Evolves_refl|done].
  intros l t t' _ Ht Hs. eapply Evolves_trans; [done|]. by eapply envProfile_step.
Qed.

(** Every element the loop visited is a valid reference afterwards. *)
Lemma checkForEnvVarAndUpdate_valid c c' l :
  checkForEnvVarAndUpdate env c = Some c' ->
  l ∈ allProfiles c -> l < length (objs c').
Proof.
  unfold checkForEnvVarAndUpdate. generalize (allProfiles c) as ls.
  intros ls. revert c. induction ls as [|l0 ls IH]; intros c H Hl; [inversion Hl|].
  simpl in H. destruct (envProfile env l0 c) as [c1|] eqn:H1; simpl in H; [|done].
  assert (Evolves c1 c') as (Ho & _).
  { eapply (forOf_invariant _ (fun t => Evolves c1 t)); [|apply Evolves_refl|done].
    intros x t t' _ Ht Hs. eapply Evolves_trans; [done|]. by eapply envProfile_step. }
  apply elem_of_cons in Hl as [->|Hl]; [|by eapply IH].
  rewrite Ho. pose proof (envProfile_step _ _ _ H1) as (Ho1 & _). rewrite Ho1.
  unfold envProfile in H1.
  destruct (objs c !! l0) as [o|] eqn:Hl0; simpl in H1; [|done].
  by eapply lookup_lt_Some.
Qed.


(** *** The loading loops of [refresh] *)



Lemma Grows_refl c : Grows c c.
Proof. unfold Grows. split_and!; eauto. Qed.

Lemma Grows_trans c1 c2 c3 : Grows c1 c2 -> Grows c2 c3 -> Grows c1 c3.
Proof.
  intros (Ha & He & Hl & Hn & Hu & Hp) (Ha' & He' & Hl' & Hn' & Hu' & Hp').
  unfold Grows. split_and!; try congruence; try lia.
  - intros l o H. destruct (Hn _ _ H) as (o2 & H2 & E1 & E2).
    destruct (Hn' _ _ H2) as (o3 & H3 & E1' & E2'). exists o3. split_and!; congruence.
  - intros l o H Hnin. apply Hu'; [by apply Hu|]. by rewrite Ha.
  - eauto.
Qed.

Lemma findProfile_Some c ps n t e :
  findProfile c ps n t = Some (Some e) ->
  e ∈ ps /\ exists o, objs c !! e = Some o /\ name o = n /\ type o = t.
Proof.
  induction ps as [|l ps IH]; simpl; [done|].
  destruct (objs c !! l) as [o|] eqn:Ho; simpl; [|done].
  destruct (bool_decide (name o = n) && bool_decide (type o = t)) eqn:Hb.
  - intros [= <-]. apply andb_true_iff in Hb as [H1%bool_decide_eq_true H2%bool_decide_eq_true].
    split; [left|eauto].
  - intros H. destruct (IH H) as [? ?]. split; [by right|done].
Qed.

Lemma refreshProfile_step info ty prof c tmp c' tmp' :
  refreshProfile info ty prof (c, tmp) = Some (c', tmp') ->
  Grows c c'
  /\ profilesByType c' = profilesByType c
  /\ defaultProfileByType c' =
       (if isDefaultProfile prof
        then map_set ty (length (objs c)) (defaultProfileByType c)
        else defaultProfileByType c)
  /\ objs c' !! length (objs c) =
       Some (getProfileLoaded (profName prof) (profType prof) (length (props c)))
  /\ props c' !! length (props c) = Some (getMergedAttrs info (Some prof))
  /\ exists l o, tmp' = tmp ++ [l] /\ objs c' !! l = Some o
                 /\ name o = profName prof /\ type o = profType prof.
Proof.
  unfold refreshProfile.
  set (fix_ := getProfileLoaded (profName prof) (profType prof) (length (props c))).
  set (ca := if isDefaultProfile prof then _ else _).
  assert (objs ca = objs c ++ [fix_]) as Hoa by (subst ca; by destruct (isDefaultProfile prof)).
  assert (props ca = props c ++ [getMergedAttrs info (Some prof)]) as Hpa
    by (subst ca; by destruct (isDefaultProfile prof)).
  assert (allProfiles ca = allProfiles c) as Haa by (subst ca; by destruct (isDefaultProfile prof)).
  assert (allExternalTypes ca = allExternalTypes c) as Hea
    by (subst ca; by destruct (isDefaultProfile prof)).
  assert (profilesByType ca = profilesByType c) as Hba
    by (subst ca; by destruct (isDefaultProfile prof)).
  assert (defaultProfileByType ca =
            if isDefaultProfile prof
            then map_set ty (length (objs c)) (defaultProfileByType c)
            else defaultProfileByType c) as Hda
    by (subst ca; by destruct (isDefaultProfile prof)).
  clearbody ca. rewrite Haa.
  destruct (findProfile ca (allProfiles c) (profName prof) (profType prof)) as [[e|]|] eqn:Hf;
    simpl; [| |done].
  - intros [= <- <-]. simpl.
    apply findProfile_Some in Hf as (He & oe & Hoe & Hn & Ht).
    assert (e < length (objs ca)) as Hlt by (by eapply lookup_lt_Some).
    split_and!; try done.
    + unfold Grows; simpl. split_and!; try done.
      * rewrite length_insert, Hoa, length_app. simpl; lia.
      * intros l o Hl. destruct (decide (e = l)) as [->|Hne].
        -- rewrite list_lookup_insert_eq by done. exists fix_. split; [done|].
           rewrite Hoa, lookup_app_l in Hoe by (by eapply lookup_lt_Some).
           assert (oe = o) as -> by congruence. done.
        -- rewrite list_lookup_insert_ne by done.
           rewrite Hoa, lookup_app_l by (by eapply lookup_lt_Some). eauto.
      * intros l o Hl Hnin. rewrite list_lookup_insert_ne by (intros ->; done).
        rewrite Hoa, lookup_app_l by (by eapply lookup_lt_Some). done.
      * intros i m Hi. rewrite Hpa, lookup_app_l by (by eapply lookup_lt_Some). done.
    + destruct (decide (e = length (objs c))) as [->|Hne].
      * by rewrite list_lookup_insert_eq.
      * rewrite list_lookup_insert_ne by done.
        rewrite Hoa. by rewrite list_lookup_middle.
    + rewrite Hpa. by rewrite list_lookup_middle.
    + exists e, fix_. split_and!; try done. by rewrite list_lookup_insert_eq.
  - intros [= <- <-].
    split_and!; try done.
    + unfold Grows. split_and!; try done.
      * rewrite Hoa, length_app. simpl; lia.
      * intros l o Hl. rewrite Hoa, lookup_app_l by (by eapply lookup_lt_Some). eauto.
      * intros l o Hl _. rewrite Hoa, lookup_app_l by (by eapply lookup_lt_Some). done.
      * intros i m Hi. rewrite Hpa, lookup_app_l by (by eapply lookup_lt_Some). done.
    + rewrite Hoa. by rewrite list_lookup_middle.
    + rewrite Hpa. by rewrite list_lookup_middle.
    + exists (length (objs c)), fix_. split_and!; try done.
      rewrite Hoa. by rewrite list_lookup_middle.
Qed.



Lemma lastDefault_snoc profs p :
  lastDefault (profs ++ [p]) = if isDefaultProfile p then Some p else lastDefault profs.
Proof.
  unfold lastDefault. rewrite filter_app, filter_cons, filter_nil.
  destruct (isDefaultProfile p) eqn:E.
  - rewrite decide_True by done. apply last_snoc.
  - rewrite decide_False by (by intros ?). by rewrite app_nil_r.
Qed.



Lemma Grows_length c c' : Grows c c' -> length (objs c) <= length (objs c').
Proof. by intros (_ & _ & H & _). Qed.

Lemma refreshType_inner info ty profs c c' tmp :
  forOf (refreshProfile info ty) profs (c, []) = Some (c', tmp) ->
  InnerInv info ty c profs (c', tmp).
Proof.
  apply forOf_invariant_prefix.
  - intros pre x post [c1 tmp1] [c2 tmp2] _ (HG & HB & HL & HT & HD & HS) Hstep.
    simpl in *.
    apply refreshProfile_step in Hstep
      as (HG' & HB' & HD' & Hol & Hil & (l & o & -> & Hl & Hn & Hty)).
    unfold InnerInv; simpl. split_and!.
    + by eapply Grows_trans.
    + congruence.
    + rewrite !length_app. simpl. lia.
    + intros l' [Hl'| ->%list_elem_of_singleton]%elem_of_app.
      * destruct (HT _ Hl') as (o' & p & Hp & Ho' & E1 & E2).
        destruct HG' as (_ & _ & _ & Hpres & _).
        destruct (Hpres _ _ Ho') as (o2 & Ho2 & E1' & E2').
        exists o2, p. split_and!; [apply elem_of_app; by left|done|congruence..].
      * exists o, x. split_and!; try done. apply elem_of_app; right. by left.
    + intros ty' Hne. rewrite HD'. destruct (isDefaultProfile x); [|by apply HD].
      rewrite map_get_set_ne by done. by apply HD.
    + intros HV p. rewrite lastDefault_snoc.
      pose proof (Grows_length _ _ HG) as Hlen.
      destruct (isDefaultProfile x) eqn:Hx.
      * intros [= <-]. exists (length (objs c1)), (length (props c1)).
        split_and!; try done. rewrite HD'. apply map_get_set_eq.
      * intros Hp. destruct (HS HV _ Hp) as (ol & il & Hget & Hge & Hobj & Hprop).
        exists ol, il. split_and!; try done.
        -- congruence.
        -- destruct HG' as (_ & _ & _ & _ & Hkeep & _). apply Hkeep; [done|].
           destruct HG as (-> & _). intros Hin%HV. lia.
        -- destruct HG' as (_ & _ & _ & _ & _ & Hkeep). by apply Hkeep.
  - unfold InnerInv; simpl. split_and!; try done.
    + apply Grows_refl.
    + intros l H; inversion H.
Qed.




Lemma ValidProfiles_Grows c c' : Grows c c' -> ValidProfiles c -> ValidProfiles c'.
Proof.
  intros (Ha & _ & Hl & _) HV l. rewrite Ha. intros Hin%HV. lia.
Qed.

Lemma DefaultStored_Grows info c1 c c' ty p :
  ValidProfiles c1 -> Grows c1 c -> Grows c c' ->
  map_get ty (defaultProfileByType c') = map_get ty (defaultProfileByType c) ->
  DefaultStored info c1 c ty p -> DefaultStored info c1 c' ty p.
Proof.
  intros HV HG1 HG Hget (ol & il & Hd & Hge & Ho & Hp).
  exists ol, il. split_and!; try done; [congruence| |].
  - destruct HG as (_ & _ & _ & _ & Hkeep & _). apply Hkeep; [done|].
    destruct HG1 as (-> & _). intros Hin%HV. lia.
  - destruct HG as (_ & _ & _ & _ & _ & Hkeep). by apply Hkeep.
Qed.

Lemma refreshType_step info c1 pre ty c all c' all' :
  TypedProfiles info -> ty ∉ pre ->
  OuterInv info c1 pre (c, all) ->
  refreshType info ty (c, all) = Some (c', all') ->
  OuterInv info c1 (pre ++ [ty]) (c', all').
Proof.
  intros Htyped Hfresh (HG & HJ & HK1 & HK2 & HN & HD). simpl in *.
  unfold refreshType. fold (profilesForType info ty).
  destruct (profilesForType info ty) as [|p0 profs] eqn:Hprofs.
  - intros [= <- <-]. unfold OuterInv; simpl. split_and!; try done.
    + intros l Hl. destruct (HJ _ Hl) as (o & ls & Ho & Hin & Hget & Hlin & Hsub).
      exists o, ls. split_and!; try done. apply elem_of_app; by left.
    + intros ty' [Hin| ->%list_elem_of_singleton]%elem_of_app; [by apply HN|].
      by rewrite Hprofs.
    + intros HV ty' p [Hin| ->%list_elem_of_singleton]%elem_of_app; [by apply HD|].
      rewrite Hprofs. done.
  - destruct (forOf (refreshProfile info ty) (p0 :: profs) (c, [])) as [[c2 tmp]|] eqn:Hin;
      simpl; [|done].
    intros [= <- <-].
    apply refreshType_inner in Hin as (HG2 & HB2 & HL2 & HT2 & HD2 & HS2). simpl in *.
    assert (forall l, l ∈ tmp -> exists o, objs c2 !! l = Some o /\ type o = ty) as Htmp.
    { intros l Hl. destruct (HT2 _ Hl) as (o & p & Hp & Ho & _ & Et).
      exists o. split; [done|]. rewrite Et. apply (Htyped ty).
      rewrite <- Hprofs in Hp. unfold profilesForType in Hp.
      by apply list_elem_of_filter in Hp as [_ Hp]. }
    unfold OuterInv; simpl. split_and!.
    + by eapply Grows_trans.
    + intros l [Hl|Hl]%elem_of_app.
      * destruct (HJ _ Hl) as (o & ls & Ho & Hpre & Hget & Hlin & Hsub).
        destruct HG2 as (_ & _ & _ & Hpres & _).
        destruct (Hpres _ _ Ho) as (o2 & Ho2 & _ & Et).
        exists o2, ls. rewrite Et. split_and!; try done.
        -- apply elem_of_app; by left.
        -- rewrite map_get_set_ne; [congruence|]. intros E. by rewrite E in Hpre.
        -- intros x Hx. apply elem_of_app; left. by apply Hsub.
      * destruct (Htmp _ Hl) as (o & Ho & Et).
        exists o, tmp. rewrite Et. split_and!; try done.
        -- apply elem_of_app; right. by left.
        -- apply map_get_set_eq.
        -- intros x Hx. apply elem_of_app; by right.
    + intros ty' H. destruct (decide (ty' = ty)) as [->|Hne].
      * rewrite map_get_set_eq. eauto.
      * rewrite map_get_set_ne by done. rewrite HB2. by apply HK1.
    + intros ty' H. destruct (decide (ty' = ty)) as [->|Hne].
      * right. rewrite map_get_set_eq. eauto.
      * rewrite map_get_set_ne by done. rewrite HB2.
        rewrite HD2 in H by done. by apply HK2.
    + intros ty' [Hin| ->%list_elem_of_singleton]%elem_of_app Hne.
      * destruct (HN _ Hin Hne) as (l & o & Hl & Ho & Et).
        destruct HG2 as (_ & _ & _ & Hpres & _).
        destruct (Hpres _ _ Ho) as (o2 & Ho2 & _ & Et2).
        exists l, o2. split_and!; [apply elem_of_app; by left|done|congruence].
      * destruct tmp as [|l tmp]; [done|].
        destruct (Htmp l) as (o & Ho & Et); [left|].
        exists l, o. split_and!; try done. apply elem_of_app; right; left.
    + intros HV ty' p [Hin| ->%list_elem_of_singleton]%elem_of_app Hlast.
      * apply (DefaultStored_Grows info c1 c); try done.
        -- simpl. apply HD2. intros ->. done.
        -- by apply HD.
      * rewrite Hprofs in Hlast.
        destruct (HS2 (ValidProfiles_Grows _ _ HG HV) _ Hlast) as (ol & il & H1 & H2 & H3 & H4).
        exists ol, il. split_and!; try done.
        pose proof (Grows_length _ _ HG). lia.
Qed.

Lemma refreshType_loop info tys c1 c2 all :
  TypedProfiles info -> NoDup tys ->
  forOf (refreshType info) tys (c1, []) = Some (c2, all) ->
  OuterInv info c1 tys (c2, all).
Proof.
  intros Htyped Hnd. apply forOf_invariant_prefix.
  - intros pre x post [c a] [c' a'] -> Hinv Hstep.
    eapply refreshType_step; try done.
    apply NoDup_app in Hnd as (_ & Hdisj & _). intros Hx. apply (Hdisj _ Hx). left.
  - unfold OuterInv; simpl. split_and!; try done.
    + apply Grows_refl.
    + intros l H; inversion H.
    + auto.
    + intros ty H; inversion H.
    + intros _ ty p H; inversion H.
Qed.


(** *** The removal of the old types *)


Lemma someOfType_spec c ps ty b :
  someOfType c ps ty = Some b -> (b = true <-> HasProfileOfType c ps ty).
Proof.
  unfold HasProfileOfType. revert b. induction ps as [|l ps IH]; intros b; simpl.
  - intros [= <-]. split; [done|]. intros (l & o & H & _). inversion H.
  - destruct (objs c !! l) as [o|] eqn:Ho; simpl; [|done].
    destruct (bool_decide (type o = ty)) eqn:Hb.
    + intros [= <-]. apply bool_decide_eq_true in Hb. split; [|done].
      intros _. exists l, o. split_and!; [left|done..].
    + apply bool_decide_eq_false in Hb. intros H. rewrite (IH _ H). split.
      * intros (l' & o' & Hl & Ho' & Et). exists l', o'. split_and!; [by right|done..].
      * intros (l' & o' & [->|Hl]%elem_of_cons & Ho' & Et); [congruence|eauto].
Qed.

Lemma oldTypes_spec c all keys old :
  oldTypes c all keys = Some old ->
  forall ty,
    (ty ∈ old -> ty ∈ keys /\ ~ HasProfileOfType c all ty)
    /\ (ty ∈ keys -> ty ∉ old -> HasProfileOfType c all ty).
Proof.
  revert old. induction keys as [|k keys IH]; intros old; simpl.
  - intros [= <-] ty. split; [intros H; inversion H|intros H; inversion H].
  - destruct (someOfType c all k) as [b|] eqn:Hb; simpl; [|done].
    destruct (oldTypes c all keys) as [rest|] eqn:Hrest; simpl; [|done].
    intros [= <-] ty. destruct (IH _ eq_refl ty) as [IH1 IH2].
    apply someOfType_spec in Hb. destruct b.
    + split.
      * intros H. destruct (IH1 H). split; [by right|done].
      * intros [->|Hk]%elem_of_cons Hn; [by apply Hb|by apply IH2].
    + split.
      * intros [->|H]%elem_of_cons.
        -- split; [left|]. intros H. apply Hb in H. done.
        -- destruct (IH1 H). split; [by right|done].
      * intros [->|Hk]%elem_of_cons Hn.
        -- exfalso. apply Hn. left.
        -- apply IH2; [done|]. intros H. apply Hn. by right.
Qed.

Lemma deleteType_loop old c c' :
  forOf deleteType old c = Some c' ->
  objs c' = objs c /\ props c' = props c /\ allProfiles c' = allProfiles c
  /\ allTypes c' = allTypes c
  /\ (forall ty, map_get ty (profilesByType c') =
                 if decide (ty ∈ old) then None else map_get ty (profilesByType c))
  /\ (forall ty, map_get ty (defaultProfileByType c') =
                 if decide (ty ∈ old) then None else map_get ty (defaultProfileByType c)).
Proof.
  revert c. induction old as [|k old IH]; intros c; simpl.
  - intros [= <-]. split_and!; try done.
  - intros H. destruct (IH _ H) as (Ho & Hp & Ha & Ht & Hb & Hd). simpl in *.
    split_and!; try done.
    + intros ty. rewrite Hb. destruct (decide (ty ∈ old)) as [Hin|Hnin].
      * rewrite decide_True; [done|by right].
      * destruct (decide (ty = k)) as [->|Hne].
        -- rewrite decide_True by left. apply map_get_delete_eq.
        -- rewrite decide_False. { by apply map_get_delete_ne. }
           intros [?|?]%elem_of_cons; done.
    + intros ty. rewrite Hd. destruct (decide (ty ∈ old)) as [Hin|Hnin].
      * rewrite decide_True; [done|by right].
      * destruct (decide (ty = k)) as [->|Hne].
        -- rewrite decide_True by left. apply map_get_delete_eq.
        -- rewrite decide_False. { by apply map_get_delete_ne. }
           intros [?|?]%elem_of_cons; done.
Qed.



Lemma refreshTypes_NoDup c reg : NoDup (refreshTypes c reg).
Proof. unfold refreshTypes. apply set_add_NoDup, set_add_NoDup, set_of_NoDup. Qed.


Lemma refreshLoad_spec info reg c0 cL :
  TypedProfiles info ->
  refreshLoad env info reg c0 = Some cL ->
  allTypes cL = refreshTypes c0 reg
  /\ (forall l, l ∈ allProfiles cL ->
        exists o ls, objs cL !! l = Some o
                     /\ map_get (type o) (profilesByType cL) = Some ls /\ l ∈ ls)
  /\ (forall ty ls, map_get ty (profilesByType cL) = Some ls ->
        (forall x, x ∈ ls -> x ∈ allProfiles cL)
        /\ HasProfileOfType cL (allProfiles cL) ty)
  /\ (Linked c0 -> Linked cL)
  /\ (forall ty p, ty ∈ refreshTypes c0 reg ->
        lastDefault (profilesForType info ty) = Some p -> LoadedDefault info cL ty p).
Proof.
  intros Htyped. unfold refreshLoad, getProfileInfo.
  destruct (checkForEnvVarAndUpdate env c0) as [c1|] eqn:H1; simpl; [|done].
  pose proof (checkForEnvVarAndUpdate_Evolves _ _ H1) as Hev.
  assert (ValidProfiles c1) as HV.
  { intros l Hl. destruct Hev as (_ & Ha & _). rewrite Ha in Hl.
    by eapply checkForEnvVarAndUpdate_valid. }
  assert (getAllProfileTypes c1 reg = getAllProfileTypes c0 reg) as ->.
  { unfold getAllProfileTypes. destruct Hev as (_ & _ & _ & -> & _). done. }
  fold (refreshTypes c0 reg).
  destruct (forOf (refreshType info) (refreshTypes c0 reg) (c1, [])) as [[c2 all]|] eqn:H2;
    simpl; [|done].
  apply refreshType_loop in H2 as (HG & HJ & HK1 & HK2 & HN & HD);
    [|done|apply refreshTypes_NoDup]. simpl in *.
  destruct (oldTypes _ all _) as [old|] eqn:H3; simpl; [|done].
  pose proof (oldTypes_spec _ _ _ _ H3) as Hold. simpl in Hold.
  intros (Ho & Hp & Ha & Ht & Hb & Hd)%deleteType_loop. simpl in *.
  assert (forall ty, HasProfileOfType c2 all ty -> ty ∉ old) as Hkeep.
  { intros ty Hhas Hin. destruct (Hold ty) as [Hold1 _].
    destruct (Hold1 Hin) as [_ Hno]. apply Hno.
    destruct Hhas as (l & o & ? & ? & ?). by exists l, o. }
  assert (forall ty, HasProfileOfType cL (allProfiles cL) ty <-> HasProfileOfType c2 all ty)
    as Hsame.
  { intros ty. unfold HasProfileOfType. rewrite Ho, Ha. done. }
  split_and!.
  - done.
  - rewrite Ha, Ho. intros l Hl.
    destruct (HJ _ Hl) as (o & ls & Hol & _ & Hget & Hin & _).
    exists o, ls. split_and!; try done.
    rewrite Hb, decide_False; [done|]. apply Hkeep. by exists l, o.
  - intros ty ls. rewrite Hb. destruct (decide (ty ∈ old)) as [|Hnin]; [done|].
    intros Hget.
    assert (HasProfileOfType c2 all ty) as Hhas.
    { destruct (Hold ty) as [_ Hold2].
      destruct Hold2 as (l & o & ? & ? & ?); [|done|by exists l, o].
      apply map_get_keys. eauto. }
    split; [|by apply Hsame].
    rewrite Ha. destruct Hhas as (l & o & Hl & Hol & Et).
    destruct (HJ _ Hl) as (o' & ls' & Hol' & _ & Hget' & _ & Hsub).
    assert (o' = o) as -> by congruence. rewrite Et in Hget'.
    assert (ls' = ls) as -> by congruence. done.
  - intros Hlinked ty. rewrite Hb, Hd.
    destruct (decide (ty ∈ old)) as [|Hnin]; [by intros [? ?]|].
    intros [H|H]%HK2; [|done]. apply HK1.
    destruct Hev as (_ & _ & _ & _ & Eb & Ed & _). rewrite Eb. apply Hlinked.
    by rewrite <- Ed.
  - intros ty p Hty Hlast.
    destruct (HD HV _ _ Hty Hlast) as (ol & il & Hget & _ & Hobj & Hprop).
    exists ol, il. rewrite Ho, Hp. split_and!; try done.
    rewrite Hd, decide_False; [done|]. apply Hkeep, HN; [done|].
    intros E. rewrite E in Hlast. done.
Qed.


(** *** [refresh] as a whole *)

Lemma refresh_phases info reg c0 c' :
  refresh TOKEN_TYPE_APIML env info reg c0 = Some c' ->
  exists cL cB cC,
    refreshLoad env info reg c0 = Some cL
    /\ checkMergingConfigAllProfiles TOKEN_TYPE_APIML cL = Some cB
    /\ checkForEnvVarAndUpdate env cB = Some cC
    /\ c' = set_profilesForValidation [] cC.
Proof.
  unfold refresh.
  destruct (refreshLoad env info reg c0) as [cL|]; simpl; [|done].
  destruct (checkMergingConfigAllProfiles TOKEN_TYPE_APIML cL) as [cB|] eqn:HB; simpl; [|done].
  destruct (checkForEnvVarAndUpdate env cB) as [cC|] eqn:HC; simpl; [|done].
  intros [= <-]. by exists cL, cB, cC.
Qed.

Lemma Evolves_reset c : Evolves c (set_profilesForValidation [] c).
Proof.
  unfold Evolves; simpl. split_and!; try done. intros i m H. eauto using Rewritten_refl.
Qed.

Lemma refresh_Evolves info reg c0 c' cL :
  refresh TOKEN_TYPE_APIML env info reg c0 = Some c' ->
  refreshLoad env info reg c0 = Some cL ->
  Evolves cL c' /\ profilesForValidation c' = [].
Proof.
  intros (cL' & cB & cC & HL & HB & HC & ->)%refresh_phases HL'.
  assert (cL' = cL) as -> by congruence.
  split; [|done].
  eapply Evolves_trans; [by eapply checkAll_spec|].
  eapply Evolves_trans; [by eapply checkForEnvVarAndUpdate_Evolves|].
  apply Evolves_reset.
Qed.


Lemma lastDefault_elem profs p :
  lastDefault profs = Some p -> p ∈ profs /\ isDefaultProfile p = true.
Proof.
  unfold lastDefault. intros H%last_Some_elem_of. by apply list_elem_of_filter in H as [? ?].
Qed.

Lemma lastDefault_only profs p :
  p ∈ profs -> isDefaultProfile p = true ->
  (forall q, q ∈ profs -> isDefaultProfile q = true -> q = p) ->
  lastDefault profs = Some p.
Proof.
  intros Hin Hp Honly. unfold lastDefault.
  assert (p ∈ filter (fun p => isDefaultProfile p = true) profs) as Hf
    by (by apply list_elem_of_filter).
  destruct (last (filter (fun p => isDefaultProfile p = true) profs)) as [q|] eqn:Hlast.
  - f_equal. apply last_Some_elem_of in Hlast.
    apply list_elem_of_filter in Hlast as [? ?]. by apply Honly.
  - apply last_None in Hlast. rewrite Hlast in Hf. inversion Hf.
Qed.



Lemma refresh_Linked info reg c0 c' :
  TypedProfiles info -> Linked c0 ->
  refresh TOKEN_TYPE_APIML env info reg c0 = Some c' -> Linked c'.
Proof.
  intros Htyped Hlinked Hrun.
  pose proof Hrun as (cL & cB & cC & HL & _)%refresh_phases.
  destruct (refresh_Evolves _ _ _ _ _ Hrun HL) as [(_ & _ & _ & _ & Eb & Ed & _) _].
  destruct (refreshLoad_spec _ _ _ _ Htyped HL) as (_ & _ & _ & Hlk & _).
  intros ty. rewrite Eb, Ed. by apply Hlk.
Qed.

(** The hypothesis [Linked] of the consistency theorem holds of every
    cache that the modelled methods lead to. *)
Lemma Reachable_Linked c : Reachable TOKEN_TYPE_APIML env c -> Linked c.
Proof.
  induction 1 as [|c t _ IH|c c' info reg _ IH Htyped Hrun].
  - intros ty [x H]. discriminate.
  - exact IH.
  - by eapply refresh_Linked.
Qed.



End Facts.

(** *** Profile names, merged attributes, lookups and URLs *)

Lemma prefix_dot a s : String.prefix "." (String a s) = Ascii.eqb a ".".
Proof.
  change (String.prefix "." (String a s))
    with (if ascii_dec "." a then String.prefix "" s else false).
  destruct (ascii_dec "." a) as [<-|Hne]; [by destruct s|].
  symmetry. apply Ascii.eqb_neq. congruence.
Qed.

Lemma dotPrefixes_length s : length (dotPrefixes s) <= String.length s.
Proof.
  induction s as [|a s IH]; simpl; [lia|].
  destruct (Ascii.eqb a "."); simpl; rewrite length_fmap; lia.
Qed.

(** Where the last period of a string is, and what it cuts off. *)
Lemma lastIndexOf_dot s :
  (lastIndexOf "." s = (-1)%Z /\ includes "." s = false /\ dotPrefixes s = [])
  \/ (exists i, lastIndexOf "." s = Z.of_nat i /\ i < String.length s
                /\ includes "." s = true
                /\ dotPrefixes s = dotPrefixes (substring 0 i s) ++ [substring 0 i s]).
Proof.
  induction s as [|a s IH]; [left; done|].
  cbn [lastIndexOf includes dotPrefixes]. rewrite prefix_dot.
  destruct IH as [(Hl & Hi & Hd)|(i & Hl & Hlt & Hi & Hd)].
  - rewrite Hl, Hi, Hd. simpl (0 <=? -1)%Z. cbn iota.
    destruct (Ascii.eqb a ".") eqn:Ha.
    + right. exists 0. simpl. split_and!; try done; lia.
    + left. done.
  - right. exists (S i). rewrite Hl, Hi, orb_true_r.
    assert ((0 <=? Z.of_nat i)%Z = true) as -> by (apply Z.leb_le; lia).
    split_and!; try done; [lia|simpl; lia|].
    simpl substring. cbn [dotPrefixes]. rewrite Hd, fmap_app. simpl.
    destruct (Ascii.eqb a "."); done.
Qed.

Lemma slice0_nat s i : i <= String.length s -> slice0 s (Z.of_nat i) = substring 0 i s.
Proof.
  intros Hle. unfold slice0.
  assert ((Z.of_nat i <? 0)%Z = false) as -> by (apply Z.ltb_ge; lia).
  by rewrite Z.min_l, Nat2Z.id by lia.
Qed.

Section Parent.
Variable config : Config.

Lemma parent_loop fuel parent temp :
  length (dotPrefixes temp) <= fuel ->
  getParentProfileForToken_loop fuel config (secureFields config) parent temp
  = Some (match List.find (hasSecureToken config) (ancestors temp) with
          | Some a => a
          | None => parent
          end).
Proof.
  revert temp. induction fuel as [|fuel IH]; intros temp Hlen.
  - destruct (lastIndexOf_dot temp) as [(_ & Hi & Hd)|(i & _ & _ & _ & Hd)].
    + simpl. unfold ancestors. by rewrite Hi, Hd.
    + rewrite Hd, length_app in Hlen. simpl in Hlen. lia.
  - destruct (lastIndexOf_dot temp) as [(_ & Hi & Hd)|(i & Hl & Hlt & Hi & Hd)].
    + simpl. unfold ancestors. by rewrite Hi, Hd.
    + cbn [getParentProfileForToken_loop]. rewrite Hi, Hl, slice0_nat by lia.
      unfold ancestors at 1. rewrite Hd, rev_app_distr. simpl.
      fold (hasSecureToken config (substring 0 i temp)).
      destruct (hasSecureToken config (substring 0 i temp)); [done|].
      rewrite IH; [done|]. rewrite Hd, length_app in Hlen. simpl in Hlen. lia.
Qed.

Lemma getParentProfileForToken_nested profileName :
  includes "." profileName = true ->
  getParentProfileForToken profileName config = Some (tokenParent config profileName).
Proof.
  intros Hinc. unfold getParentProfileForToken, tokenParent.
  rewrite parent_loop by apply dotPrefixes_length.
  destruct (lastIndexOf_dot profileName) as [(_ & Hi & _)|(i & Hl & Hlt & _ & Hd)];
    [congruence|].
  rewrite Hl, slice0_nat by lia.
  unfold ancestors. rewrite Hd, rev_app_distr. done.
Qed.
End Parent.

Lemma NoDup_fmap_eq {A B} (f : A -> B) (l : list A) x y :
  NoDup (f <$> l) -> x ∈ l -> y ∈ l -> f x = f y -> x = y.
Proof.
  induction l as [|a l IH]; simpl; [intros _ H; inversion H|].
  intros [Hnin Hnd]%NoDup_cons [->|Hx]%elem_of_cons [->|Hy]%elem_of_cons Heq; try done.
  - exfalso. apply Hnin. rewrite Heq. by apply list_elem_of_fmap_2.
  - exfalso. apply Hnin. rewrite <- Heq. by apply list_elem_of_fmap_2.
  - by apply IH.
Qed.

Lemma find_split {A} (P : A -> bool) (l : list A) :
  match List.find P l with
  | Some a => exists l1 l2, l = l1 ++ a :: l2 /\ P a = true /\ Forall (fun x => P x = false) l1
  | None => Forall (fun x => P x = false) l
  end.
Proof.
  induction l as [|x l IH]; simpl; [by constructor|].
  destruct (P x) eqn:Hx.
  - exists [], l. split_and!; done.
  - destruct (List.find P l) as [a|].
    + destruct IH as (l1 & l2 & -> & Ha & Hall). exists (x :: l1), l2.
      split_and!; try done. by constructor.
    + by constructor.
Qed.

(** C2: [fetchBaseProfile] first awaits [getProfileInfo], and rejects with
    its TypeError exactly when that throws. When [getProfileInfo] completes:
    for a profile name with a period, when there is no default base profile
    or its secure properties lack tokenValue, [fetchBaseProfile] returns a
    profile of type "base" named after the deepest ancestor of the name
    whose tokenValue is among the secure fields, or after the immediate
    parent when no ancestor has one, with the properties that the
    configuration holds for that name; otherwise it returns the default base
    profile of the library with its merged properties, and undefined when
    there is no default base profile and the name has no period. *)
Theorem fetchBaseProfile_spec (env : string -> JsVal) (info : ProfileInfo)
    (profileName : option string) (c : Cache) :
  (fetchBaseProfile env info profileName c = None <-> getProfileInfo env c = None)
  /\ forall c1, getProfileInfo env c = Some c1 ->
     (forall n, profileName = Some n -> includes "." n = true -> ~ baseHoldsToken info ->
        (exists r, fetchBaseProfile env info profileName c = Some (c1, Some r)
                   /\ type r = "base"
                   /\ name r = tokenParent (getTeamConfig info) n
                   /\ profile r = profiles_get (getTeamConfig info)
                                               (tokenParent (getTeamConfig info) n)
                   /\ message r = "" /\ failNotFound r = false)
        /\ exists deeper shallower,
             ancestors n = deeper ++ tokenParent (getTeamConfig info) n :: shallower
             /\ Forall (fun a => hasSecureToken (getTeamConfig info) a = false) deeper
             /\ (hasSecureToken (getTeamConfig info) (tokenParent (getTeamConfig info) n) = true
                 \/ (deeper = []
                     /\ Forall (fun a => hasSecureToken (getTeamConfig info) a = false)
                               (ancestors n))))
     /\ (forall b, getDefaultProfile_info info "base" = Some b ->
           ((exists n, profileName = Some n /\ includes "." n = true) -> baseHoldsToken info) ->
           exists r, fetchBaseProfile env info profileName c = Some (c1, Some r)
                     /\ name r = profName b /\ type r = profType b
                     /\ MergedFrom info b (profile r)
                     /\ message r = "" /\ failNotFound r = false)
     /\ (getDefaultProfile_info info "base" = None ->
         (forall n, profileName = Some n -> includes "." n = false) ->
         fetchBaseProfile env info profileName c = Some (c1, None)).
Proof.
  split.
  - unfold fetchBaseProfile.
    destruct (getProfileInfo env c) as [c1|]; simpl; [|done].
    split; [|done]. intros H. exfalso.
    destruct profileName as [n|]; simpl in H.
    + destruct (includes "." n) eqn:Hinc; simpl in H.
      * rewrite getParentProfileForToken_nested in H by done.
        destruct (getDefaultProfile_info info "base") as [b|]; simpl in H; [|done].
        by destruct (negb _).
      * by destruct (getDefaultProfile_info info "base").
    + by destruct (getDefaultProfile_info info "base").
  - intros c1 Hc1. split_and!.
    + intros n -> Hinc Hno. split.
      * unfold fetchBaseProfile. rewrite Hc1, Hinc. simpl.
        assert (match getDefaultProfile_info info "base" with
                | Some b => negb (bool_decide
                                    ("tokenValue" ∈ securePropsForProfile (getTeamConfig info)
                                                      (profName b)))
                | None => true
                end = true) as ->.
        { destruct (getDefaultProfile_info info "base") as [b|] eqn:Hb; [|done].
          apply negb_true_iff, bool_decide_eq_false. intros Hin. apply Hno. by exists b. }
        simpl. rewrite getParentProfileForToken_nested by done. simpl.
        eexists. split; [done|]. done.
      * unfold tokenParent.
        pose proof (find_split (hasSecureToken (getTeamConfig info)) (ancestors n)) as Hf.
        destruct (List.find _ (ancestors n)) as [a|].
        -- destruct Hf as (l1 & l2 & Heq & Ha & Hall). exists l1, l2. auto.
        -- destruct (lastIndexOf_dot n) as [(_ & Hi & _)|(i & _ & _ & _ & Hd)]; [congruence|].
           unfold ancestors in *. rewrite Hd, rev_app_distr in *. simpl in *.
           exists [], (rev (dotPrefixes (substring 0 i n))). split_and!; auto.
    + intros b Hb Hother. unfold fetchBaseProfile. rewrite Hc1, Hb. simpl.
      destruct (_ && _) eqn:Hcond.
      * apply andb_true_iff in Hcond as [Hn Ht].
        destruct profileName as [n|]; [|done].
        destruct Hother as (b' & Hb' & Hin); [by exists n|].
        assert (b' = b) as -> by congruence.
        apply negb_true_iff, bool_decide_eq_false in Ht. done.
      * eexists. split; [done|]. simpl. split_and!; try done.
        apply getMergedAttrs_MergedFrom.
    + intros Hb Hn. unfold fetchBaseProfile. rewrite Hc1, Hb. simpl.
      destruct profileName as [n|]; [|done]. by rewrite (Hn n eq_refl).
Qed.

(** C5: [getMergedAttrs(mProfileInfo, profAttrs)] is the empty object when
    [profAttrs] is null; otherwise the properties of the object it returns
    are those of the known arguments of [mergeArgsForProfile] (secure
    values retrieved), but for an argument named "__proto__", which the
    assignment does not store: any other name reads as the value of the
    last argument so named, so that, the names being distinct, each
    argument's name maps to its value. *)
Theorem getMergedAttrs_spec (info : ProfileInfo) (pa : IProfAttrs) :
  getMergedAttrs info None = ∅
  /\ (forall k, k ≠ "__proto__" ->
        getMergedAttrs info (Some pa) !! k
        = argValue <$> last (filter (fun a => argName a = k)
                                    (mergeArgsForProfile info pa true)))
  /\ getMergedAttrs info (Some pa) !! "__proto__" = None
  /\ (NoDup (argName <$> mergeArgsForProfile info pa true) ->
      forall arg, arg ∈ mergeArgsForProfile info pa true ->
                  argName arg ≠ "__proto__" ->
                  getMergedAttrs info (Some pa) !! argName arg = Some (argValue arg)).
Proof.
  destruct (getMergedAttrs_MergedFrom info pa) as [Hproto Hlast].
  split_and!; [done|done|done|].
  intros Hnd arg Hin Hne. rewrite Hlast by done.
  destruct (last _) as [x|] eqn:Hx.
  - apply last_Some_elem_of, list_elem_of_filter in Hx as [Hname Hxin].
    simpl. f_equal. f_equal. by eapply NoDup_fmap_eq.
  - apply last_None in Hx.
    assert (arg ∈ filter (fun a => argName a = argName arg) (mergeArgsForProfile info pa true))
      as H by (by apply list_elem_of_filter).
    rewrite Hx in H. inversion H.
Qed.

Lemma loadNamedProfile_cond c n t l o :
  objs c !! l = Some o ->
  bool_decide (name o = n) && (noType t || bool_decide (Some (type o) = t)) = true
  <-> Wanted c n t l.
Proof.
  intros Ho. unfold Wanted. rewrite andb_true_iff, orb_true_iff, !bool_decide_eq_true. split.
  - intros [Hn Ht]. exists o. split_and!; try done.
    intros s -> Hs. destruct Ht as [Ht|[= ->]]; [|done].
    simpl in Ht. by apply String.eqb_eq in Ht.
  - intros (o' & Ho' & Hn & Ht). assert (o' = o) as -> by congruence.
    split; [done|]. destruct t as [s|]; [|by left].
    destruct (decide (s = "")) as [->|Hs]; [by left|].
    right. by rewrite (Ht s).
Qed.

Lemma loadNamedProfile_loop_spec c ps n t :
  (forall l, l ∈ ps -> l < length (objs c)) ->
  (forall i l, ps !! i = Some l -> Wanted c n t l ->
     (forall j l', j < i -> ps !! j = Some l' -> ~ Wanted c n t l') ->
     loadNamedProfile_loop c ps n t = Some (Some l))
  /\ ((forall l, l ∈ ps -> ~ Wanted c n t l) -> loadNamedProfile_loop c ps n t = Some None).
Proof.
  induction ps as [|l0 ps IH]; intros Hvalid.
  - split; [intros i l H; inversion H|done].
  - destruct (lookup_lt_is_Some_2 (objs c) l0) as [o Ho]; [apply Hvalid; left|].
    destruct IH as [IH1 IH2]; [intros l Hl; apply Hvalid; by right|].
    pose proof (loadNamedProfile_cond c n t l0 o Ho) as Hcond.
    simpl. rewrite Ho. simpl. split.
    + intros [|i] l Hi Hw Hfirst.
      * injection Hi as <-. apply Hcond in Hw. by rewrite Hw.
      * destruct (_ && _) eqn:Hb.
        { exfalso. apply (Hfirst 0 l0); [lia|done|by apply Hcond]. }
        apply (IH1 i); try done.
        intros j l' Hj Hl'. apply (Hfirst (S j)); [lia|done].
    + intros Hnone. destruct (_ && _) eqn:Hb.
      * exfalso. apply (Hnone l0); [left|by apply Hcond].
      * apply IH2. intros l Hl. apply Hnone. by right.
Qed.

(** C6: [loadNamedProfile(name, type, optional)] returns the first profile
    of [allProfiles] with that name and, when a type is given, that type;
    when there is none it throws an Error naming the profile, unless
    [optional] is true, in which case it returns undefined. Every slot of
    [allProfiles] is taken to hold an object. *)
Theorem loadNamedProfile_spec (c : Cache) (n : string) (t : option string)
    (optional : option bool) :
  ValidProfiles c ->
  (forall i l, allProfiles c !! i = Some l -> Wanted c n t l ->
     (forall j l', j < i -> allProfiles c !! j = Some l' -> ~ Wanted c n t l') ->
     loadNamedProfile c n t optional = Some (Returned (Some l)))
  /\ ((forall l, l ∈ allProfiles c -> ~ Wanted c n t l) ->
      loadNamedProfile c n t optional
      = Some (if default false optional then Returned None
              else Threw ("Zowe Explorer Profiles Cache error: Could not find profile named: "
                            +:+ n +:+ "."))).
Proof.
  intros Hvalid. destruct (loadNamedProfile_loop_spec c (allProfiles c) n t Hvalid) as [H1 H2].
  unfold loadNamedProfile. split.
  - intros i l Hi Hw Hfirst. by rewrite (H1 i l).
  - intros Hnone. rewrite (H2 Hnone). simpl. by destruct (default false optional).
Qed.

Lemma substring_app_prefix p q : substring 0 (String.length p) (p +:+ q) = p.
Proof. induction p as [|a p IH]; simpl; [by destruct q|by rewrite IH]. Qed.

Lemma length_app_string p q : String.length (p +:+ q) = String.length p + String.length q.
Proof. induction p as [|a p IH]; simpl; [done|by rewrite IH]. Qed.

Lemma slice0_drop_last p a : slice0 (p +:+ String a "") (-1) = p.
Proof.
  unfold slice0. rewrite length_app_string. simpl String.length.
  change (-1 <? 0)%Z with true. cbn iota.
  replace (Z.to_nat (Z.max (Z.of_nat (String.length p + 1) + -1) 0)) with (String.length p) by lia.
  apply substring_app_prefix.
Qed.

(** C8: [validateAndParseUrl] never throws; it returns
    [{ valid: false, protocol: null, host: null, port: null }] exactly when
    the string does not parse as a URL; for a URL it returns [valid: true],
    the URL's protocol without its last character (the colon), its
    hostname, and the port 443 when the string contains ":443" and
    [Number(url.port)] otherwise. *)
Theorem validateAndParseUrl_spec (URL_new : string -> Outcome URL)
    (Number_ : string -> JsVal) (newUrl : string) :
  (exists r, validateAndParseUrl URL_new Number_ newUrl = Returned r)
  /\ (validateAndParseUrl URL_new Number_ newUrl
        = Returned (mkValidationUrl false VNull VNull VNull)
      <-> exists msg, URL_new newUrl = Threw msg)
  /\ (forall url, URL_new newUrl = Returned url ->
        validateAndParseUrl URL_new Number_ newUrl
        = Returned (mkValidationUrl true
                      (VStr (slice0 (url_protocol url) (-1)))
                      (VStr (url_hostname url))
                      (if includes ":443" newUrl then VNum 443
                       else Number_ (url_port url)))
        /\ forall p, url_protocol url = p +:+ ":" -> slice0 (url_protocol url) (-1) = p).
Proof.
  unfold validateAndParseUrl. destruct (URL_new newUrl) as [url|msg] eqn:Hurl.
  - split_and!.
    + eauto.
    + split; [discriminate|]. intros [msg' H]. discriminate.
    + intros url' [= <-]. split; [done|]. intros p ->. apply slice0_drop_last.
  - split_and!.
    + eauto.
    + split; eauto.
    + intros url [=].
Qed.


(** *** The cache run on the example configuration *)
Import Examples MoreExamples.

Example matchEnvVar_examples :
  matchEnvVar "$ZOWE_USER" = Some "ZOWE_USER"
  /\ matchEnvVar "$" = None
  /\ matchEnvVar "$not-a-name" = None
  /\ matchEnvVar "ZOWE_USER" = None.
Proof. repeat split. Qed.

Example getParentProfileForToken_examples :
  getParentProfileForToken "lpar1.zosmf.sub" exampleConfig = Some "lpar1"
  /\ getParentProfileForToken "lpar2.zosmf.sub" exampleConfig = Some "lpar2.zosmf"
  /\ ancestors "lpar1.zosmf.sub" = ["lpar1.zosmf"; "lpar1"].
Proof. repeat split. Qed.

Lemma exampleInfo_typed : TypedProfiles exampleInfo.
Proof.
  intros ty p. simpl.
  destruct (decide (ty = "zosmf")) as [->|_].
  { intros H. repeat (apply elem_of_cons in H as [->|H]; [done|]). inversion H. }
  destruct (decide (ty = "base")) as [->|_].
  { intros H. repeat (apply elem_of_cons in H as [->|H]; [done|]). inversion H. }
  intros H; inversion H.
Defined.

Lemma newCache_Linked : Linked newCache.
Proof. intros ty [x H]. discriminate. Defined.

(** [observe H f E]: from [H : run = Some c], the value of [f c], computed. *)
Ltac observe H f E :=
  match type of H with
  | ?run = Some ?c =>
      let T := fresh in
      eassert (T : (run ≫= fun x => Some (f x)) = Some _) by (vm_compute; reflexivity);
      rewrite H in T; cbn [mbind option_bind] in T; injection T as E
  end.


Lemma gatewayInfo_typed marked baseHost : TypedProfiles (gatewayInfo marked baseHost).
Proof.
  intros ty p. simpl.
  destruct (decide (ty = "zosmf")) as [->|_].
  { intros H. repeat (apply elem_of_cons in H as [->|H]; [done|]). inversion H. }
  destruct (decide (ty = "base")) as [->|_].
  { intros H. repeat (apply elem_of_cons in H as [->|H]; [done|]). inversion H. }
  intros H; inversion H.
Qed.

(** A default profile that an earlier [refresh] stored keeps its token:
    the second of three calls stores a new object as the default of
    "zosmf", while [allProfiles] keeps the object of the first call; in the
    third call the library marks no default for the type, and the base
    profile has moved to another host. The default profile of "zosmf" then
    meets the conditions, is no member of [allProfiles], and still has its
    token. *)
Lemma refresh_keeps_stale_default_token :
  exists c l,
    threeRefreshes = Some c
    /\ getDefaultProfile c (Some "zosmf") = Some l
    /\ (l ∉ allProfiles c)
    /\ Conditions APIML (view c l) (baseView c)
    /\ ~ TokensUndefined (view c l).
Proof.
  destruct threeRefreshes as [c|] eqn:Hrun; [|vm_compute in Hrun; discriminate].
  observe Hrun (fun c => getDefaultProfile c (Some "zosmf")) Hd.
  observe Hrun allProfiles Ha.
  observe Hrun (fun c => optProp (baseView c) "host") Hbh.
  observe Hrun (fun c => optProp (view c 2) "host") Hh.
  observe Hrun (fun c => optProp (view c 2) "port") Hp.
  observe Hrun (fun c => optProp (view c 2) "tokenType") Ht.
  exists c, 2. split; [reflexivity|]. split; [exact Hd|]. split_and!.
  - rewrite Ha. intros H. repeat (apply elem_of_cons in H as [H|H]; [discriminate|]).
    inversion H.
  - unfold Conditions, has. rewrite Hbh, Hh, Hp, Ht. split_and!.
    + by left.
    + done.
    + done.
    + by eexists.
    + by left.
  - intros [H _]. rewrite Ht in H. discriminate.
Qed.



Lemma baseOnlyInfo_typed : TypedProfiles baseOnlyInfo.
Proof.
  intros ty p. simpl.
  destruct (decide (ty = "base")) as [->|_].
  { intros H. repeat (apply elem_of_cons in H as [->|H]; [done|]). inversion H. }
  intros H; inversion H.
Qed.

(** After a [refresh] that the library has aborted, a completed one leaves
    a default without a profile: the type "zosmf" has an entry in
    [defaultProfileByType] and no profile in [allProfiles]. *)
Lemma refresh_after_abort_keeps_default :
  exists cMid c',
    abortedRefresh = Some cMid
    /\ TypedProfiles baseOnlyInfo
    /\ refresh APIML exampleEnv baseOnlyInfo ["zosmf"] cMid = Some c'
    /\ "zosmf" ∈ map_keys (defaultProfileByType c')
    /\ ~ HasProfileOfType c' (allProfiles c') "zosmf".
Proof.
  destruct abortedRefresh as [cMid|] eqn:Hmid; [|vm_compute in Hmid; discriminate].
  assert ((abortedRefresh ≫= refresh APIML exampleEnv baseOnlyInfo ["zosmf"])
          ≫= (fun _ => Some tt) = Some tt) as Hboth by (vm_compute; reflexivity).
  rewrite Hmid in Hboth. cbn [mbind option_bind] in Hboth.
  destruct (refresh APIML exampleEnv baseOnlyInfo ["zosmf"] cMid) as [c'|] eqn:Hrun;
    [|discriminate].
  assert ((abortedRefresh ≫= refresh APIML exampleEnv baseOnlyInfo ["zosmf"])
          ≫= (fun c => Some (map_keys (defaultProfileByType c),
                             (fun l => type <$> objs c !! l) <$> allProfiles c))
          = Some (["zosmf"; "base"], [Some "base"])) as Hobs by (vm_compute; reflexivity).
  rewrite Hmid in Hobs. cbn [mbind option_bind] in Hobs. rewrite Hrun in Hobs.
  cbn [mbind option_bind] in Hobs. injection Hobs as Hk Hty.
  exists cMid, c'. split; [reflexivity|]. split; [exact baseOnlyInfo_typed|].
  split; [exact Hrun|]. split; [rewrite Hk; left|].
  intros (l & o & Hl & Ho & Et).
  assert (Some "zosmf" ∈ (fun l => type <$> objs c' !! l) <$> allProfiles c') as Hin.
  { apply list_elem_of_fmap. exists l. split; [|done]. rewrite Ho. simpl. by rewrite Et. }
  rewrite Hty in Hin. apply list_elem_of_singleton in Hin. discriminate.
Qed.


Lemma noLocationInfo_typed : TypedProfiles noLocationInfo.
Proof.
  intros ty p. simpl.
  destruct (decide (ty = "zosmf")) as [->|_].
  { intros H. repeat (apply elem_of_cons in H as [->|H]; [done|]). inversion H. }
  intros H; inversion H.
Qed.

(** The profile that the library marks as the default of "zosmf" has no
    location on disk: [refresh] goes through the type, loads its other
    profile, and stores no default for it. *)
Lemma refresh_skips_default_without_location :
  exists c' p,
    TypedProfiles noLocationInfo
    /\ refresh APIML exampleEnv noLocationInfo ["zosmf"] newCache = Some c'
    /\ "zosmf" ∈ allTypes c'
    /\ p ∈ getAllProfiles noLocationInfo "zosmf" /\ isDefaultProfile p = true
    /\ getDefaultProfile c' (Some "zosmf") = None.
Proof.
  destruct (refresh APIML exampleEnv noLocationInfo ["zosmf"] newCache) as [c'|] eqn:Hrun;
    [|vm_compute in Hrun; discriminate].
  observe Hrun allTypes Ht.
  observe Hrun (fun c => getDefaultProfile c (Some "zosmf")) Hd.
  exists c', (mkProfAttrs "lpar1" "zosmf" true None).
  split; [exact noLocationInfo_typed|]. split; [reflexivity|].
  split; [rewrite Ht; left|]. split; [left|]. split; [reflexivity|exact Hd].
Qed.

Lemma exampleInfo_no_base_token : ~ baseHoldsToken exampleInfo.
Proof. intros (b & _ & H). inversion H. Defined.

Lemma fetchBaseProfile_spec_witness :
  exists c1 r1 r2,
    getProfileInfo exampleEnv exampleCache = Some c1
    /\ fetchBaseProfile exampleEnv exampleInfo (Some "lpar1.zosmf.sub") exampleCache
       = Some (c1, Some r1)
    /\ name r1 = "lpar1" /\ type r1 = "base"
    /\ fetchBaseProfile exampleEnv exampleInfo (Some "lpar2") exampleCache
       = Some (c1, Some r2)
    /\ name r2 = "global_base" /\ type r2 = "base".
Proof.
  destruct (getProfileInfo exampleEnv exampleCache) as [c1|] eqn:Hc1;
    [|vm_compute in Hc1; discriminate].
  destruct (proj2 (fetchBaseProfile_spec exampleEnv exampleInfo (Some "lpar1.zosmf.sub")
                     exampleCache) c1 Hc1) as (H1 & _ & _).
  destruct (proj2 (fetchBaseProfile_spec exampleEnv exampleInfo (Some "lpar2")
                     exampleCache) c1 Hc1) as (_ & H2 & _).
  destruct (proj1 (H1 "lpar1.zosmf.sub" eq_refl eq_refl exampleInfo_no_base_token))
    as (r1 & Hr1 & Ht1 & Hn1 & _).
  destruct (H2 (mkProfAttrs "global_base" "base" true (Some ["zowe.config.json"])) eq_refl)
    as (r2 & Hr2 & Hn2 & Ht2 & _).
  { intros (n & [= <-] & Hn). discriminate. }
  exists c1, r1, r2. split; [reflexivity|]. split; [exact Hr1|].
  split; [exact Hn1|]. split; [exact Ht1|]. split; [exact Hr2|].
  split; [exact Hn2|exact Ht2].
Defined.

(** With a cached profile whose user is a number, [fetchBaseProfile]
    returns no profile for a nested name: [getProfileInfo] throws, and the
    method rejects. *)
Lemma fetchBaseProfile_rejects :
  includes "." "lpar1.zosmf.sub" = true
  /\ ~ baseHoldsToken exampleInfo
  /\ fetchBaseProfile exampleEnv exampleInfo (Some "lpar1.zosmf.sub") exampleCacheNumericUser
     = None.
Proof.
  split; [reflexivity|]. split; [exact exampleInfo_no_base_token|]. reflexivity.
Qed.

(** An argument named "__proto__" is not stored: the names of the merged
    arguments are distinct, and the object does not map this one to its
    value. *)
Lemma getMergedAttrs_drops_proto :
  exists pa arg,
    arg ∈ mergeArgsForProfile protoInfo pa true
    /\ NoDup (argName <$> mergeArgsForProfile protoInfo pa true)
    /\ getMergedAttrs protoInfo (Some pa) !! argName arg ≠ Some (argValue arg).
Proof.
  exists (mkProfAttrs "lpar1" "zosmf" false None), (mkArg "__proto__" (VStr "x")).
  split; [right; left|]. split.
  - apply (bool_decide_unpack _). vm_compute. reflexivity.
  - vm_compute. discriminate.
Qed.

Lemma loadNamedProfile_spec_witness :
  exists c',
    refresh APIML exampleEnv exampleInfo ["zosmf"] newCache = Some c'
    /\ loadNamedProfile c' "lpar2" (Some "zosmf") None = Some (Returned (Some 1))
    /\ loadNamedProfile c' "lpar2" (Some "") (Some true) = Some (Returned (Some 1)).
Proof.
  destruct (refresh APIML exampleEnv exampleInfo ["zosmf"] newCache) as [c'|] eqn:Hrun;
    [|vm_compute in Hrun; discriminate].
  observe Hrun allProfiles Ha.
  observe Hrun (fun c => length (objs c)) Hlen.
  observe Hrun (fun c => name <$> objs c !! 0) Hn0.
  observe Hrun (fun c => (fun o => (name o, type o)) <$> objs c !! 1) Hn1.
  assert (ValidProfiles c') as Hvalid.
  { intros l. rewrite Ha, Hlen. intros Hl.
    repeat (apply elem_of_cons in Hl as [->|Hl]; [lia|]). inversion Hl. }
  destruct (objs c' !! 0) as [o0|] eqn:Ho0; [|discriminate]. injection Hn0 as Hn0.
  destruct (objs c' !! 1) as [o1|] eqn:Ho1; [|discriminate]. injection Hn1 as Hn1 Ht1.
  assert (forall t, t = Some "zosmf" \/ t = Some "" -> Wanted c' "lpar2" t 1) as Hw.
  { intros t Ht. exists o1. split_and!; try done.
    intros s -> Hs. destruct Ht as [[= ->]|[= ->]]; done. }
  assert (forall t j l', j < 1 -> allProfiles c' !! j = Some l' -> ~ Wanted c' "lpar2" t l')
    as Hfirst.
  { intros t j l' Hj. assert (j = 0) as -> by lia. rewrite Ha. intros [= <-].
    intros (o & Ho & Hname & _). rewrite Ho0 in Ho. injection Ho as <-.
    rewrite Hn0 in Hname. discriminate. }
  exists c'. split; [reflexivity|]. split.
  - apply (proj1 (loadNamedProfile_spec c' "lpar2" (Some "zosmf") None Hvalid) 1 1).
    + by rewrite Ha.
    + apply Hw. by left.
    + apply Hfirst.
  - apply (proj1 (loadNamedProfile_spec c' "lpar2" (Some "") (Some true) Hvalid) 1 1).
    + by rewrite Ha.
    + apply Hw. by right.
    + apply Hfirst.
Defined.

End ProfilesCacheFacts.

(** ** Facts about the shared tree utilities *)
Module SharedUtilsFacts.
Import Js JsFacts SharedUtils SharedUtilsSpec.

(** *** [checkIfChildPath] *)

(** C10: [checkIfChildPath(parentPath, childPath)] is truthy exactly when
    the relative path from the parent to the child is not empty, does not
    start with ".." and is not absolute; when the relative path is empty,
    as [path.relative] makes it for two equal paths, the function returns
    the empty string, a falsy value: a path is never a child of itself. *)
Theorem checkIfChildPath_spec (relative : string -> string -> string)
    (isAbsolute : string -> bool) (parentPath childPath : string) :
  (truthy (checkIfChildPath relative isAbsolute parentPath childPath) = true
   <-> relative parentPath childPath ≠ ""
       /\ String.prefix ".." (relative parentPath childPath) = false
       /\ isAbsolute (relative parentPath childPath) = false)
  /\ (relative parentPath childPath = "" ->
      checkIfChildPath relative isAbsolute parentPath childPath = VStr "")
  /\ ((forall p, relative p p = "") ->
      checkIfChildPath relative isAbsolute parentPath parentPath = VStr ""
      /\ truthy (checkIfChildPath relative isAbsolute parentPath parentPath) = false).
Proof.
  unfold checkIfChildPath, andV. split_and!.
  - simpl. destruct (String.eqb_spec (relative parentPath childPath) "") as [->|Hne]; simpl.
    + split; [done|]. intros (H & _). done.
    + destruct (String.prefix ".." (relative parentPath childPath)); simpl.
      * split; [done|]. intros (_ & H & _). done.
      * rewrite negb_true_iff. split; [done|]. intros (_ & _ & H). done.
  - intros ->. done.
  - intros Hrel. rewrite Hrel. done.
Qed.

(** *** [handleProfileChange] *)

(** C7: [handleProfileChange] never lets an error reach its caller: when
    the [try] block of a provider throws, while its children are fetched or
    the matching node is updated, the error is caught, its message is
    logged if it is an Error, and the function returns, the providers
    after it left alone. *)
Theorem handleProfileChange_spec (providers : list Provider) (profile : option Profile) :
  (exists events, handleProfileChange providers profile = Done events)
  /\ (forall before provider after earlier e,
        providers = before ++ provider :: after ->
        Forall2 (fun p events => tryBlock p profile = Done events) before earlier ->
        tryBlock provider profile = Raise e ->
        handleProfileChange providers profile = Done (concat earlier ++ logged e))
  /\ (forall every,
        Forall2 (fun p events => tryBlock p profile = Done events) providers every ->
        handleProfileChange providers profile = Done (concat every)).
Proof.
  split_and!.
  - induction providers as [|p ps [events IH]]; simpl; [eauto|].
    destruct (tryBlock p profile) as [ev|e]; [|eauto].
    rewrite IH. simpl. eauto.
  - intros before provider after earlier e -> Hbefore Hraise.
    induction Hbefore as [|p ev before earlier Hp _ IH]; simpl.
    + rewrite Hraise. by destruct e.
    + rewrite Hp, IH. simpl. by rewrite app_assoc.
  - intros every Hall. induction Hall as [|p ev ps evs Hp _ IH]; simpl; [done|].
    by rewrite Hp, IH.
Qed.

(** *** [parseFavorites] *)





















(** *** The utilities run on examples *)
Import Examples.

Example substring_examples :
  substring (str "hello") 3 1 = str "el"
  /\ substring (str "hello") (-1) 2 = str "he"
  /\ substringFrom (str "hello") 7 = []
  /\ trim ([32; 160; 8232; 65279]%N ++ str "a b" ++ [9; 10; 13; 12288]%N) = str "a b"
  /\ indexOf RBRACKET (str "[a]b]") = 2%Z.
Proof. repeat split. Qed.

(** Where the line is not of the form "[profile]: label{context}": a
    missing "}" makes [substring] swap its indices. *)
Example parseFavorite_unclosed :
  parseFavorite (str "[p]: lab{ctx")
  = (Some (mkFavorite (str "p") (str "lab") (Some (str "lab{"))), []).
Proof. vm_compute. reflexivity. Qed.

(** A kept line of the form "[profile]: label{context}" whose label holds
    a closing brace: "{" comes at a positive index of the remainder, and the
    [contextValue] is not the text between "{" and "}", since [indexOf]
    finds the brace of the label and [substring] swaps its indices. *)
Lemma parseFavorites_brace_in_label :
  str "[p]: a}b{ctx}" = str "[" ++ str "p" ++ str "]: " ++ str "a}b" ++ str "{" ++ str "ctx"
                        ++ str "}"
  /\ (0 < indexOf LBRACE (trim (afterBracket (str "[p]: a}b{ctx}"))))%Z
  /\ (parseFavorites [str "[p]: a}b{ctx}"]).1
     = [Some (mkFavorite (str "p") (str "a}b") (Some (str "}b{")))]
  /\ str "}b{" ≠ str "ctx".
Proof. split_and!; [reflexivity|reflexivity|vm_compute; reflexivity|discriminate]. Qed.

Example parseFavorites_example :
  parseFavorites [str "[zosmf1]: USER.DATA{ds}"; str "zosmf1: USER.DATA{ds}";
                  str "[zosmf1]:  "; str "[zosmf1]: /u/user"]
  = ([Some (mkFavorite (str "zosmf1") (str "USER.DATA") (Some (str "ds")));
      Some (mkFavorite (str "zosmf1") [] None)],
     [invalidFavoriteWarning (str "zosmf1: USER.DATA{ds}");
      invalidFavoriteWarning (str "[zosmf1]:  ")]).
Proof. vm_compute. reflexivity. Qed.

Example checkIfChildPath_example :
  checkIfChildPath posixRelative posixIsAbsolute "/u/user" "/u/user/dir/file" = VBool true
  /\ checkIfChildPath posixRelative posixIsAbsolute "/u/user/dir" "/u/user" = VBool false
  /\ checkIfChildPath posixRelative posixIsAbsolute "/u/user" "/u/user" = VStr "".
Proof. split_and!; vm_compute; reflexivity. Qed.

Example handleProfileChange_example :
  handleProfileChange exampleProviders (Some exampleProfile)
  = Done [ProfileSet (Some "lpar1"); LoggedError "Unable to list jobs"].
Proof. vm_compute. reflexivity. Qed.

End SharedUtilsFacts.

(** ** Further properties of the cache *)
Module ProfilesCacheLaws.
Import Js ProfilesCache ProfilesCacheSpec ProfilesCacheInv ProfilesCacheViews.
Import JsFacts ProfilesCacheFacts Examples MoreExamples.

(** *** What [refresh] loads *)

Lemma keyOf_Some c l k :
  keyOf c l = Some k <-> exists o, objs c !! l = Some o /\ name o = k.1 /\ type o = k.2.
Proof.
  unfold keyOf. destruct (objs c !! l) as [o|]; simpl.
  - split.
    + intros [= <-]. by exists o.
    + intros (o' & [= <-] & E1 & E2). destruct k; simpl in *; by subst.
  - split; [done|]. by intros (? & ? & _).
Qed.

Lemma keyOf_Grows c c' l k : Grows c c' -> keyOf c l = Some k -> keyOf c' l = Some k.
Proof.
  intros (_ & _ & _ & Hn & _) (o & Ho & E1 & E2)%keyOf_Some.
  destruct (Hn _ _ Ho) as (o' & Ho' & E1' & E2').
  apply keyOf_Some. exists o'. split_and!; congruence.
Qed.

Lemma keyOf_valid c l k : keyOf c l = Some k -> l < length (objs c).
Proof. intros (o & Ho & _)%keyOf_Some. by eapply lookup_lt_Some. Qed.

(** [findProfile] returns the first profile of the list with the name and
    the type. *)
Lemma findProfile_first c ps n t r :
  findProfile c ps n t = Some r ->
  match r with
  | Some e => exists i, ps !! i = Some e /\ keyOf c e = Some (n, t)
                        /\ forall j x, j < i -> ps !! j = Some x -> keyOf c x ≠ Some (n, t)
  | None => forall x, x ∈ ps -> keyOf c x ≠ Some (n, t)
  end.
Proof.
  revert r. induction ps as [|l ps IH]; intros r; simpl.
  - intros [= <-] x H. inversion H.
  - destruct (objs c !! l) as [o|] eqn:Ho; simpl; [|done].
    destruct (bool_decide (name o = n) && bool_decide (type o = t)) eqn:Hb.
    + intros [= <-].
      apply andb_true_iff in Hb as [H1%bool_decide_eq_true H2%bool_decide_eq_true].
      exists 0. split_and!; [done| |intros; lia].
      apply keyOf_Some. by exists o.
    + assert (keyOf c l ≠ Some (n, t)) as Hne.
      { intros (o' & Ho' & E1 & E2)%keyOf_Some. simpl in *.
        assert (o' = o) as -> by congruence.
        rewrite !bool_decide_eq_true_2 in Hb by done. done. }
      intros H. specialize (IH _ H). destruct r as [e|].
      * destruct IH as (i & Hi & Hk & Hfirst). exists (S i). split_and!; try done.
        intros [|j] x Hj; simpl; [by intros [= <-]|]. apply Hfirst. lia.
      * intros x [->|Hx]%elem_of_cons; [done|by apply IH].
Qed.

Lemma findProfile_ext c c' ps n t :
  (forall x, x ∈ ps -> objs c' !! x = objs c !! x) ->
  findProfile c' ps n t = findProfile c ps n t.
Proof.
  induction ps as [|l ps IH]; intros H; simpl; [done|].
  rewrite H by left. rewrite IH; [done|]. intros x Hx. apply H. by right.
Qed.

Lemma refreshProfile_origin info c1 ty prof c tmp c' tmp' :
  Grows c1 c ->
  refreshProfile info ty prof (c, tmp) = Some (c', tmp') ->
  exists l, tmp' = tmp ++ [l] /\ keyOf c' l = Some (attrKey prof)
            /\ (ValidProfiles c1 -> Origin c1 prof l).
Proof.
  intros HG Hrun.
  destruct (refreshProfile_step _ _ _ _ _ _ _ Hrun)
    as (HG' & _ & _ & _ & _ & (l & o & -> & Hl & Hn & Ht)).
  exists l. split_and!; [done|apply keyOf_Some; by exists o|].
  intros HV. revert Hrun. unfold refreshProfile.
  set (fix_ := getProfileLoaded (profName prof) (profType prof) (length (props c))).
  set (ca := if isDefaultProfile prof then _ else _).
  assert (objs ca = objs c ++ [fix_]) as Hoa by (subst ca; by destruct (isDefaultProfile prof)).
  assert (allProfiles ca = allProfiles c) as Haa by (subst ca; by destruct (isDefaultProfile prof)).
  clearbody ca. rewrite Haa.
  destruct HG as (Ha & _ & Hlen & Hname & _).
  assert (forall x, x ∈ allProfiles c -> objs ca !! x = objs c !! x) as Hext.
  { intros x Hx. rewrite Ha in Hx. apply HV in Hx.
    rewrite Hoa, lookup_app_l by lia. done. }
  assert (forall x, x ∈ allProfiles c1 -> keyOf ca x = keyOf c1 x) as Hkey.
  { intros x Hx. unfold keyOf. rewrite Hext by (by rewrite Ha).
    destruct (lookup_lt_is_Some_2 (objs c1) x (HV _ Hx)) as [o1 Ho1].
    destruct (Hname _ _ Ho1) as (o2 & Ho2 & E1 & E2).
    rewrite Ho1, Ho2. simpl. congruence. }
  destruct (findProfile ca (allProfiles c) (profName prof) (profType prof)) as [r|] eqn:Hf;
    simpl; [|done].
  apply findProfile_first in Hf. rewrite Ha in Hf. destruct r as [e|].
  - intros [= _ Htmp]. apply app_inj_tail in Htmp as [_ <-].
    destruct Hf as (i & Hi & Hk & Hfirst). left. exists i.
    assert (e ∈ allProfiles c1) as He by (by eapply list_elem_of_lookup_2).
    split_and!; [done|by rewrite <- Hkey|].
    intros j x Hj Hx. rewrite <- Hkey by (by eapply list_elem_of_lookup_2). by eapply Hfirst.
  - intros [= _ Htmp]. apply app_inj_tail in Htmp as [_ <-].
    right. split; [simpl; lia|].
    intros x Hx. rewrite <- Hkey by done. by apply Hf.
Qed.


Lemma bind_ext_in {A B} (f g : A -> list B) (l : list A) :
  (forall x, x ∈ l -> f x = g x) -> l ≫= f = l ≫= g.
Proof.
  induction l as [|a l IH]; intros H; [done|].
  rewrite !bind_cons, H by left. rewrite IH; [done|]. intros x Hx. apply H. by right.
Qed.

Lemma refreshType_inner_load info c1 ty profs c c' tmp :
  Grows c1 c ->
  forOf (refreshProfile info ty) profs (c, []) = Some (c', tmp) ->
  InnerLoad c1 c profs (c', tmp).
Proof.
  intros HG1. apply forOf_invariant_prefix.
  - intros pre x post [ca tmpa] [cb tmpb] _ (HG & HB & HF) Hstep. simpl in *.
    destruct (refreshProfile_origin _ c1 _ _ _ _ _ _ (Grows_trans _ _ _ HG1 HG) Hstep)
      as (l & -> & Hk & Ho).
    apply refreshProfile_step in Hstep as (HG' & HB' & _).
    unfold InnerLoad; simpl. split_and!.
    + by eapply Grows_trans.
    + congruence.
    + apply Forall2_app; [|by constructor].
      eapply Forall2_impl; [done|]. intros y p [Hy ?]. split; [|done].
      by eapply keyOf_Grows.
  - unfold InnerLoad; simpl. split_and!; [apply Grows_refl|done|constructor].
Qed.

Lemma Grows_set_profilesByType c c' f :
  Grows c c' -> Grows c (set_profilesByType f c').
Proof. done. Qed.

Lemma refreshType_step_load info c1 pre ty c all c' all' :
  ty ∉ pre ->
  OuterLoad info c1 pre (c, all) ->
  refreshType info ty (c, all) = Some (c', all') ->
  OuterLoad info c1 (pre ++ [ty]) (c', all').
Proof.
  intros Hfresh (HG & Hall & HF & HB). simpl in *.
  unfold refreshType. fold (profilesForType info ty).
  destruct (profilesForType info ty) as [|p0 profs] eqn:Hprofs.
  - intros [= <- <-]. unfold OuterLoad; simpl. split_and!; try done.
    + rewrite bind_app, bind_singleton. unfold segment at 2.
      rewrite decide_True by done. by rewrite app_nil_r.
    + intros ty' [Hin| ->%list_elem_of_singleton]%elem_of_app; [by apply HF|].
      unfold segment. rewrite decide_True by done. rewrite Hprofs. constructor.
    + intros ty' Hnin. apply HB. intros H. apply Hnin, elem_of_app. by left.
  - destruct (forOf (refreshProfile info ty) (p0 :: profs) (c, [])) as [[c2 tmp]|] eqn:Hin;
      simpl; [|done].
    intros [= <- <-].
    apply (refreshType_inner_load _ c1) in Hin as (HG2 & HB2 & HF2); [|done]. simpl in *.
    assert (forall ty', ty' ≠ ty ->
              segment info (set_profilesByType (map_set ty tmp) c2) ty' = segment info c ty')
      as Hseg.
    { intros ty' Hne. unfold segment; simpl. rewrite map_get_set_ne by done. by rewrite HB2. }
    assert (segment info (set_profilesByType (map_set ty tmp) c2) ty = tmp) as Hsegty.
    { unfold segment; simpl. rewrite decide_False by (by rewrite Hprofs).
      by rewrite map_get_set_eq. }
    unfold OuterLoad; simpl. split_and!.
    + by eapply Grows_trans.
    + rewrite bind_app, bind_singleton, Hsegty. f_equal.
      rewrite Hall. apply bind_ext_in. intros x Hx. symmetry. apply Hseg.
      intros ->. done.
    + intros ty' [Hin| ->%list_elem_of_singleton]%elem_of_app.
      * rewrite Hseg by (intros ->; done).
        eapply Forall2_impl; [by apply HF|]. intros y p [Hy ?]. split; [|done].
        apply (keyOf_Grows c); [|done]. by apply Grows_set_profilesByType.
      * rewrite Hsegty, Hprofs. done.
    + intros ty' Hnin. rewrite map_get_set_ne.
      * rewrite HB2. apply HB. intros H. apply Hnin, elem_of_app. by left.
      * intros ->. apply Hnin, elem_of_app. right. left.
Qed.

Lemma refreshType_loop_load info tys c1 c2 all :
  NoDup tys ->
  forOf (refreshType info) tys (c1, []) = Some (c2, all) ->
  OuterLoad info c1 tys (c2, all).
Proof.
  intros Hnd. apply forOf_invariant_prefix.
  - intros pre x post [c a] [c' a'] -> Hinv Hstep.
    eapply refreshType_step_load; try done.
    apply NoDup_app in Hnd as (_ & Hdisj & _). intros Hx. apply (Hdisj _ Hx). left.
  - unfold OuterLoad; simpl. split_and!; try done.
    + apply Grows_refl.
    + intros ty H; inversion H.
Qed.


Lemma filter_all {A} (P : A -> Prop) `{!forall x, Decision (P x)} (l : list A) :
  Forall P l -> filter P l = l.
Proof.
  induction 1 as [|x l Hx _ IH]; [done|]. rewrite filter_cons, decide_True by done.
  by rewrite IH.
Qed.

Lemma filter_none {A} (P : A -> Prop) `{!forall x, Decision (P x)} (l : list A) :
  Forall (fun x => ~ P x) l -> filter P l = [].
Proof.
  induction 1 as [|x l Hx _ IH]; [done|]. by rewrite filter_cons, decide_False.
Qed.

(** A list made of one segment per type, each holding profiles of its
    type only: the profiles of a type are its segment. *)
Lemma filter_segments (seg : string -> list loc) (tyOf : loc -> option string)
    (tys : list string) (ty0 : string) :
  NoDup tys ->
  (forall ty, ty ∈ tys -> Forall (fun l => tyOf l = Some ty) (seg ty)) ->
  filter (fun l => tyOf l = Some ty0) (tys ≫= seg)
  = if decide (ty0 ∈ tys) then seg ty0 else [].
Proof.
  induction tys as [|ty tys IH]; intros Hnd Hseg; [done|].
  apply NoDup_cons in Hnd as [Hnin Hnd].
  rewrite bind_cons, filter_app, IH; [|done|intros; apply Hseg; by right].
  destruct (decide (ty0 = ty)) as [->|Hne].
  - rewrite (decide_False (P := ty ∈ tys)) by done. rewrite decide_True by left.
    rewrite app_nil_r. apply filter_all, Hseg. left.
  - rewrite filter_none.
    + simpl. destruct (decide (ty0 ∈ tys)) as [Hin|Hn].
      * rewrite decide_True; [done|by right].
      * rewrite decide_False; [done|]. by intros [?|?]%elem_of_cons.
    + eapply Forall_impl; [apply Hseg; left|]. simpl. intros l Hl. congruence.
Qed.

Lemma HasProfileOfType_filter c ps ty :
  HasProfileOfType c ps ty <-> filter (fun l => typeAt c l = Some ty) ps ≠ [].
Proof.
  split.
  - intros (l & o & Hl & Ho & Et) E.
    assert (typeAt c l = Some ty) as Ht by (unfold typeAt; rewrite Ho; simpl; by rewrite Et).
    by apply (filter_nil_not_elem_of (fun l => typeAt c l = Some ty) ps l E Ht).
  - intros Hne. destruct (filter _ ps) as [|l rest] eqn:E; [done|].
    assert (l ∈ filter (fun l => typeAt c l = Some ty) ps) as Hl by (rewrite E; left).
    apply list_elem_of_filter in Hl as [Ht Hl]. unfold typeAt in Ht.
    destruct (objs c !! l) as [o|] eqn:Ho; [|done]. simpl in Ht.
    exists l, o. split_and!; [done..|congruence].
Qed.

Lemma Origin_same c c' p l :
  objs c' = objs c -> allProfiles c' = allProfiles c -> Origin c p l -> Origin c' p l.
Proof.
  intros Ho Ha. unfold Origin, FirstWith, keyOf. rewrite Ho, Ha. done.
Qed.

Section Load.
Variable TOKEN_TYPE_APIML : string.
Variable env : string -> JsVal.

(** What the loading part of [refresh] leaves in the cache. *)
Lemma refreshLoad_load info reg c0 cL :
  refreshLoad env info reg c0 = Some cL ->
  allTypes cL = refreshTypes c0 reg
  /\ allExternalTypes cL = allExternalTypes c0
  /\ Forall2 (fun l p => keyOf cL l = Some (attrKey p)
                         /\ (ValidProfiles c0 -> Origin c0 p l))
             (allProfiles cL) (loadedProfiles info (refreshTypes c0 reg))
  /\ (TypedProfiles info -> forall ty,
        getProfiles cL (Some ty)
        = filter (fun l => typeAt cL l = Some ty) (allProfiles cL)
        /\ Forall2 (fun l p => keyOf cL l = Some (attrKey p))
                   (getProfiles cL (Some ty))
                   (if decide (ty ∈ refreshTypes c0 reg) then profilesForType info ty
                    else [])).
Proof.
  unfold refreshLoad, getProfileInfo.
  destruct (checkForEnvVarAndUpdate env c0) as [c1|] eqn:H1; simpl; [|done].
  pose proof (checkForEnvVarAndUpdate_Evolves _ _ _ H1) as Hev.
  assert (getAllProfileTypes c1 reg = getAllProfileTypes c0 reg) as ->.
  { unfold getAllProfileTypes. destruct Hev as (_ & _ & _ & -> & _). done. }
  fold (refreshTypes c0 reg).
  destruct (forOf (refreshType info) (refreshTypes c0 reg) (c1, [])) as [[c2 all]|] eqn:H2;
    simpl; [|done].
  apply refreshType_loop_load in H2 as (HG & Hall & HF & HB); [|apply refreshTypes_NoDup].
  simpl in *.
  destruct (oldTypes _ all _) as [old|] eqn:H3; simpl; [|done].
  pose proof (oldTypes_spec _ _ _ _ H3) as Hold. simpl in Hold.
  intros Hdel.
  assert (allExternalTypes cL = allExternalTypes c2) as He.
  { revert Hdel. apply (forOf_invariant _ (fun c => allExternalTypes c = allExternalTypes c2));
      [|done].
    intros x t t' _ Ht. unfold deleteType. by intros [= <-]. }
  apply deleteType_loop in Hdel as (Ho & Hp & Ha & Ht & Hb & Hd). simpl in *.
  split_and!.
  - done.
  - rewrite He. destruct HG as (_ & -> & _). by destruct Hev as (_ & _ & _ & -> & _).
  - rewrite Ha, Hall. unfold loadedProfiles. apply Forall2_bind.
    apply Forall_Forall2_diag, Forall_forall. intros ty Hty.
    eapply Forall2_impl; [by apply HF|]. intros l p [Hk Hor].
    unfold keyOf in *. rewrite Ho. split; [done|].
    destruct Hev as (Eo & Ea & _).
    intros HV. apply (Origin_same c1); [by symmetry|by symmetry|]. apply Hor.
    intros x Hx. rewrite Eo. apply HV. by rewrite <- Ea.
  - intros Htyped ty0.
    assert (forall ty, ty ∈ refreshTypes c0 reg ->
              Forall (fun l => typeAt c2 l = Some ty) (segment info c2 ty)) as Hsegty.
    { intros ty Hty. apply Forall_forall. intros l Hl.
      apply list_elem_of_lookup in Hl as [i Hi].
      destruct (Forall2_lookup_l _ _ _ _ _ (HF _ Hty) Hi) as (p & Hp' & Hk & _).
      apply keyOf_Some in Hk as (o & Hol & _ & Et). unfold typeAt. rewrite Hol. simpl.
      f_equal. rewrite Et. simpl. apply (Htyped ty).
      apply list_elem_of_lookup_2 in Hp'. unfold profilesForType in Hp'.
      by apply list_elem_of_filter in Hp' as [_ ?]. }
    pose proof (filter_segments (segment info c2) (typeAt c2) _ ty0
                  (refreshTypes_NoDup c0 reg) Hsegty) as Hfilter.
    rewrite <- Hall in Hfilter.
    assert (forall l, typeAt cL l = typeAt c2 l) as Hsame
      by (intros l; unfold typeAt; by rewrite Ho).
    rewrite Ha.
    assert (filter (fun l => typeAt cL l = Some ty0) all
            = filter (fun l => typeAt c2 l = Some ty0) all) as ->
      by (apply list_filter_iff; intros l; by rewrite Hsame).
    rewrite Hfilter.
    assert (getProfiles cL (Some ty0)
            = if decide (ty0 ∈ refreshTypes c0 reg) then segment info c2 ty0 else []) as Hgp;
      [|split; [done|]; rewrite Hgp;
        destruct (decide (ty0 ∈ refreshTypes c0 reg)) as [Hty|]; [|constructor];
        eapply Forall2_impl; [by apply HF|]; intros l p [Hk _];
        unfold keyOf in *; by rewrite Ho].
    unfold getProfiles; simpl. rewrite Hb.
    destruct (decide (ty0 ∈ old)) as [Hin|Hnin]; simpl.
    + destruct (Hold ty0) as [Hold1 _]. destruct (Hold1 Hin) as [_ Hno].
      rewrite HasProfileOfType_filter in Hno.
      destruct (filter _ all) eqn:E; [by rewrite <- Hfilter|]. exfalso. by apply Hno.
    + destruct (map_get ty0 (profilesByType c2)) as [ls|] eqn:Hget; simpl.
      * destruct (Hold ty0) as [_ Hold2].
        assert (HasProfileOfType c2 all ty0) as Hhas.
        { apply Hold2; [|done]. apply map_get_keys. eauto. }
        apply HasProfileOfType_filter in Hhas. rewrite Hfilter in Hhas.
        destruct (decide (ty0 ∈ refreshTypes c0 reg)); [|done].
        unfold segment in *. destruct (decide (profilesForType info ty0 = [])); [done|].
        by rewrite Hget.
      * destruct (decide (ty0 ∈ refreshTypes c0 reg)); [|done].
        unfold segment. destruct (decide (profilesForType info ty0 = [])); [done|].
        by rewrite Hget.
Qed.


(** What a completed [refresh] leaves in the cache. *)
Lemma refresh_load info reg c0 c' :
  refresh TOKEN_TYPE_APIML env info reg c0 = Some c' ->
  allTypes c' = refreshTypes c0 reg
  /\ allExternalTypes c' = allExternalTypes c0
  /\ Forall2 (fun l p => keyOf c' l = Some (attrKey p)
                         /\ (ValidProfiles c0 -> Origin c0 p l))
             (allProfiles c') (loadedProfiles info (refreshTypes c0 reg))
  /\ (TypedProfiles info -> forall ty,
        getProfiles c' (Some ty)
        = filter (fun l => typeAt c' l = Some ty) (allProfiles c')
        /\ Forall2 (fun l p => keyOf c' l = Some (attrKey p))
                   (getProfiles c' (Some ty))
                   (if decide (ty ∈ refreshTypes c0 reg) then profilesForType info ty
                    else [])).
Proof.
  intros Hrun. destruct (refresh_phases _ _ _ _ _ _ Hrun) as (cL & _ & _ & HL & _).
  destruct (refresh_Evolves _ _ _ _ _ _ _ Hrun HL) as [(Eo & Ea & Et & Ee & Eb & _) _].
  destruct (refreshLoad_load _ _ _ _ HL) as (H1 & H2 & H3 & H4).
  unfold getProfiles, typeAt, keyOf in *. rewrite Eo, Ea, Et, Ee, Eb. done.
Qed.

Lemma Forall2_fmap_eq {A B C} (f : A -> C) (g : B -> C) (l : list A) (k : list B) :
  Forall2 (fun x y => f x = g y) l k -> f <$> l = g <$> k.
Proof. induction 1 as [|x y l k E _ IH]; [done|]. rewrite !fmap_cons. by rewrite E, IH. Qed.

Lemma refresh_keys info reg c0 c' :
  refresh TOKEN_TYPE_APIML env info reg c0 = Some c' ->
  keyOf c' <$> allProfiles c' = (fun p => Some (attrKey p)) <$> loadedProfiles info (allTypes c').
Proof.
  intros (Ht & _ & HF & _)%refresh_load. rewrite Ht.
  apply Forall2_fmap_eq. eapply Forall2_impl; [done|]. by intros l p [? _].
Qed.

Lemma keys_valid c ps (ks : list (string * string)) :
  keyOf c <$> ps = Some <$> ks -> forall l, l ∈ ps -> l < length (objs c).
Proof.
  intros E l [i Hi]%list_elem_of_lookup.
  assert ((keyOf c <$> ps) !! i = Some (keyOf c l)) as H by (by rewrite list_lookup_fmap, Hi).
  rewrite E, list_lookup_fmap in H. destruct (ks !! i) as [k|]; [|done].
  injection H as H. by eapply keyOf_valid.
Qed.

End Load.


Lemma Wanted_key c n t l p :
  keyOf c l = Some (attrKey p) -> Wanted c n t l <-> WantedAttrs n t p.
Proof.
  intros (o & Ho & E1 & E2)%keyOf_Some. simpl in *. unfold Wanted, WantedAttrs. split.
  - intros (o' & Ho' & En & Et). assert (o' = o) as -> by congruence.
    split; [congruence|]. intros s' Hs Hne. rewrite <- E2. by apply Et.
  - intros [En Et]. exists o. split_and!; [done|congruence|].
    intros s' Hs Hne. rewrite E2. by apply Et.
Qed.

Lemma loadNamedProfile_loop_finds c ps n t :
  (forall l, l ∈ ps -> l < length (objs c)) ->
  (exists l, l ∈ ps /\ Wanted c n t l) ->
  exists l, loadNamedProfile_loop c ps n t = Some (Some l) /\ l ∈ ps /\ Wanted c n t l.
Proof.
  induction ps as [|x ps IH]; intros HV (l & Hl & Hw); [inversion Hl|].
  simpl. destruct (lookup_lt_is_Some_2 (objs c) x) as [o Ho]; [apply HV; left|].
  rewrite Ho. simpl.
  destruct (bool_decide (name o = n) && (noType t || bool_decide (Some (type o) = t))) eqn:Hb.
  - exists x. split_and!; [done|left|]. by apply (loadNamedProfile_cond c n t x o Ho).
  - destruct IH as (l' & Hrun & Hin & Hw').
    + intros y Hy. apply HV. by right.
    + apply elem_of_cons in Hl as [->|Hl]; [|by exists l].
      apply (loadNamedProfile_cond c n t x o Ho) in Hw. congruence.
    + exists l'. split_and!; [done|by right|done].
Qed.

Lemma getBaseProfile_loop_last c ps acc :
  (forall l, l ∈ ps -> l < length (objs c)) ->
  getBaseProfile_loop c ps acc
  = Some (match last (filter (fun l => typeAt c l = Some "base") ps) with
          | Some l => Some l
          | None => acc
          end).
Proof.
  revert acc. induction ps as [|x ps IH]; intros acc HV; [done|].
  simpl. destruct (lookup_lt_is_Some_2 (objs c) x) as [o Ho]; [apply HV; left|].
  rewrite Ho. simpl. rewrite IH by (intros y Hy; apply HV; by right).
  assert (typeAt c x = Some (type o)) as Hx by (unfold typeAt; by rewrite Ho).
  rewrite filter_cons.
  destruct (decide (type o = "base")) as [E|Hne].
  - rewrite bool_decide_eq_true_2 by done. rewrite decide_True by (by rewrite Hx, E).
    destruct (filter _ ps) as [|y rest] eqn:Ef; [done|].
    change (last (x :: y :: rest)) with (last (y :: rest)).
    destruct (last (y :: rest)) eqn:El; [done|]. by apply last_None in El.
  - rewrite bool_decide_eq_false_2 by done. rewrite decide_False; [done|].
    rewrite Hx. congruence.
Qed.

Lemma Forall2_last {A B} (R : A -> B -> Prop) (l : list A) (k : list B) :
  Forall2 R l k ->
  match last k with
  | Some y => exists x, last l = Some x /\ R x y
  | None => last l = None
  end.
Proof.
  intros HF. rewrite !last_lookup. rewrite <- (Forall2_length _ _ _ HF).
  destruct (k !! Nat.pred (length l)) as [y|] eqn:Hy.
  - destruct (Forall2_lookup_r _ _ _ _ _ HF Hy) as (x & Hx & HR). eauto.
  - destruct (l !! Nat.pred (length l)) as [x|] eqn:Hx; [|done].
    destruct (Forall2_lookup_l _ _ _ _ _ HF Hx) as (y & Hy' & _). congruence.
Qed.

Section AfterRefresh.
Variable TOKEN_TYPE_APIML : string.
Variable env : string -> JsVal.

(** X1: after [refresh] completes, [allProfiles] holds one object for each
    profile that the library lists with a location on disk, for the types
    that [refresh] went through ([getAllTypes]), type after type and within
    a type in the order of the library; the object has the name and the
    type of the profile. *)
Theorem refresh_loads_library_profiles info reg c0 c' :
  refresh TOKEN_TYPE_APIML env info reg c0 = Some c' ->
  keyOf c' <$> allProfiles c'
  = (fun p => Some (attrKey p)) <$> loadedProfiles info (getAllTypes c').
Proof. apply refresh_keys. Qed.


(** X3: after [refresh] completes, [getAllTypes()] has no duplicates and
    holds exactly the registered API types handed to [refresh], the custom
    types registered before, "ssh" and "base". *)
Theorem getAllTypes_after_refresh info reg c0 c' :
  refresh TOKEN_TYPE_APIML env info reg c0 = Some c' ->
  NoDup (getAllTypes c')
  /\ forall t, t ∈ getAllTypes c'
               <-> t ∈ reg \/ t ∈ allExternalTypes c0 \/ t = "ssh" \/ t = "base".
Proof.
  intros (Ht & _)%refresh_load. unfold getAllTypes. rewrite Ht.
  split; [apply refreshTypes_NoDup|]. intros t. unfold refreshTypes.
  rewrite !set_add_elem, set_of_elem. unfold getAllProfileTypes.
  rewrite elem_of_app, list_elem_of_filter. split.
  - intros [E|[E|[?|[_ ?]]]]; auto.
  - intros [?|[?|[E|E]]]; auto.
    destruct (decide (t ∈ reg)) as [?|Hn]; [auto|].
    right; right; right. split; [|done].
    apply forallb_forall. intros x Hx%list_elem_of_In. apply bool_decide_eq_true.
    intros ->. done.
Qed.

(** X4: [refresh], on a cache whose [allProfiles] holds stored objects
    only, takes for each profile that it loads the first object of the old
    [allProfiles] with the name and the type of the profile, which it
    updates in place, and a new object only when there is none. *)
Theorem refresh_reuses_cached_objects info reg c0 c' :
  ValidProfiles c0 ->
  refresh TOKEN_TYPE_APIML env info reg c0 = Some c' ->
  Forall2 (fun l p => Origin c0 p l)
          (allProfiles c') (loadedProfiles info (getAllTypes c')).
Proof.
  intros HV (Ht & _ & HF & _)%refresh_load. unfold getAllTypes. rewrite Ht.
  eapply Forall2_impl; [done|]. intros l p [_ H]. by apply H.
Qed.

(** X5: when no two of the loaded profiles share their name and type, a
    second [refresh] with the same library and the same registered types
    leaves [allProfiles] as the first one left it: the same objects, in the
    same order. *)
Theorem refresh_again_keeps_objects info reg c0 c1 c2 :
  refresh TOKEN_TYPE_APIML env info reg c0 = Some c1 ->
  refresh TOKEN_TYPE_APIML env info reg c1 = Some c2 ->
  NoDup (attrKey <$> loadedProfiles info (getAllTypes c1)) ->
  allProfiles c2 = allProfiles c1.
Proof.
  intros H1 H2 Hnd.
  pose proof (refresh_keys _ _ _ _ _ _ H1) as Hk1.
  destruct (refresh_load _ _ _ _ _ _ H1) as (Ht1 & He1 & HF1 & _).
  destruct (refresh_load _ _ _ _ _ _ H2) as (Ht2 & _ & HF2 & _).
  assert (refreshTypes c1 reg = refreshTypes c0 reg) as Hty.
  { unfold refreshTypes, getAllProfileTypes. by rewrite He1. }
  rewrite Hty in HF2. unfold getAllTypes in Hnd. rewrite Ht1 in Hnd, Hk1.
  set (loaded := loadedProfiles info (refreshTypes c0 reg)) in *.
  assert (ValidProfiles c1) as HV.
  { intros l Hl. eapply (keys_valid c1 _ (attrKey <$> loaded)); [|done].
    rewrite Hk1. exact (list_fmap_compose attrKey Some loaded). }
  apply list_eq_same_length with (length loaded).
  - by apply Forall2_length in HF1.
  - by apply Forall2_length in HF2.
  - intros i x y Hi Hx Hy.
    destruct (Forall2_lookup_l _ _ _ _ _ HF2 Hx) as (p & Hp & _ & Hor).
    destruct (Forall2_lookup_l _ _ _ _ _ HF1 Hy) as (p' & Hp' & Hky & _).
    assert (p' = p) as -> by congruence.
    destruct (Hor HV) as [(j & Hj & Hkx & _)|[_ Hno]].
    + destruct (Forall2_lookup_l _ _ _ _ _ HF1 Hj) as (q & Hq & Hkq & _).
      assert (attrKey q = attrKey p) as Eq by congruence.
      assert (j = i) as ->.
      { eapply NoDup_lookup; [done| |].
        - rewrite list_lookup_fmap, Hq. done.
        - rewrite list_lookup_fmap, Hp. simpl. by rewrite Eq. }
      congruence.
    + exfalso. apply (Hno y); [by eapply list_elem_of_lookup_2|done].
Qed.


(** X6: after [registerCustomProfilesType(t)], a [refresh] that completes
    has [t] among [getAllTypes()], and an object in [allProfiles] for every
    profile that the library lists for [t] with a location. *)
Theorem registerCustomProfilesType_refresh info reg c0 c' t :
  refresh TOKEN_TYPE_APIML env info reg (registerCustomProfilesType t c0) = Some c' ->
  t ∈ getAllTypes c'
  /\ forall p, p ∈ profilesForType info t ->
       exists l, l ∈ allProfiles c' /\ keyOf c' l = Some (attrKey p).
Proof.
  intros Hrun. destruct (refresh_load _ _ _ _ _ _ Hrun) as (Ht & _ & HF & _).
  assert (t ∈ refreshTypes (registerCustomProfilesType t c0) reg) as Hin.
  { unfold refreshTypes. rewrite !set_add_elem, set_of_elem. right; right.
    unfold getAllProfileTypes. rewrite elem_of_app, list_elem_of_filter.
    destruct (decide (t ∈ reg)) as [?|Hn]; [by left|]. right. split.
    - apply forallb_forall. intros x Hx%list_elem_of_In. apply bool_decide_eq_true.
      intros ->. done.
    - simpl. apply set_add_elem. by left. }
  unfold getAllTypes. rewrite Ht. split; [done|].
  intros p Hp.
  assert (p ∈ loadedProfiles info (refreshTypes (registerCustomProfilesType t c0) reg)) as Hl.
  { unfold loadedProfiles. apply list_elem_of_bind. by exists t. }
  apply list_elem_of_lookup in Hl as [i Hi].
  destruct (Forall2_lookup_r _ _ _ _ _ HF Hi) as (l & Hl & Hk & _).
  exists l. split; [by eapply list_elem_of_lookup_2|done].
Qed.


(** X7: after [refresh] completes, [loadNamedProfile(name, type)] returns
    a cached profile of that name (and of that type, when a non-empty type
    is given) if the library lists such a profile, with a location, for one
    of the types gone through; if it lists none, the call throws the error
    "Could not find profile named: ..." or, when [optional] is set, returns
    undefined. *)
Theorem loadNamedProfile_after_refresh info reg c0 c' n t optional :
  refresh TOKEN_TYPE_APIML env info reg c0 = Some c' ->
  ((exists p, p ∈ loadedProfiles info (getAllTypes c') /\ WantedAttrs n t p) ->
     exists l, loadNamedProfile c' n t optional = Some (Returned (Some l))
               /\ l ∈ allProfiles c' /\ Wanted c' n t l)
  /\ ((forall p, p ∈ loadedProfiles info (getAllTypes c') -> ~ WantedAttrs n t p) ->
      loadNamedProfile c' n t optional
      = Some (if default false optional then Returned None
              else Threw ("Zowe Explorer Profiles Cache error: Could not find profile named: "
                            +:+ n +:+ "."))).
Proof.
  intros Hrun. pose proof (refresh_keys _ _ _ _ _ _ Hrun) as Hk.
  destruct (refresh_load _ _ _ _ _ _ Hrun) as (Ht & _ & HF & _).
  unfold getAllTypes in *. rewrite Ht in *.
  set (loaded := loadedProfiles info (refreshTypes c0 reg)) in *.
  assert (ValidProfiles c') as HV.
  { intros l Hl. eapply (keys_valid c' _ (attrKey <$> loaded)); [|done].
    rewrite Hk. exact (list_fmap_compose attrKey Some loaded). }
  split.
  - intros (p & [i Hi]%list_elem_of_lookup & Hw).
    destruct (Forall2_lookup_r _ _ _ _ _ HF Hi) as (l0 & Hl0 & Hk0 & _).
    destruct (loadNamedProfile_loop_finds c' (allProfiles c') n t HV) as (l & Hrun' & Hl & Hwl).
    { exists l0. split; [by eapply list_elem_of_lookup_2|]. by apply (Wanted_key _ _ _ _ p). }
    exists l. unfold loadNamedProfile. rewrite Hrun'. done.
  - intros Hnone. unfold loadNamedProfile.
    destruct (loadNamedProfile_loop_spec c' (allProfiles c') n t HV) as [_ Hloop].
    rewrite Hloop; [simpl; by destruct (default false optional)|].
    intros l [i Hi]%list_elem_of_lookup Hw.
    destruct (Forall2_lookup_l _ _ _ _ _ HF Hi) as (p & Hp & Hkp & _).
    apply (Hnone p); [by eapply list_elem_of_lookup_2|]. by apply (Wanted_key c' _ _ l).
Qed.

(** X8: after [refresh] completes on a library that returns, for a type,
    profiles of that type, [getBaseProfile()] is the last of
    [getProfiles("base")]: the object of the last base profile that the
    library lists with a location, whether or not it is the default one,
    and undefined when the library lists none. *)
Theorem getBaseProfile_after_refresh info reg c0 c' :
  TypedProfiles info ->
  refresh TOKEN_TYPE_APIML env info reg c0 = Some c' ->
  getBaseProfile c' = Some (last (getProfiles c' (Some "base")))
  /\ match last (profilesForType info "base") with
     | Some p => exists l, getBaseProfile c' = Some (Some l) /\ keyOf c' l = Some (attrKey p)
     | None => getBaseProfile c' = Some None
     end.
Proof.
  intros Htyped Hrun. pose proof (refresh_keys _ _ _ _ _ _ Hrun) as Hk.
  destruct (refresh_load _ _ _ _ _ _ Hrun) as (Ht & _ & _ & Hgp).
  destruct (Hgp Htyped "base") as [Hfilter HF2].
  rewrite decide_True in HF2
    by (unfold refreshTypes; apply set_add_elem; by left).
  assert (ValidProfiles c') as HV.
  { intros l Hl. eapply (keys_valid c' _ (attrKey <$> loadedProfiles info (allTypes c')));
      [|done].
    rewrite Hk. exact (list_fmap_compose attrKey Some _). }
  assert (getBaseProfile c' = Some (last (getProfiles c' (Some "base")))) as Hbase.
  { unfold getBaseProfile. rewrite getBaseProfile_loop_last by done. rewrite Hfilter.
    by destruct (last _). }
  split; [done|]. rewrite Hbase.
  pose proof (Forall2_last _ _ _ HF2) as Hlast.
  destruct (last (profilesForType info "base")) as [p|].
  - destruct Hlast as (l & -> & Hkl). eauto.
  - by rewrite Hlast.
Qed.

End AfterRefresh.

(** *** The substitution of environment variables *)


Section EnvVars.
Variable env : string -> JsVal.

Lemma FromEnv_refl v : FromEnv env v v.
Proof. by left. Qed.

Lemma FromEnv_trans v1 v2 v3 : FromEnv env v1 v2 -> FromEnv env v2 v3 -> FromEnv env v1 v3.
Proof.
  intros [->|[Hd H]] [->|[Hd' H']].
  - by left.
  - by right.
  - by right.
  - by right.
Qed.

Lemma EnvRewritten_refl m : EnvRewritten env m m.
Proof. split_and!; [done|apply FromEnv_refl..]. Qed.

Lemma EnvRewritten_trans m1 m2 m3 :
  EnvRewritten env m1 m2 -> EnvRewritten env m2 m3 -> EnvRewritten env m1 m3.
Proof.
  intros (H1 & U1 & P1) (H2 & U2 & P2). split_and!.
  - intros k ? ?. rewrite H2, H1; done.
  - by eapply FromEnv_trans.
  - by eapply FromEnv_trans.
Qed.

(** One block: the property [k] may change, by [FromEnv]; the block ends
    in [continue] exactly when the property names a variable that the
    environment does not resolve. *)
Lemma envBlock_spec k m b m' :
  envBlock env k m = Some (b, m') ->
  (forall k', k' ≠ k -> m' !! k' = m !! k')
  /\ FromEnv env (m !! k) (m' !! k)
  /\ (b = true -> m' = m).
Proof.
  unfold envBlock, getProp.
  destruct (m !! k) as [v|] eqn:Hg; cbn [default id];
    [|simpl; intros [= <- <-]; rewrite Hg; split_and!; [done|apply FromEnv_refl|done]].
  destruct v as [| | | |s|]; simpl; try done;
    try (intros [= <- <-]; rewrite Hg; split_and!; [done|apply FromEnv_refl|done]).
  destruct (String.prefix "$" s) eqn:Hpre; simpl;
    [|intros [= <- <-]; rewrite Hg; split_and!; [done|apply FromEnv_refl|done]].
  destruct (matchEnvVar s) as [x|];
    [|intros [= <- <-]; rewrite Hg; split_and!; [done|apply FromEnv_refl|done]].
  destruct (truthy (env x)) eqn:Hx; intros [= <- <-];
    [|rewrite Hg; split_and!; [done|apply FromEnv_refl|done]].
  split_and!.
  - intros k' Hne. by rewrite lookup_insert_ne.
  - right. split; [by exists s|]. exists x. split; [done|by rewrite lookup_insert_eq].
  - done.
Qed.

Lemma envBlock_unresolved m :
  UnresolvedUser env m -> envBlock env "user" m = Some (true, m).
Proof.
  intros (s & Hs & Hpre & Hno). unfold envBlock. rewrite Hs. simpl. rewrite Hpre. simpl.
  destruct (matchEnvVar s) as [x|]; [|done].
  by rewrite (Hno x eq_refl).
Qed.

Lemma cache_eta c : set_props (fun _ => props c) c = c.
Proof. by destruct c. Qed.

(** One profile of the loop. *)
Lemma envProfile_spec l c c' :
  envProfile env l c = Some c' ->
  c' = set_props (fun _ => props c') c
  /\ length (props c') = length (props c)
  /\ (forall i m, props c !! i = Some m ->
        exists m', props c' !! i = Some m' /\ EnvRewritten env m m'
                   /\ (UnresolvedUser env m -> m' = m)).
Proof.
  unfold envProfile.
  destruct (objs c !! l) as [o|] eqn:Ho; simpl; [|done].
  destruct (props c !! profile o) as [m|] eqn:Hm; simpl; [|done].
  destruct (envBlock env "user" m) as [[b1 m1]|] eqn:H1; simpl; [|done].
  destruct b1.
  - intros [= <-]. split_and!; [by rewrite cache_eta|done|].
    intros i mi Hi. exists mi. split_and!; [done|apply EnvRewritten_refl|done].
  - destruct (envBlock env "password" m1) as [[b2 m2]|] eqn:H2; simpl; [|done].
    intros [= <-]. simpl. split_and!; [done|apply length_insert|].
    intros i mi Hi. destruct (decide (profile o = i)) as [<-|Hne].
    + rewrite list_lookup_insert_eq by (by eapply lookup_lt_Some).
      assert (mi = m) as -> by congruence.
      exists m2. split; [done|].
      destruct (envBlock_spec _ _ _ _ H1) as (F1 & E1 & _).
      destruct (envBlock_spec _ _ _ _ H2) as (F2 & E2 & _).
      split.
      * split_and!.
        -- intros k Hu Hp. rewrite F2, F1; done.
        -- rewrite F2 by done. done.
        -- rewrite <- (F1 "password") by done. done.
      * intros Hun. rewrite (envBlock_unresolved _ Hun) in H1. done.
    + rewrite list_lookup_insert_ne by done.
      exists mi. split_and!; [done|apply EnvRewritten_refl|done].
Qed.

Lemma UnresolvedUser_keep m m' :
  UnresolvedUser env m -> m' = m -> UnresolvedUser env m'.
Proof. by intros H ->. Qed.

Lemma envLoop_spec ls c c' :
  forOf (envProfile env) ls c = Some c' ->
  c' = set_props (fun _ => props c') c
  /\ length (props c') = length (props c)
  /\ (forall i m, props c !! i = Some m ->
        exists m', props c' !! i = Some m' /\ EnvRewritten env m m'
                   /\ (UnresolvedUser env m -> m' = m)).
Proof.
  revert c. induction ls as [|l ls IH]; intros c; simpl.
  - intros [= <-]. split_and!; [by rewrite cache_eta|done|].
    intros i m Hi. exists m. split_and!; [done|apply EnvRewritten_refl|done].
  - destruct (envProfile env l c) as [c1|] eqn:H1; simpl; [|done].
    intros H2. destruct (envProfile_spec _ _ _ H1) as (E1 & L1 & P1).
    destruct (IH _ H2) as (E2 & L2 & P2).
    split_and!.
    + rewrite E2 at 1. rewrite E1. done.
    + congruence.
    + intros i m Hi. destruct (P1 _ _ Hi) as (m1 & Hi1 & R1 & U1).
      destruct (P2 _ _ Hi1) as (m2 & Hi2 & R2 & U2).
      exists m2. split_and!; [done|by eapply EnvRewritten_trans|].
      intros Hun. specialize (U1 Hun). subst m1. by apply U2.
Qed.




Lemma FromEnv_not_dollar v v' : FromEnv env v v' -> ~ Dollar v -> v' = v.
Proof. by intros [->|[? _]]. Qed.

Lemma NoStartsWith_not_dollar m k : NoStartsWith (getProp m k) -> ~ Dollar (m !! k).
Proof. unfold getProp. intros H (s & E & _). rewrite E in H. done. Qed.

Lemma PlainValue_not_dollar m k : PlainValue (getProp m k) -> ~ Dollar (m !! k).
Proof. unfold getProp. intros H (s & E & Hp). rewrite E in H. simpl in H. congruence. Qed.

Lemma envBlock_throws k m : NoStartsWith (getProp m k) -> envBlock env k m = None.
Proof. unfold envBlock. by destruct (getProp m k). Qed.

Lemma envBlock_plain k m : PlainValue (getProp m k) -> envBlock env k m = Some (false, m).
Proof.
  unfold envBlock. destruct (getProp m k) as [| | | |s|]; simpl; try done.
  by intros ->.
Qed.

(** X11: [checkForEnvVarAndUpdate] ends in a TypeError when a profile of
    [allProfiles] has a number or a boolean as [user], or has one as
    [password] while its [user] is nullish or a string without a leading
    dollar sign. *)
Theorem checkForEnvVarAndUpdate_throws c l o m :
  l ∈ allProfiles c ->
  objs c !! l = Some o ->
  props c !! profile o = Some m ->
  NoStartsWith (getProp m "user")
  \/ (PlainValue (getProp m "user") /\ NoStartsWith (getProp m "password")) ->
  checkForEnvVarAndUpdate env c = None.
Proof.
  intros Hl Ho Hm Hbad. unfold checkForEnvVarAndUpdate.
  apply list_elem_of_split in Hl as (pre & post & ->).
  rewrite forOf_app.
  destruct (forOf (envProfile env) pre c) as [c1|] eqn:Hpre; [|done].
  simpl. destruct (envLoop_spec _ _ _ Hpre) as (E & _ & P).
  destruct (P _ _ Hm) as (m1 & Hm1 & (_ & HU & HP) & _).
  assert (objs c1 = objs c) as Eo by (by rewrite E).
  assert (envProfile env l c1 = None) as ->; [|done].
  unfold envProfile. rewrite Eo, Ho. simpl. rewrite Hm1. simpl.
  destruct Hbad as [Hu|[Hu Hp]].
  - apply FromEnv_not_dollar in HU; [|by apply NoStartsWith_not_dollar].
    rewrite envBlock_throws; [done|]. unfold getProp in *. by rewrite HU.
  - apply FromEnv_not_dollar in HU; [|by apply PlainValue_not_dollar].
    apply FromEnv_not_dollar in HP; [|by apply NoStartsWith_not_dollar].
    rewrite envBlock_plain by (unfold getProp in *; by rewrite HU). simpl.
    rewrite envBlock_throws; [done|]. unfold getProp in *. by rewrite HP.
Qed.

End EnvVars.

(** *** [updateCachedProfile] *)

(** [findIndexProfile] finds the first profile of the list with the name
    and the type of [profileLoaded]. *)
Lemma findIndexProfile_spec c ps pl p i0 r :
  objs c !! pl = Some p ->
  findIndexProfile c ps pl i0 = Some r ->
  match r with
  | Some i => exists j e, i = i0 + j /\ ps !! j = Some e /\ keyOf c e = Some (name p, type p)
                          /\ forall j' x, j' < j -> ps !! j' = Some x ->
                                          keyOf c x ≠ Some (name p, type p)
  | None => forall x, x ∈ ps -> keyOf c x ≠ Some (name p, type p)
  end.
Proof.
  intros Hp. revert i0 r. induction ps as [|l ps IH]; intros i0 r; simpl.
  - intros [= <-] x H. inversion H.
  - destruct (objs c !! l) as [o|] eqn:Ho; simpl; [|done]. rewrite Hp. simpl.
    destruct (bool_decide (type o = type p) && bool_decide (name o = name p)) eqn:Hb.
    + intros [= <-].
      apply andb_true_iff in Hb as [H1%bool_decide_eq_true H2%bool_decide_eq_true].
      exists 0, l. split_and!; [lia|done| |intros; lia].
      apply keyOf_Some. by exists o.
    + assert (keyOf c l ≠ Some (name p, type p)) as Hne.
      { intros (o' & Ho' & E1 & E2)%keyOf_Some. simpl in *.
        assert (o' = o) as -> by congruence.
        rewrite !bool_decide_eq_true_2 in Hb by done. done. }
      intros H. specialize (IH _ _ H). destruct r as [i|].
      * destruct IH as (j & e & -> & Hj & Hk & Hfirst).
        exists (S j), e. split_and!; [lia|done..|].
        intros [|j'] x Hlt; simpl; [by intros [= <-]|]. apply Hfirst. lia.
      * intros x [->|Hx]%elem_of_cons; [done|by apply IH].
Qed.

Lemma findIndexProfile_total c ps pl p i0 :
  objs c !! pl = Some p ->
  (forall l, l ∈ ps -> l < length (objs c)) ->
  is_Some (findIndexProfile c ps pl i0).
Proof.
  intros Hp. revert i0. induction ps as [|l ps IH]; intros i0 HV; simpl; [done|].
  destruct (lookup_lt_is_Some_2 (objs c) l) as [o Ho]; [apply HV; left|].
  rewrite Ho, Hp. simpl. destruct (_ && _); [done|].
  apply IH. intros x Hx. apply HV. by right.
Qed.


Lemma updateCachedProfile_run pl p node c :
  objs c !! pl = Some p ->
  updateCachedProfile pl node c
  = r ← findIndexProfile c (allProfiles c) pl 0;
    i ← r;
    e ← allProfiles c !! i;
    o ← objs c !! e;
    Some (mkCache (<[e := withProfile o p]> (objs c)) (props c) (allProfiles c)
                  (allTypes c) (allExternalTypes c) (profilesByType c)
                  (updatedDefaults c pl p) (profilesForValidation c),
          if node then Some pl else None).
Proof.
  intros Hp. unfold updateCachedProfile.
  destruct (findIndexProfile c (allProfiles c) pl 0) as [[i|]|]; simpl; [|done..].
  destruct (allProfiles c !! i) as [e|]; simpl; [|done].
  destruct (objs c !! e) as [o|] eqn:Ho; simpl; [|done].
  rewrite Hp. simpl. f_equal. f_equal. unfold updatedDefaults.
  fold (withProfile o p).
  destruct (map_get (type p) (defaultProfileByType c)) as [d|]; [|done].
  assert (name <$> <[e:=withProfile o p]> (objs c) !! d = name <$> objs c !! d) as Hn.
  { destruct (decide (e = d)) as [->|Hne].
    - rewrite list_lookup_insert_eq by (by eapply lookup_lt_Some). by rewrite Ho.
    - by rewrite list_lookup_insert_ne. }
  destruct (<[e:=withProfile o p]> (objs c) !! d) as [od|] eqn:Hd; simpl in Hn.
  - destruct (objs c !! d) as [od'|]; simpl in Hn; [|done]. injection Hn as Hn.
    destruct (decide (name od' = name p)) as [E|Hne].
    + rewrite bool_decide_eq_true_2 by congruence.
      rewrite decide_True by (simpl; congruence). done.
    + rewrite bool_decide_eq_false_2 by congruence.
      rewrite decide_False; [done|]. simpl. congruence.
  - by destruct (objs c !! d).
Qed.

(** X12: on a cache whose [allProfiles] holds stored objects only,
    [updateCachedProfile(profileLoaded)] ends in a TypeError exactly when
    no profile of [allProfiles] has the name and the type of
    [profileLoaded]. *)
Theorem updateCachedProfile_throws_iff c pl p node :
  ValidProfiles c ->
  objs c !! pl = Some p ->
  updateCachedProfile pl node c = None
  <-> forall l, l ∈ allProfiles c -> keyOf c l ≠ Some (name p, type p).
Proof.
  intros HV Hp. rewrite (updateCachedProfile_run _ _ _ _ Hp).
  destruct (findIndexProfile_total c (allProfiles c) pl p 0 Hp HV) as [r Hr].
  rewrite Hr. simpl. pose proof (findIndexProfile_spec _ _ _ _ _ _ Hp Hr) as Hspec.
  destruct r as [i|]; simpl.
  - destruct Hspec as (j & e & -> & Hj & Hk & _). simpl.
    destruct (proj1 (keyOf_Some _ _ _) Hk) as (o & Ho & _).
    rewrite Hj. simpl. rewrite Ho. simpl. split; [done|].
    intros Hno. exfalso. apply (Hno e); [by eapply list_elem_of_lookup_2|done].
  - split; [done|]. done.
Qed.


(** A successful call, taken apart. *)
Lemma updateCachedProfile_Some c pl p node c' ev :
  objs c !! pl = Some p ->
  updateCachedProfile pl node c = Some (c', ev) ->
  exists e o,
    FirstWith c (name p, type p) e /\ objs c !! e = Some o
    /\ c' = mkCache (<[e := withProfile o p]> (objs c)) (props c) (allProfiles c)
                    (allTypes c) (allExternalTypes c) (profilesByType c)
                    (updatedDefaults c pl p) (profilesForValidation c)
    /\ ev = (if node then Some pl else None).
Proof.
  intros Hp. rewrite (updateCachedProfile_run _ _ _ _ Hp).
  destruct (findIndexProfile c (allProfiles c) pl 0) as [r|] eqn:Hr; simpl; [|done].
  pose proof (findIndexProfile_spec _ _ _ _ _ _ Hp Hr) as Hspec.
  destruct r as [i|]; simpl; [|done].
  destruct Hspec as (j & e & -> & Hj & Hk & Hfirst). simpl. rewrite Hj. simpl.
  destruct (objs c !! e) as [o|] eqn:Ho; simpl; [|done].
  intros [= <- <-]. exists e, o. split_and!; try done. by exists j.
Qed.

Lemma keyOf_insert_withProfile c e o p l :
  objs c !! e = Some o ->
  (fun o => (name o, type o)) <$> <[e := withProfile o p]> (objs c) !! l = keyOf c l.
Proof.
  intros Ho. unfold keyOf. destruct (decide (e = l)) as [->|Hne].
  - rewrite list_lookup_insert_eq by (by eapply lookup_lt_Some). by rewrite Ho.
  - by rewrite list_lookup_insert_ne.
Qed.

Lemma loadNamedProfile_loop_first c ps n t e :
  t ≠ EmptyString ->
  (exists i, ps !! i = Some e /\ keyOf c e = Some (n, t)
             /\ forall j x, j < i -> ps !! j = Some x -> keyOf c x ≠ Some (n, t)
             /\ is_Some (objs c !! x)) ->
  loadNamedProfile_loop c ps n (Some t) = Some (Some e).
Proof.
  intros Ht (i & Hi & Hk & Hfirst). revert i Hi Hfirst.
  induction ps as [|l ps IH]; intros i Hi Hfirst; [done|].
  assert (noType (Some t) = false) as Hnt.
  { simpl. by apply String.eqb_neq. }
  simpl noType in Hnt. simpl. rewrite Hnt. simpl.
  destruct i as [|i]; simpl in Hi.
  - injection Hi as ->. apply keyOf_Some in Hk as (o & -> & E1 & E2). simpl in *.
    rewrite !bool_decide_eq_true_2 by congruence. done.
  - destruct (Hfirst 0 l) as [Hne [o Ho]]; [lia|done|]. rewrite Ho. simpl.
    destruct (bool_decide (name o = n) && bool_decide (Some (type o) = Some t)) eqn:Hb.
    + apply andb_true_iff in Hb as [H1%bool_decide_eq_true H2%bool_decide_eq_true].
      exfalso. apply Hne, keyOf_Some. exists o. simpl. split_and!; congruence.
    + apply (IH i); [done|]. intros j x Hj Hx. apply (Hfirst (S j)); [lia|done].
Qed.

(** X13: after a successful [updateCachedProfile(profileLoaded)],
    [loadNamedProfile] with the name and the type of [profileLoaded]
    returns the first cached profile with them, which now refers to the
    [profile] object of [profileLoaded], so that the two show the same
    properties; no other object changed, and neither did the stored
    properties, [allProfiles] or [profilesByType]. *)
Theorem updateCachedProfile_then_load c pl p node c' ev optional :
  ValidProfiles c ->
  objs c !! pl = Some p ->
  type p ≠ EmptyString ->
  updateCachedProfile pl node c = Some (c', ev) ->
  exists e,
    loadNamedProfile c' (name p) (Some (type p)) optional = Some (Returned (Some e))
    /\ e ∈ allProfiles c
    /\ profile <$> objs c' !! e = Some (profile p)
    /\ view c' e = view c pl
    /\ view c' pl = view c pl
    /\ (forall l, l ≠ e -> objs c' !! l = objs c !! l)
    /\ props c' = props c
    /\ allProfiles c' = allProfiles c
    /\ profilesByType c' = profilesByType c.
Proof.
  intros HV Hp Hty Hrun.
  destruct (updateCachedProfile_Some _ _ _ _ _ _ Hp Hrun)
    as (e & o & (i & Hi & Hk & Hfirst) & Ho & -> & _).
  exists e. split_and!; simpl; try done.
  - unfold loadNamedProfile; simpl.
    rewrite (loadNamedProfile_loop_first _ _ _ _ e Hty); [done|].
    exists i. split_and!; [done|..].
    + unfold keyOf; simpl. by rewrite (keyOf_insert_withProfile c e o p e Ho).
    + intros j x Hj Hx. split.
      * unfold keyOf; simpl. rewrite (keyOf_insert_withProfile c e o p x Ho). by eapply Hfirst.
      * simpl. apply lookup_lt_is_Some. rewrite length_insert. apply HV.
        by eapply list_elem_of_lookup_2.
  - by eapply list_elem_of_lookup_2.
  - by rewrite list_lookup_insert_eq by (by eapply lookup_lt_Some).
  - unfold view; simpl. rewrite list_lookup_insert_eq by (by eapply lookup_lt_Some).
    rewrite Hp. done.
  - unfold view; simpl. rewrite Hp. destruct (decide (e = pl)) as [->|Hne].
    + rewrite list_lookup_insert_eq by (by eapply lookup_lt_Some). done.
    + rewrite list_lookup_insert_ne by done. by rewrite Hp.
  - intros l Hne. by rewrite list_lookup_insert_ne.
Qed.

Lemma updatedDefaults_keys c pl p ty :
  is_Some (map_get ty (updatedDefaults c pl p))
  <-> is_Some (map_get ty (defaultProfileByType c)).
Proof.
  unfold updatedDefaults.
  destruct (map_get (type p) (defaultProfileByType c)) as [d|] eqn:Hd; [|done].
  destruct (decide _); [|done].
  destruct (decide (ty = type p)) as [->|Hne].
  - rewrite map_get_set_eq, Hd. split; eauto.
  - by rewrite map_get_set_ne.
Qed.

(** X14: [updateCachedProfile(profileLoaded)] makes [profileLoaded] the
    default of its type exactly when that type had a default of the same
    name; the default of every other type stays, a type without a default
    gets none, a cache whose two maps go together keeps that, and
    [setProfileToChoice] is called with [profileLoaded] exactly when a node
    is given. *)
Theorem updateCachedProfile_default c pl p node c' ev :
  objs c !! pl = Some p ->
  updateCachedProfile pl node c = Some (c', ev) ->
  (forall ty, ty ≠ type p ->
     getDefaultProfile c' (Some ty) = getDefaultProfile c (Some ty))
  /\ (forall d, getDefaultProfile c (Some (type p)) = Some d ->
        getDefaultProfile c' (Some (type p))
        = if decide (name <$> objs c !! d = Some (name p)) then Some pl else Some d)
  /\ (getDefaultProfile c (Some (type p)) = None ->
      getDefaultProfile c' (Some (type p)) = None)
  /\ (Linked c -> Linked c')
  /\ ev = (if node then Some pl else None).
Proof.
  intros Hp Hrun.
  destruct (updateCachedProfile_Some _ _ _ _ _ _ Hp Hrun) as (e & o & _ & Ho & -> & ->).
  unfold getDefaultProfile; simpl. split_and!; try done.
  - intros ty Hne. unfold updatedDefaults.
    destruct (map_get (type p) (defaultProfileByType c)); [|done].
    destruct (decide _); [|done]. by rewrite map_get_set_ne.
  - intros d Hd. unfold updatedDefaults. rewrite Hd.
    destruct (decide _); [|done]. by rewrite map_get_set_eq.
  - intros Hd. unfold updatedDefaults. by rewrite Hd.
  - intros HL ty. unfold Linked; simpl. rewrite updatedDefaults_keys. apply HL.
Qed.


(** *** The profiles fetched from the library *)


Lemma SameRest_refl c : SameRest c c.
Proof. by unfold SameRest. Qed.

Lemma SameRest_trans c1 c2 c3 : SameRest c1 c2 -> SameRest c2 c3 -> SameRest c1 c3.
Proof. unfold SameRest. intros (?&?&?&?&?&?) (?&?&?&?&?&?). split_and!; congruence. Qed.

Lemma baseView_extend c c' :
  BaseStored c ->
  defaultProfileByType c' = defaultProfileByType c ->
  (exists os, objs c' = objs c ++ os) ->
  (exists ms, props c' = props c ++ ms) ->
  baseView c' = baseView c /\ BaseStored c'.
Proof.
  intros HB Hd [os Ho] [ms Hm]. unfold baseView, BaseStored. rewrite Hd. split.
  - destruct (map_get "base" (defaultProfileByType c)) as [d|] eqn:Hget; [|done].
    destruct (HB d Hget) as (o & Hod & Hlt). simpl. unfold view.
    rewrite Ho, lookup_app_l by (by eapply lookup_lt_Some). rewrite Hod. simpl.
    by rewrite Hm, lookup_app_l.
  - intros d Hget. destruct (HB d Hget) as (o & Hod & Hlt). exists o.
    rewrite Ho, lookup_app_l by (by eapply lookup_lt_Some). split; [done|].
    rewrite Hm, length_app. lia.
Qed.

Section Fetch.
Variable TOKEN_TYPE_APIML : string.
Variable env : string -> JsVal.

Lemma fetchProfile_step info p c acc c2 acc' :
  fetchProfile TOKEN_TYPE_APIML info p (c, acc) = Some (c2, acc') ->
  acc' = acc ++ [length (objs c)]
  /\ objs c2 = objs c ++ [getProfileLoaded (profName p) (profType p) (length (props c))]
  /\ SameRest c c2
  /\ exists m, props c2 = props c ++ [m]
               /\ (BaseStored c -> Fetched TOKEN_TYPE_APIML info (baseView c) p m).
Proof.
  unfold fetchProfile.
  set (merged := getMergedAttrs info (Some p)).
  set (fix_ := getProfileLoaded (profName p) (profType p) (length (props c))).
  set (c1 := set_objs _ (set_props _ c)).
  assert (objs c1 = objs c ++ [fix_]) as Ho1 by done.
  assert (props c1 = props c ++ [merged]) as Hp1 by done.
  assert (SameRest c c1) as HS1 by done.
  change (length (objs (set_props (fun ps => ps ++ [merged]) c))) with (length (objs c)).
  clearbody c1.
  assert (view c1 (length (objs c)) = Some (Some merged)) as Hview.
  { unfold view. rewrite Ho1, list_lookup_middle by done. simpl.
    by rewrite Hp1, list_lookup_middle. }
  unfold checkMergingConfigSingleProfile. fold (baseView c1). rewrite Hview.
  destruct (shouldRemoveTokenFromProfile TOKEN_TYPE_APIML (Some (Some merged)) (baseView c1))
    as [r|] eqn:Hr; simpl; [|done].
  assert (BaseStored c -> baseView c1 = baseView c) as Hbv.
  { intros HB. destruct (baseView_extend c c1 HB) as [E _]; [|by eexists..|done].
    by destruct HS1 as (_&_&_&_&?&_). }
  destruct (truthy r) eqn:Ht.
  - rewrite Ho1, list_lookup_middle by done. simpl.
    rewrite Hp1, list_lookup_middle by done. simpl.
    intros [= <- <-]. simpl. split_and!; try done.
    exists (scrub merged). split.
    + rewrite Hp1. rewrite <- (Nat.add_0_r (length (props c))). by rewrite insert_app_r.
    + intros HB. left. fold merged. split; [|done]. rewrite <- (Hbv HB).
      apply shouldRemove_true_iff. rewrite Hr. f_equal. by eapply shouldRemove_value.
  - intros [= <- <-]. split_and!; try done. exists merged. split; [done|].
    intros HB. right. fold merged. split; [|done]. rewrite <- (Hbv HB).
    intros HC%shouldRemove_true_iff. rewrite HC in Hr. by injection Hr as <-.
Qed.

(** The loop of [fetchAllProfilesByType]. *)
Lemma fetchProfile_loop info profs c c' ls :
  forOf (fetchProfile TOKEN_TYPE_APIML info) profs (c, []) = Some (c', ls) ->
  ls = seq (length (objs c)) (length profs)
  /\ objs c' = objs c ++ imap (fun j p => getProfileLoaded (profName p) (profType p)
                                            (length (props c) + j)) profs
  /\ SameRest c c'
  /\ exists ms, props c' = props c ++ ms /\ length ms = length profs
                /\ (BaseStored c ->
                    Forall2 (Fetched TOKEN_TYPE_APIML info (baseView c)) profs ms).
Proof.
  apply (forOf_invariant_prefix _ (fun pre s =>
    s.2 = seq (length (objs c)) (length pre)
    /\ objs s.1 = objs c ++ imap (fun j p => getProfileLoaded (profName p) (profType p)
                                              (length (props c) + j)) pre
    /\ SameRest c s.1
    /\ exists ms, props s.1 = props c ++ ms /\ length ms = length pre
                  /\ (BaseStored c ->
                      Forall2 (Fetched TOKEN_TYPE_APIML info (baseView c)) pre ms))).
  - intros pre p post [ca acca] [cb accb] _ (Hacc & Ho & HS & ms & Hm & Hlen & HF) Hstep.
    simpl in *.
    apply fetchProfile_step in Hstep as (-> & Ho' & HS' & m & Hm' & HF').
    split_and!.
    + rewrite Hacc, length_app, seq_app. simpl. f_equal. f_equal.
      rewrite Ho, length_app, length_imap. done.
    + rewrite Ho', Ho, imap_app, <- app_assoc. simpl. f_equal. f_equal. f_equal.
      rewrite Hm, length_app. f_equal. lia.
    + by eapply SameRest_trans.
    + exists (ms ++ [m]). split_and!.
      * by rewrite Hm', Hm, <- app_assoc.
      * rewrite !length_app. simpl. lia.
      * intros HB. apply Forall2_app; [by apply HF|]. constructor; [|constructor].
        destruct (baseView_extend c ca HB) as [Hbv HB2];
          [by destruct HS as (_&_&_&_&?&_)|by eexists..|].
        rewrite <- Hbv. by apply HF'.
  - simpl. split_and!; [done|by rewrite app_nil_r|apply SameRest_refl|].
    exists []. split_and!; [by rewrite app_nil_r|done|constructor].
Qed.


Lemma getProfileInfo_spec c c1 :
  getProfileInfo env c = Some c1 ->
  objs c1 = objs c /\ SameRest c c1 /\ length (props c1) = length (props c).
Proof.
  unfold getProfileInfo, checkForEnvVarAndUpdate. intros (E & L & _)%envLoop_spec.
  rewrite E. done.
Qed.

(** [fetchAllProfilesByType], taken apart. *)
Lemma fetchAllProfilesByType_run info ty c c' ls :
  fetchAllProfilesByType TOKEN_TYPE_APIML env info ty c = Some (c', ls) ->
  exists c1,
    getProfileInfo env c = Some c1
    /\ ls = seq (length (objs c)) (length (getAllProfiles info ty))
    /\ objs c' = objs c ++ imap (fun j p => getProfileLoaded (profName p) (profType p)
                                              (length (props c) + j))
                                (getAllProfiles info ty)
    /\ SameRest c c'
    /\ exists ms, props c' = props c1 ++ ms /\ length ms = length (getAllProfiles info ty)
                  /\ (BaseStored c ->
                      Forall2 (Fetched TOKEN_TYPE_APIML info (baseView c1))
                              (getAllProfiles info ty) ms).
Proof.
  unfold fetchAllProfilesByType.
  destruct (getProfileInfo env c) as [c1|] eqn:H1; simpl; [|done].
  destruct (getProfileInfo_spec _ _ H1) as (Ho & HS & Hlen).
  assert (BaseStored c -> BaseStored c1) as HB1.
  { intros HB d. destruct HS as (_&_&_&_&->&_). intros Hd.
    destruct (HB d Hd) as (o & ? & ?). exists o. rewrite Ho, Hlen. done. }
  intros Hrun. exists c1. split; [done|].
  assert (forOf (fetchProfile TOKEN_TYPE_APIML info) (getAllProfiles info ty) (c1, [])
          = Some (c', ls)) as Hloop.
  { by destruct (getAllProfiles info ty). }
  apply fetchProfile_loop in Hloop as (-> & Ho' & HS' & ms & Hm & Hl & HF).
  rewrite <- Ho, <- Hlen. split_and!; try done.
  - by eapply SameRest_trans.
  - exists ms. split_and!; try done. intros HB. by apply HF, HB1.
Qed.

Lemma Fetched_not_Conditions info b p m :
  Fetched TOKEN_TYPE_APIML info b p m ->
  ~ Conditions TOKEN_TYPE_APIML (Some (Some m)) b.
Proof.
  intros [[_ ->]|[H ->]]; [|done].
  intros HC%Conditions_tokens. apply HC, scrub_TokensUndefined.
Qed.

(** X15: [fetchAllProfilesByType(type)], on a cache whose default base
    profile is stored, returns new objects, one for each profile that the
    library lists for the type (with or without a location), with its name
    and type; each carries the merged properties, with [tokenType] and
    [tokenValue] undefined exactly when the token conditions hold of the
    merged properties against the cached default base profile, so that the
    conditions hold of none of them afterwards. The objects of the cache
    stay where they are, and so do [allProfiles] and the two maps. *)
Theorem fetchAllProfilesByType_spec info ty c c' ls :
  BaseStored c ->
  fetchAllProfilesByType TOKEN_TYPE_APIML env info ty c = Some (c', ls) ->
  ls = seq (length (objs c)) (length (getAllProfiles info ty))
  /\ Forall2 (fun l p =>
                keyOf c' l = Some (attrKey p)
                /\ exists m, view c' l = Some (Some m)
                             /\ Fetched TOKEN_TYPE_APIML info (baseView c') p m)
             ls (getAllProfiles info ty)
  /\ (forall l, l ∈ ls -> ~ Conditions TOKEN_TYPE_APIML (view c' l) (baseView c'))
  /\ SameRest c c'
  /\ take (length (objs c)) (objs c') = objs c.
Proof.
  intros HB (c1 & H1 & -> & Ho & HS & ms & Hm & Hlen & HF)%fetchAllProfilesByType_run.
  specialize (HF HB). destruct (getProfileInfo_spec _ _ H1) as (Ho1 & HS1 & Hlen1).
  assert (BaseStored c1) as HB1.
  { intros d. destruct HS1 as (_&_&_&_&->&_). intros Hd.
    destruct (HB d Hd) as (o & ? & ?). exists o. rewrite Ho1, Hlen1. done. }
  assert (baseView c' = baseView c1) as Hbv.
  { destruct (baseView_extend c1 c' HB1) as [E _]; [| |by eexists|done].
    - destruct HS as (_&_&_&_&->&_). by destruct HS1 as (_&_&_&_&->&_).
    - rewrite Ho1. by eexists. }
  set (profs := getAllProfiles info ty) in *.
  assert (Forall2 (fun l p =>
                keyOf c' l = Some (attrKey p)
                /\ exists m, view c' l = Some (Some m)
                             /\ Fetched TOKEN_TYPE_APIML info (baseView c') p m)
             (seq (length (objs c)) (length profs)) profs) as HF2.
  { apply Forall2_same_length_lookup. split; [by rewrite length_seq|].
    intros j l p [-> Hj]%lookup_seq Hp.
    assert (objs c' !! (length (objs c) + j)
            = Some (getProfileLoaded (profName p) (profType p) (length (props c) + j))) as Hobj.
    { rewrite Ho, lookup_app_r by lia.
      replace (length (objs c) + j - length (objs c)) with j by lia.
      by rewrite list_lookup_imap, Hp. }
    split; [unfold keyOf; by rewrite Hobj|].
    destruct (Forall2_lookup_l _ _ _ _ _ HF Hp) as (m & Hmj & HFm).
    exists m. split; [|by rewrite Hbv].
    unfold view. rewrite Hobj. simpl. rewrite Hm, <- Hlen1, lookup_app_r by lia.
    replace (length (props c1) + j - length (props c1)) with j by lia. by rewrite Hmj. }
  split_and!; try done.
  - intros l [j Hj]%list_elem_of_lookup.
    destruct (Forall2_lookup_l _ _ _ _ _ HF2 Hj) as (p & _ & _ & m & -> & HFm).
    by eapply Fetched_not_Conditions.
  - by rewrite Ho, take_app_length.
Qed.


(** The keys of fetched profiles. *)
Lemma fetched_keys info ty c c' ls :
  fetchAllProfilesByType TOKEN_TYPE_APIML env info ty c = Some (c', ls) ->
  Forall2 (fun l p => keyOf c' l = Some (attrKey p)) ls (getAllProfiles info ty).
Proof.
  intros (c1 & _ & -> & Ho & _)%fetchAllProfilesByType_run.
  apply Forall2_same_length_lookup. split; [by rewrite length_seq|].
  intros j l p [-> Hj]%lookup_seq Hp. unfold keyOf.
  rewrite Ho, lookup_app_r by lia.
  replace (length (objs c) + j - length (objs c)) with j by lia.
  by rewrite list_lookup_imap, Hp.
Qed.

Lemma directLoad_loop_spec c ls ps n :
  Forall2 (fun l p => keyOf c l = Some (attrKey p)) ls ps ->
  directLoad_loop c ls n
  = Some (match list_find (fun p => profName p = n) ps with
          | Some (j, _) => ls !! j
          | None => None
          end).
Proof.
  induction 1 as [|l p ls ps Hk _ IH]; [done|].
  apply keyOf_Some in Hk as (o & Ho & E1 & _). simpl in *. rewrite Ho. simpl.
  destruct (decide (profName p = n)) as [E|Hne].
  - rewrite bool_decide_eq_true_2 by congruence. done.
  - rewrite bool_decide_eq_false_2 by congruence. rewrite IH.
    by destruct (list_find _ ps) as [[j q]|].
Qed.

(** X16: [directLoad(type, name)] returns the first of the profiles of
    [fetchAllProfilesByType(type)] with the name, which has the name and
    type of the first such profile of the library, and returns undefined
    exactly when the name is not among [getNamesForType(type)]. *)
Theorem directLoad_spec info ty n c c' r :
  directLoad TOKEN_TYPE_APIML env info ty n c = Some (c', r) ->
  (exists ls c1,
     fetchAllProfilesByType TOKEN_TYPE_APIML env info ty c = Some (c', ls)
     /\ getNamesForType env info ty c = Some (c1, profName <$> getAllProfiles info ty))
  /\ match list_find (fun p => profName p = n) (getAllProfiles info ty) with
     | Some (j, p) => r = Some (length (objs c) + j) /\ keyOf c' (length (objs c) + j) = Some (attrKey p)
     | None => r = None
     end
  /\ (is_Some r <-> n ∈ profName <$> getAllProfiles info ty).
Proof.
  unfold directLoad.
  destruct (fetchAllProfilesByType _ _ _ _ _) as [[c2 ls]|] eqn:Hf; simpl; [|done].
  pose proof (fetched_keys _ _ _ _ _ Hf) as Hk.
  rewrite (directLoad_loop_spec _ _ _ _ Hk). simpl. intros [= <- <-].
  destruct (fetchAllProfilesByType_run _ _ _ _ _ Hf) as (c1 & H1 & Hls & _).
  split; [|split].
  - exists ls, c1. split; [done|]. unfold getNamesForType. by rewrite H1.
  - destruct (list_find _ _) as [[j p]|] eqn:Hfind; [|done].
    apply list_find_Some in Hfind as (Hj & _ & _).
    destruct (Forall2_lookup_r _ _ _ _ _ Hk Hj) as (l & Hl & Hkl).
    assert (l = length (objs c) + j) as ->.
    { rewrite Hls in Hl. by apply lookup_seq in Hl as [-> _]. }
    by rewrite Hl.
  - destruct (list_find _ _) as [[j p]|] eqn:Hfind.
    + apply list_find_Some in Hfind as (Hj & Hn & _).
      destruct (Forall2_lookup_r _ _ _ _ _ Hk Hj) as (l & Hl & _). rewrite Hl.
      split; [|by eauto]. intros _. apply list_elem_of_fmap. exists p.
      split; [done|by eapply list_elem_of_lookup_2].
    + apply list_find_None in Hfind. split; [by intros [? ?]|].
      intros (p & -> & Hp)%list_elem_of_fmap. exfalso.
      rewrite Forall_forall in Hfind. by apply (Hfind p).
Qed.

(** The loop of [fetchAllProfiles]. *)
Lemma fetchType_loop info tys c c' ls :
  forOf (fetchType TOKEN_TYPE_APIML env info) tys (c, []) = Some (c', ls) ->
  ls = seq (length (objs c)) (length (tys ≫= getAllProfiles info))
  /\ length (objs c') = length (objs c) + length ls
  /\ take (length (objs c)) (objs c') = objs c
  /\ SameRest c c'
  /\ Forall2 (fun l p => keyOf c' l = Some (attrKey p)) ls (tys ≫= getAllProfiles info).
Proof.
  apply (forOf_invariant_prefix _ (fun pre s =>
    s.2 = seq (length (objs c)) (length (pre ≫= getAllProfiles info))
    /\ length (objs s.1) = length (objs c) + length s.2
    /\ take (length (objs c)) (objs s.1) = objs c
    /\ SameRest c s.1
    /\ Forall2 (fun l p => keyOf s.1 l = Some (attrKey p)) s.2
               (pre ≫= getAllProfiles info))).
  - intros pre ty post [ca acca] [cb accb] _ (Hacc & Hlen & Htake & HS & HF). simpl in *.
    unfold fetchType.
    destruct (fetchAllProfilesByType _ _ _ _ _) as [[c2 ls2]|] eqn:Hf; simpl; [|done].
    intros [= <- <-].
    pose proof (fetched_keys _ _ _ _ _ Hf) as Hk.
    destruct (fetchAllProfilesByType_run _ _ _ _ _ Hf) as (c1 & _ & Hls & Ho & HS2 & _).
    rewrite bind_app, bind_singleton, length_app.
    assert (length acca = length (pre ≫= getAllProfiles info)) as Hla
      by (by rewrite Hacc, length_seq).
    split_and!.
    + rewrite seq_app, Hacc, Hls. f_equal. f_equal. rewrite Hlen, Hla. done.
    + rewrite Ho, !length_app, length_imap, Hls, length_seq. lia.
    + rewrite Ho, take_app_le by lia. done.
    + by eapply SameRest_trans.
    + apply Forall2_app; [|done].
      eapply Forall2_impl; [done|]. intros l p (o & Hol & E1 & E2)%keyOf_Some.
      apply keyOf_Some. exists o. split; [|done].
      rewrite Ho, lookup_app_l; [done|by eapply lookup_lt_Some].
  - simpl. split_and!; [done|lia|by rewrite firstn_all|apply SameRest_refl|constructor].
Qed.

(** X17: [fetchAllProfiles()] replaces [allProfiles] by new objects, one
    for each profile that the library lists for the types of [allTypes], in
    order, with its name and type; it leaves the objects from before,
    [allTypes], [profilesByType] and [defaultProfileByType] alone, so that
    the two maps keep objects none of which is in [allProfiles] any
    more. *)
Theorem fetchAllProfiles_spec info c c' ls :
  fetchAllProfiles TOKEN_TYPE_APIML env info c = Some (c', ls) ->
  allProfiles c' = ls
  /\ ls = seq (length (objs c)) (length (allTypes c ≫= getAllProfiles info))
  /\ keyOf c' <$> ls
     = (fun p => Some (attrKey p)) <$> (allTypes c ≫= getAllProfiles info)
  /\ take (length (objs c)) (objs c') = objs c
  /\ allTypes c' = allTypes c
  /\ profilesByType c' = profilesByType c
  /\ defaultProfileByType c' = defaultProfileByType c
  /\ (forall l, l ∈ allProfiles c' -> length (objs c) <= l).
Proof.
  unfold fetchAllProfiles.
  destruct (forOf _ (allTypes c) (c, [])) as [[c2 ls2]|] eqn:Hloop; simpl; [|done].
  intros [= <- <-].
  apply fetchType_loop in Hloop as (Hls & Hlen & Htake & (_ & Ht & _ & Hb & Hd & _) & HF).
  simpl. split_and!; try done.
  - apply Forall2_fmap_eq. eapply Forall2_impl; [done|]. by intros l p H.
  - intros l Hin. rewrite Hls in Hin. apply list_elem_of_lookup in Hin as [j Hj].
    apply lookup_seq in Hj as [-> _]. lia.
Qed.

End Fetch.

(** *** The profile type configurations *)


Lemma findIndexType_spec t a i0 :
  match findIndexType t a i0 with
  | Some i => exists j ele, i = i0 + j /\ a !! j = Some ele /\ configType ele = t
                            /\ forall j' x, j' < j -> a !! j' = Some x -> configType x ≠ t
  | None => forall x, x ∈ a -> configType x ≠ t
  end.
Proof.
  revert i0. induction a as [|ele a IH]; intros i0; simpl.
  - intros x H. inversion H.
  - destruct (decide (configType ele = t)) as [E|Hne].
    + rewrite bool_decide_eq_true_2 by done. exists 0, ele.
      split_and!; [lia|done..|intros; lia].
    + rewrite bool_decide_eq_false_2 by done. specialize (IH (S i0)).
      destruct (findIndexType t a (S i0)) as [i|].
      * destruct IH as (j & x & -> & Hj & Hx & Hfirst). exists (S j), x.
        split_and!; [lia|done..|].
        intros [|j'] y Hlt; simpl; [by intros [= <-]|]. apply Hfirst. lia.
      * intros x [->|Hx]%elem_of_cons; [done|by apply IH].
Qed.

Lemma configOfType_insert t item a j ele :
  a !! j = Some ele -> configType ele = configType item ->
  (forall j' x, j' < j -> a !! j' = Some x -> configType x ≠ configType item) ->
  configOfType t (<[j := item]> a)
  = if decide (t = configType item) then Some item else configOfType t a.
Proof.
  unfold configOfType. revert j. induction a as [|x a IH]; intros j Hj Hele Hfirst; [done|].
  destruct j as [|j]; simpl in *.
  - injection Hj as ->. destruct (decide (t = configType item)) as [->|Hne].
    + by rewrite bool_decide_eq_true_2.
    + rewrite !bool_decide_eq_false_2 by congruence. done.
  - assert (configType x ≠ configType item) as Hx by (apply (Hfirst 0); [lia|done]).
    rewrite (IH j); [|done..|intros j' y Hlt Hy; apply (Hfirst (S j')); [lia|done]].
    destruct (decide (t = configType item)) as [->|Hne]; [|done].
    by rewrite bool_decide_eq_false_2.
Qed.

Lemma configOfType_snoc t item a :
  (forall x, x ∈ a -> configType x ≠ configType item) ->
  configOfType t (a ++ [item])
  = if decide (t = configType item) then Some item else configOfType t a.
Proof.
  unfold configOfType. intros Hno. induction a as [|x a IH]; simpl.
  - destruct (decide (t = configType item)) as [->|Hne].
    + by rewrite bool_decide_eq_true_2.
    + by rewrite bool_decide_eq_false_2.
  - rewrite IH by (intros y Hy; apply Hno; by right).
    destruct (decide (t = configType item)) as [->|Hne]; [|done].
    rewrite bool_decide_eq_false_2; [done|]. apply Hno. left.
Qed.

(** One item: the arrays afterwards. *)
Lemma addItem_spec item s :
  let s' := addItem item s in
  (forall t, configOfType t (sessionProfileTypeConfigurations s')
             = if decide (t = configType item) then Some item
               else configOfType t (sessionProfileTypeConfigurations s))
  /\ (exists new, configType <$> sessionProfileTypeConfigurations s'
                  = (configType <$> sessionProfileTypeConfigurations s) ++ new
                  /\ (new = [] \/ (new = [configType item]
                                   /\ configType item
                                      ∉ configType <$> sessionProfileTypeConfigurations s)))
  /\ (profileTypeConfigurations s = Some <$> sessionProfileTypeConfigurations s ->
      profileTypeConfigurations s' = Some <$> sessionProfileTypeConfigurations s').
Proof.
  unfold addItem.
  pose proof (findIndexType_spec (configType item) (sessionProfileTypeConfigurations s) 0)
    as Hspec.
  destruct (findIndexType _ _ 0) as [i|]; simpl.
  - destruct Hspec as (j & ele & -> & Hj & Hele & Hfirst). simpl. split_and!.
    + intros t. by apply (configOfType_insert t item _ j ele).
    + exists []. split; [|by left]. rewrite app_nil_r, list_fmap_insert.
      apply list_insert_id. by rewrite list_lookup_fmap, Hj, <- Hele.
    + intros ->. unfold arraySet. rewrite length_fmap.
      assert (j < length (sessionProfileTypeConfigurations s)) as Hlt
        by (by eapply lookup_lt_Some).
      apply Nat.ltb_lt in Hlt. rewrite Hlt. by rewrite list_fmap_insert.
  - split_and!.
    + intros t. by apply configOfType_snoc.
    + exists [configType item]. split; [by rewrite fmap_app|]. right. split; [done|].
      intros (x & E & Hx)%list_elem_of_fmap. by apply (Hspec x).
    + intros ->. by rewrite fmap_app.
Qed.

Lemma addToConfigArray_snoc items item s :
  addToConfigArray (Some (items ++ [item])) s = addItem item (addToConfigArray (Some items) s).
Proof. simpl. by rewrite fold_left_app. Qed.

(** X18: [addToConfigArray] keeps one configuration per type in the
    session array: afterwards the configuration found for a type is the
    last item of that type handed in, or the one from before when no item
    has the type; the types from before keep their places and new ones are
    appended; an array without duplicate types stays so; the array of the
    cache follows the session array when it matched it before, while a
    cache that starts with an empty array gets holes in it when the type is
    already in the session array; and an undefined argument changes
    nothing. *)
Theorem addToConfigArray_spec items s t :
  configOfType t (getConfigArray (addToConfigArray (Some items) s))
  = match last (filter (fun item => configType item = t) items) with
    | Some item => Some item
    | None => configOfType t (getConfigArray s)
    end
  /\ (exists new, configType <$> getConfigArray (addToConfigArray (Some items) s)
                  = (configType <$> getConfigArray s) ++ new)
  /\ (NoDup (configType <$> getConfigArray s) ->
      NoDup (configType <$> getConfigArray (addToConfigArray (Some items) s)))
  /\ (profileTypeConfigurations s = Some <$> sessionProfileTypeConfigurations s ->
      profileTypeConfigurations (addToConfigArray (Some items) s)
      = Some <$> sessionProfileTypeConfigurations (addToConfigArray (Some items) s))
  /\ (forall item i,
        profileTypeConfigurations s = [] ->
        findIndexType (configType item) (sessionProfileTypeConfigurations s) 0 = Some i ->
        profileTypeConfigurations (addToConfigArray (Some [item]) s)
        = replicate i None ++ [Some item])
  /\ addToConfigArray None s = s.
Proof.
  assert (forall item i,
        profileTypeConfigurations s = [] ->
        findIndexType (configType item) (sessionProfileTypeConfigurations s) 0 = Some i ->
        profileTypeConfigurations (addToConfigArray (Some [item]) s)
        = replicate i None ++ [Some item]) as Hholes.
  { intros item i He Hi. simpl. unfold addItem. rewrite Hi. simpl.
    unfold arraySet. rewrite He. simpl. by rewrite Nat.sub_0_r. }
  unfold getConfigArray. induction items as [|item items IH] using rev_ind.
  - simpl. split_and!; try done. exists []. by rewrite app_nil_r.
  - destruct IH as (IH1 & (new & IH2) & IH3 & IH4 & _).
    rewrite addToConfigArray_snoc.
    destruct (addItem_spec item (addToConfigArray (Some items) s)) as (H1 & (n1 & H2 & Hn) & H3).
    split_and!; try done.
    + rewrite H1, filter_app, filter_cons, filter_nil.
      destruct (decide (t = configType item)) as [->|Hne].
      * rewrite decide_True by done. by rewrite last_snoc.
      * rewrite decide_False by done. by rewrite app_nil_r.
    + exists (new ++ n1). by rewrite H2, IH2, app_assoc.
    + intros Hnd. specialize (IH3 Hnd). rewrite H2.
      destruct Hn as [->|[-> Hnin]]; [by rewrite app_nil_r|].
      apply NoDup_app. split_and!; [done| |apply NoDup_singleton].
      intros x Hx ->%list_elem_of_singleton. done.
    + intros Hsync. by apply H3, IH4.
Qed.


(** *** [refresh] completes *)











Section Total.
Variable TOKEN_TYPE_APIML : string.
Variable env : string -> JsVal.




















(** *** The fetching methods complete *)




End Total.

(** *** The properties, on the examples *)

Lemma refresh_loads_library_profiles_witness :
  exists c',
    refresh APIML exampleEnv exampleInfo ["zosmf"] newCache = Some c'
    /\ keyOf c' <$> allProfiles c'
       = [Some ("lpar1", "zosmf"); Some ("lpar2", "zosmf"); Some ("global_base", "base")].
Proof.
  destruct (refresh APIML exampleEnv exampleInfo ["zosmf"] newCache) as [c'|] eqn:Hrun;
    [|vm_compute in Hrun; discriminate].
  pose proof (refresh_loads_library_profiles APIML exampleEnv exampleInfo ["zosmf"]
                newCache c' Hrun) as H.
  observe Hrun getAllTypes Ht. rewrite Ht in H.
  exists c'. split; [reflexivity|]. rewrite H. reflexivity.
Defined.


Lemma getAllTypes_after_refresh_witness :
  exists c',
    refresh APIML exampleEnv exampleInfo ["zosmf"] newCache = Some c'
    /\ NoDup (getAllTypes c')
    /\ "base" ∈ getAllTypes c'.
Proof.
  destruct (refresh APIML exampleEnv exampleInfo ["zosmf"] newCache) as [c'|] eqn:Hrun;
    [|vm_compute in Hrun; discriminate].
  destruct (getAllTypes_after_refresh APIML exampleEnv exampleInfo ["zosmf"] newCache c'
              Hrun) as (H1 & H2).
  exists c'. split; [reflexivity|]. split; [exact H1|]. apply H2. auto.
Defined.

Lemma exampleCache_ValidProfiles : ValidProfiles exampleCache.
Proof.
  intros l Hl. simpl in *.
  repeat (apply elem_of_cons in Hl as [->|Hl]; [lia|]). inversion Hl.
Defined.

Lemma refresh_reuses_cached_objects_witness :
  exists c',
    refresh APIML exampleEnv exampleInfo ["zosmf"] exampleCache = Some c'
    /\ Forall2 (fun l p => Origin exampleCache p l)
               (allProfiles c') (loadedProfiles exampleInfo (getAllTypes c'))
    /\ allProfiles c' = allProfiles exampleCache
    /\ length (objs exampleCache) < length (objs c').
Proof.
  destruct (refresh APIML exampleEnv exampleInfo ["zosmf"] exampleCache) as [c'|] eqn:Hrun;
    [|vm_compute in Hrun; discriminate].
  observe Hrun allProfiles Ha.
  observe Hrun (fun c => length (objs c)) Hlen.
  exists c'. split; [reflexivity|]. split; [|split].
  - exact (refresh_reuses_cached_objects APIML exampleEnv exampleInfo ["zosmf"] exampleCache
             c' exampleCache_ValidProfiles Hrun).
  - rewrite Ha. reflexivity.
  - rewrite Hlen. simpl. lia.
Defined.

Lemma refresh_again_keeps_objects_witness :
  exists c1 c2,
    refresh APIML exampleEnv exampleInfo ["zosmf"] newCache = Some c1
    /\ refresh APIML exampleEnv exampleInfo ["zosmf"] c1 = Some c2
    /\ allProfiles c2 = allProfiles c1.
Proof.
  destruct (refresh APIML exampleEnv exampleInfo ["zosmf"] newCache) as [c1|] eqn:H1;
    [|vm_compute in H1; discriminate].
  assert ((refresh APIML exampleEnv exampleInfo ["zosmf"] newCache
             ≫= refresh APIML exampleEnv exampleInfo ["zosmf"])
          ≫= (fun _ => Some tt) = Some tt) as Hboth by (vm_compute; reflexivity).
  rewrite H1 in Hboth. cbn [mbind option_bind] in Hboth.
  destruct (refresh APIML exampleEnv exampleInfo ["zosmf"] c1) as [c2|] eqn:H2;
    [|discriminate].
  observe H1 getAllTypes Ht.
  assert (NoDup (attrKey <$> loadedProfiles exampleInfo (getAllTypes c1))) as Hnd.
  { rewrite Ht. apply (bool_decide_unpack _). vm_compute. reflexivity. }
  exists c1, c2. split; [reflexivity|]. split; [exact H2|].
  exact (refresh_again_keeps_objects APIML exampleEnv exampleInfo ["zosmf"] newCache c1 c2
           H1 H2 Hnd).
Defined.

Lemma registerCustomProfilesType_refresh_witness :
  exists c',
    refresh APIML exampleEnv exampleInfo [] (registerCustomProfilesType "zosmf" newCache)
    = Some c'
    /\ "zosmf" ∈ getAllTypes c'.
Proof.
  destruct (refresh APIML exampleEnv exampleInfo []
              (registerCustomProfilesType "zosmf" newCache)) as [c'|] eqn:Hrun;
    [|vm_compute in Hrun; discriminate].
  exists c'. split; [reflexivity|].
  exact (proj1 (registerCustomProfilesType_refresh APIML exampleEnv exampleInfo [] newCache
                  c' "zosmf" Hrun)).
Defined.

Lemma loadNamedProfile_after_refresh_witness :
  exists c' l,
    refresh APIML exampleEnv exampleInfo ["zosmf"] newCache = Some c'
    /\ loadNamedProfile c' "lpar2" (Some "zosmf") None = Some (Returned (Some l))
    /\ l ∈ allProfiles c'
    /\ loadNamedProfile c' "lpar3" None (Some true) = Some (Returned None).
Proof.
  destruct (refresh APIML exampleEnv exampleInfo ["zosmf"] newCache) as [c'|] eqn:Hrun;
    [|vm_compute in Hrun; discriminate].
  observe Hrun getAllTypes Ht.
  destruct (loadNamedProfile_after_refresh APIML exampleEnv exampleInfo ["zosmf"] newCache c'
              "lpar2" (Some "zosmf") None Hrun) as [Hfound _].
  destruct (loadNamedProfile_after_refresh APIML exampleEnv exampleInfo ["zosmf"] newCache c'
              "lpar3" None (Some true) Hrun) as [_ Hnone].
  rewrite Ht in Hfound, Hnone.
  destruct Hfound as (l & Hl & Hin & _).
  { exists (mkProfAttrs "lpar2" "zosmf" false (Some ["zowe.config.json"])). split.
    - apply (list_elem_of_lookup_2 _ 1). reflexivity.
    - split; [reflexivity|]. by intros s [= <-] _. }
  exists c', l. split; [reflexivity|]. split; [exact Hl|]. split; [exact Hin|].
  apply Hnone. intros p Hp [Hn _].
  assert (Forall (fun p => profName p ≠ "lpar3")
                 (loadedProfiles exampleInfo ["zosmf"; "ssh"; "base"])) as Hall
    by (repeat constructor; discriminate).
  rewrite Forall_forall in Hall. by apply (Hall p).
Defined.

Lemma getBaseProfile_after_refresh_witness :
  exists c' l,
    refresh APIML exampleEnv exampleInfo ["zosmf"] newCache = Some c'
    /\ getBaseProfile c' = Some (Some l)
    /\ keyOf c' l = Some ("global_base", "base").
Proof.
  destruct (refresh APIML exampleEnv exampleInfo ["zosmf"] newCache) as [c'|] eqn:Hrun;
    [|vm_compute in Hrun; discriminate].
  destruct (getBaseProfile_after_refresh APIML exampleEnv exampleInfo ["zosmf"] newCache c'
              exampleInfo_typed Hrun) as [_ H].
  assert (last (profilesForType exampleInfo "base")
          = Some (mkProfAttrs "global_base" "base" true (Some ["zowe.config.json"]))) as E
    by reflexivity.
  rewrite E in H. destruct H as (l & H1 & H2).
  exists c', l. split; [reflexivity|]. split; [exact H1|exact H2].
Defined.

(** A user that names a member that [process.env] inherits becomes that
    member, a function, and the next call throws on it. *)
Example checkForEnvVarAndUpdate_inherited_member :
  (c ← checkForEnvVarAndUpdate exampleEnv exampleCacheInherited;
   Some ((fun m => getProp m "user") <$> props c !! 0))
  = Some (Some (VObj 0))
  /\ (checkForEnvVarAndUpdate exampleEnv exampleCacheInherited
      ≫= checkForEnvVarAndUpdate exampleEnv) = None.
Proof. split; vm_compute; reflexivity. Qed.




Lemma checkForEnvVarAndUpdate_throws_witness :
  checkForEnvVarAndUpdate exampleEnv exampleCacheNumericUser = None.
Proof.
  apply (checkForEnvVarAndUpdate_throws exampleEnv exampleCacheNumericUser 0
           (mkProfileLoaded "" "lpar1" "zosmf" 0 false) {["user" := VNum 42]}).
  - left.
  - reflexivity.
  - reflexivity.
  - left. exact I.
Defined.

Lemma updateCachedProfile_throws_iff_witness :
  updateCachedProfile 4 false exampleCache = None
  /\ updateCachedProfile 3 false exampleCache ≠ None.
Proof.
  split.
  - apply (proj2 (updateCachedProfile_throws_iff exampleCache 4
                    (mkProfileLoaded "" "lpar9" "zosmf" 3 false) false
                    exampleCache_ValidProfiles eq_refl)).
    intros l Hl. simpl in Hl.
    repeat (apply elem_of_cons in Hl as [->|Hl]; [discriminate|]). inversion Hl.
  - intros H.
    apply (proj1 (updateCachedProfile_throws_iff exampleCache 3
                    (mkProfileLoaded "" "lpar1" "zosmf" 3 false) false
                    exampleCache_ValidProfiles eq_refl)) with (l := 0) in H.
    + by apply H.
    + left.
Defined.

Lemma updateCachedProfile_then_load_witness :
  exists c' ev e,
    updateCachedProfile 3 true exampleCache = Some (c', ev)
    /\ loadNamedProfile c' "lpar1" (Some "zosmf") None = Some (Returned (Some e))
    /\ view c' e = view exampleCache 3.
Proof.
  destruct (updateCachedProfile 3 true exampleCache) as [[c' ev]|] eqn:Hrun;
    [|vm_compute in Hrun; discriminate].
  destruct (updateCachedProfile_then_load exampleCache 3
              (mkProfileLoaded "" "lpar1" "zosmf" 3 false) true c' ev None
              exampleCache_ValidProfiles eq_refl) as (e & H1 & _ & _ & H3 & _);
    [discriminate|exact Hrun|].
  exists c', ev, e. split; [reflexivity|]. split; [exact H1|exact H3].
Defined.

Lemma updateCachedProfile_default_witness :
  exists c' ev,
    updateCachedProfile 3 true exampleCache = Some (c', ev)
    /\ getDefaultProfile c' (Some "zosmf") = Some 3
    /\ getDefaultProfile c' (Some "base") = Some 2
    /\ ev = Some 3.
Proof.
  destruct (updateCachedProfile 3 true exampleCache) as [[c' ev]|] eqn:Hrun;
    [|vm_compute in Hrun; discriminate].
  destruct (updateCachedProfile_default exampleCache 3
              (mkProfileLoaded "" "lpar1" "zosmf" 3 false) true c' ev eq_refl Hrun)
    as (H1 & H2 & _ & _ & H5).
  exists c', ev. split; [reflexivity|]. split; [|split; [|exact H5]].
  - exact (H2 0 eq_refl).
  - rewrite (H1 "base") by discriminate. reflexivity.
Defined.

Lemma exampleCache_BaseStored : BaseStored exampleCache.
Proof.
  intros d [= <-]. exists (mkProfileLoaded "" "global_base" "base" 2 false).
  split; [reflexivity|]. simpl. lia.
Defined.

Lemma fetchAllProfilesByType_spec_witness :
  exists c' ls,
    fetchAllProfilesByType APIML exampleEnv exampleInfo "zosmf" exampleCache = Some (c', ls)
    /\ ls = [5; 6]
    /\ (forall l, l ∈ ls -> ~ Conditions APIML (view c' l) (baseView c')).
Proof.
  destruct (fetchAllProfilesByType APIML exampleEnv exampleInfo "zosmf" exampleCache)
    as [[c' ls]|] eqn:Hrun; [|vm_compute in Hrun; discriminate].
  destruct (fetchAllProfilesByType_spec APIML exampleEnv exampleInfo "zosmf" exampleCache
              c' ls exampleCache_BaseStored Hrun) as (H1 & _ & H3 & _).
  exists c', ls. split; [reflexivity|]. split; [exact H1|exact H3].
Defined.

Lemma directLoad_spec_witness :
  exists c' r,
    directLoad APIML exampleEnv exampleInfo "zosmf" "lpar2" exampleCache = Some (c', r)
    /\ r = Some 6
    /\ keyOf c' 6 = Some ("lpar2", "zosmf").
Proof.
  destruct (directLoad APIML exampleEnv exampleInfo "zosmf" "lpar2" exampleCache)
    as [[c' r]|] eqn:Hrun; [|vm_compute in Hrun; discriminate].
  destruct (directLoad_spec APIML exampleEnv exampleInfo "zosmf" "lpar2" exampleCache c' r
              Hrun) as (_ & H & _).
  exists c', r. split; [reflexivity|]. exact H.
Defined.

Lemma fetchAllProfiles_spec_witness :
  exists c' ls,
    fetchAllProfiles APIML exampleEnv exampleInfo exampleCache = Some (c', ls)
    /\ allProfiles c' = [5; 6; 7]
    /\ profilesByType c' = [("zosmf", [0; 1]); ("base", [2])].
Proof.
  destruct (fetchAllProfiles APIML exampleEnv exampleInfo exampleCache)
    as [[c' ls]|] eqn:Hrun; [|vm_compute in Hrun; discriminate].
  destruct (fetchAllProfiles_spec APIML exampleEnv exampleInfo exampleCache c' ls Hrun)
    as (H1 & H2 & _ & _ & _ & H6 & _).
  exists c', ls. split; [reflexivity|]. split; [by rewrite H1, H2|exact H6].
Defined.







End ProfilesCacheLaws.

(** ** Further properties of the utilities *)
Module SharedUtilsLaws.
Import Js SharedUtils SharedUtilsViews Examples MoreExamples.

(** *** [concatChildNodes] *)

(** Induction over trees: a property of the children gives it of the
    node. *)
Lemma IZoweNodeType_ind (P : IZoweNodeType -> Prop) :
  (forall l u, P (ZoweNode l u None)) ->
  (forall l u nodes, Forall P nodes -> P (ZoweNode l u (Some nodes))) ->
  forall node, P node.
Proof.
  intros Hleaf Hnode. fix IH 1. intros [l u [nodes|]]; [|apply Hleaf].
  apply Hnode. induction nodes as [|n nodes IHn]; constructor; [apply IH|apply IHn].
Qed.

Lemma concatLoop_acc visit nodes acc :
  concatLoop visit nodes acc = (r ← concatLoop visit nodes []; Some (acc ++ r)).
Proof.
  revert acc. induction nodes as [|n nodes IH]; intros acc; simpl.
  - by rewrite app_nil_r.
  - destruct (visit n) as [r|]; simpl; [|done].
    rewrite IH, (IH r). destruct (concatLoop visit nodes []) as [r'|]; simpl; [|done].
    by rewrite app_assoc.
Qed.

Lemma concatChildNodes_cons node rest :
  concatChildNodes (node :: rest)
  = (a ← concatNode node; b ← concatChildNodes rest; Some (a ++ b)).
Proof.
  unfold concatChildNodes. simpl. destruct (concatNode node) as [a|]; simpl; [|done].
  by rewrite concatLoop_acc.
Qed.

Lemma concatNode_eq l u c :
  concatNode (ZoweNode l u c)
  = (nodes ← c; sub ← concatChildNodes nodes; Some (sub ++ [ZoweNode l u c])).
Proof. by destruct c. Qed.

Lemma concatChildNodes_app xs ys :
  concatChildNodes (xs ++ ys)
  = (a ← concatChildNodes xs; b ← concatChildNodes ys; Some (a ++ b)).
Proof.
  induction xs as [|x xs IH]; simpl.
  - change (concatChildNodes []) with (Some (@nil IZoweNodeType)). simpl.
    by destruct (concatChildNodes ys).
  - rewrite !concatChildNodes_cons, IH. destruct (concatNode x) as [a|]; simpl; [|done].
    destruct (concatChildNodes xs) as [b|]; simpl; [|done].
    destruct (concatChildNodes ys) as [d|]; simpl; [|done]. by rewrite app_assoc.
Qed.


Lemma forest_cons n nodes : forest (n :: nodes) = subtree n ++ forest nodes.
Proof. done. Qed.

Lemma subtree_eq l u c :
  subtree (ZoweNode l u c) = ZoweNode l u c :: forest (default [] c).
Proof. by destruct c. Qed.

(** The result lists the nodes of the forest, and there is one exactly
    when every node has children. *)
Lemma concatNode_spec node :
  (Complete [node] -> exists r, concatNode node = Some r /\ r ≡ₚ subtree node)
  /\ (~ Complete [node] -> concatNode node = None).
Proof.
  induction node as [l u|l u nodes IH] using IZoweNodeType_ind.
  - split.
    + intros H. unfold Complete in H. simpl in H. apply Forall_cons in H as [[? ?] _]. done.
    + done.
  - assert ((Complete nodes -> exists r, concatChildNodes nodes = Some r /\ r ≡ₚ forest nodes)
            /\ (~ Complete nodes -> concatChildNodes nodes = None)) as [Hc Hn].
    { induction IH as [|n ns [Hn1 Hn2] _ [IH1 IH2]].
      - split; [|intros H; exfalso; apply H; constructor].
        intros _. by exists [].
      - rewrite concatChildNodes_cons. unfold Complete in *.
        rewrite forest_cons, Forall_app.
        assert (forest [n] = subtree n) as E by (unfold forest; simpl; by rewrite app_nil_r).
        rewrite E in *. split.
        + intros [H1 H2]. destruct (Hn1 H1) as (a & -> & Pa).
          destruct (IH1 H2) as (b & -> & Pb). simpl. exists (a ++ b). split; [done|].
          by rewrite Pa, Pb.
        + intros Hnot. destruct (concatNode n) as [a|] eqn:Ha; simpl; [|done].
          destruct (concatChildNodes ns) as [b|] eqn:Hb; simpl; [|done].
          exfalso. apply Hnot. split.
          * destruct (decide (Forall (fun n => is_Some (children n)) (subtree n)))
              as [?|Hx]; [done|]. discriminate (Hn2 Hx).
          * destruct (decide (Forall (fun n => is_Some (children n)) (forest ns)))
              as [?|Hx]; [done|]. discriminate (IH2 Hx). }
    rewrite concatNode_eq. simpl. unfold Complete in *.
    assert (forest [ZoweNode l u (Some nodes)] = ZoweNode l u (Some nodes) :: forest nodes)
      as E by (unfold forest; simpl; by rewrite app_nil_r).
    rewrite E, Forall_cons. simpl. split.
    + intros [_ H]. destruct (Hc H) as (r & -> & Pr). simpl.
      exists (r ++ [ZoweNode l u (Some nodes)]). split; [done|].
      fold (forest nodes). rewrite Pr. by rewrite Permutation_app_comm.
    + intros Hnot. rewrite Hn; [done|]. intros H. apply Hnot. split; [by eexists|done].
Qed.


Lemma forest_singleton n : forest [n] = subtree n.
Proof. unfold forest; simpl. by rewrite app_nil_r. Qed.

Lemma Complete_cons n nodes : Complete (n :: nodes) <-> Complete [n] /\ Complete nodes.
Proof. unfold Complete. by rewrite forest_cons, forest_singleton, Forall_app. Qed.

(** X19: [concatChildNodes] returns every node of the trees it is given
    exactly once (a permutation of their nodes), and ends in a TypeError
    exactly when some node of them has no array of children. *)
Theorem concatChildNodes_lists_forest nodes :
  (concatChildNodes nodes = None <-> ~ Complete nodes)
  /\ forall r, concatChildNodes nodes = Some r ->
       r ≡ₚ forest nodes /\ length r = length (forest nodes).
Proof.
  assert ((Complete nodes -> exists r, concatChildNodes nodes = Some r /\ r ≡ₚ forest nodes)
          /\ (~ Complete nodes -> concatChildNodes nodes = None)) as [Hc Hn].
  { induction nodes as [|n ns [IH1 IH2]].
    - split; [|intros H; exfalso; apply H; constructor]. intros _. by exists [].
    - rewrite concatChildNodes_cons, Complete_cons. destruct (concatNode_spec n) as [Hn1 Hn2].
      split.
      + intros [H1 H2]. destruct (Hn1 H1) as (a & -> & Pa).
        destruct (IH1 H2) as (b & -> & Pb). exists (a ++ b). split; [done|].
        by rewrite forest_cons, Pa, Pb.
      + intros Hnot. destruct (concatNode n) as [a|] eqn:Ha; simpl; [|done].
        destruct (concatChildNodes ns) as [b|] eqn:Hb; simpl; [|done].
        exfalso. apply Hnot. split.
        * destruct (decide (Complete [n])) as [?|Hx]; [done|]. discriminate (Hn2 Hx).
        * destruct (decide (Complete ns)) as [?|Hx]; [done|]. discriminate (IH2 Hx). }
  split.
  - split; [|done]. intros E Hcomp. destruct (Hc Hcomp) as (r & Hr & _). congruence.
  - intros r Hr. destruct (decide (Complete nodes)) as [Hcomp|Hx].
    + destruct (Hc Hcomp) as (r' & Hr' & P). assert (r' = r) as -> by congruence.
      split; [done|]. by rewrite P.
    + rewrite (Hn Hx) in Hr. done.
Qed.


Lemma BottomUp_nil : BottomUp [].
Proof. intros i n H. done. Qed.

Lemma BottomUp_app a b : BottomUp a -> BottomUp b -> BottomUp (a ++ b).
Proof.
  intros Ha Hb i n Hi. destruct (decide (i < length a)) as [Hlt|Hge].
  - rewrite lookup_app_l in Hi by done.
    destruct (Ha _ _ Hi) as (sub & pre & post & Hs & -> & Hlen).
    exists sub, pre, (post ++ b). split_and!; [done| |done].
    by rewrite <- !app_assoc.
  - rewrite lookup_app_r in Hi by lia.
    destruct (Hb _ _ Hi) as (sub & pre & post & Hs & -> & Hlen).
    exists sub, (a ++ pre), post. split_and!; [done| |].
    + by rewrite <- !app_assoc.
    + rewrite length_app. lia.
Qed.

Lemma BottomUp_root sub l u nodes :
  concatChildNodes nodes = Some sub -> BottomUp sub ->
  BottomUp (sub ++ [ZoweNode l u (Some nodes)]).
Proof.
  intros Hs Hb i n Hi. destruct (decide (i < length sub)) as [Hlt|Hge].
  - rewrite lookup_app_l in Hi by done.
    destruct (Hb _ _ Hi) as (s & pre & post & Hss & -> & Hlen).
    exists s, pre, (post ++ [ZoweNode l u (Some nodes)]). split_and!; [done| |done].
    by rewrite <- !app_assoc.
  - rewrite lookup_app_r in Hi by lia.
    destruct (i - length sub) as [|k] eqn:Ek; simpl in Hi; [|done].
    injection Hi as <-. exists sub, [], []. split_and!; [done|done|simpl; lia].
Qed.

Lemma concatNode_BottomUp node r : concatNode node = Some r -> BottomUp r.
Proof.
  revert r. induction node as [l u|l u nodes IH] using IZoweNodeType_ind; intros r; [done|].
  rewrite concatNode_eq. simpl.
  destruct (concatChildNodes nodes) as [sub|] eqn:Hs; simpl; [|done].
  intros [= <-]. apply BottomUp_root; [done|].
  clear l u. revert sub Hs. induction IH as [|n ns Hn _ IHns]; intros sub.
  - intros [= <-]. apply BottomUp_nil.
  - rewrite concatChildNodes_cons.
    destruct (concatNode n) as [a|] eqn:Ha; simpl; [|done].
    destruct (concatChildNodes ns) as [b|] eqn:Hb; simpl; [|done].
    intros [= <-]. apply BottomUp_app; [by apply Hn|by apply IHns].
Qed.

(** X20: in the list that [concatChildNodes] returns, every node comes
    right after the nodes below it: the entries just before it are the
    list that [concatChildNodes] returns for its children. *)
Theorem concatChildNodes_bottom_up nodes r i n :
  concatChildNodes nodes = Some r ->
  r !! i = Some n ->
  exists sub pre post,
    concatChildNodes (default [] (children n)) = Some sub
    /\ r = pre ++ sub ++ n :: post
    /\ length pre + length sub = i.
Proof.
  intros Hr. revert i n. change (BottomUp r). revert r Hr.
  induction nodes as [|x xs IH]; intros r.
  - intros [= <-]. apply BottomUp_nil.
  - rewrite concatChildNodes_cons.
    destruct (concatNode x) as [a|] eqn:Ha; simpl; [|done].
    destruct (concatChildNodes xs) as [b|] eqn:Hb; simpl; [|done].
    intros [= <-]. apply BottomUp_app; [by eapply concatNode_BottomUp|by apply IH].
Qed.


(** *** [handleDragAndDropOverwrite] and [updateSortOptionsWithDefault] *)

Lemma some_spec {A} (f : A -> option bool) xs b :
  some f xs = Some b ->
  (b = true <-> exists x, x ∈ xs /\ f x = Some true)
  /\ (b = false -> forall x, x ∈ xs -> f x = Some false).
Proof.
  revert b. induction xs as [|x xs IH]; intros b; simpl.
  - intros [= <-]. split; [|intros _ x H; inversion H].
    split; [done|]. intros (x & H & _). inversion H.
  - destruct (f x) as [[|]|] eqn:Hx; simpl; [| |done].
    + intros [= <-]. split; [|done]. split; [|done]. intros _. exists x. split; [left|done].
    + intros H. destruct (IH _ H) as [IH1 IH2]. split.
      * rewrite IH1. split.
        -- intros (y & Hy & Hfy). exists y. split; [by right|done].
        -- intros (y & [->|Hy]%elem_of_cons & Hfy); [congruence|eauto].
      * intros Hb y [->|Hy]%elem_of_cons; [done|by apply IH2].
Qed.

Lemma movedIntoChild_spec target dragged b :
  some (fun n => t ← target; tp ← resourceUri t; np ← resourceUri n;
                 Some (String.prefix np tp)) dragged = Some b ->
  b = true <-> MovedIntoChild target dragged.
Proof.
  intros [H _]%some_spec. rewrite H. unfold MovedIntoChild. split.
  - intros (n & Hn & Hf). destruct target as [t|]; simpl in Hf; [|done].
    destruct (resourceUri t) as [tp|] eqn:Ht; simpl in Hf; [|done].
    destruct (resourceUri n) as [np|] eqn:Hnp; simpl in Hf; [|done].
    injection Hf as Hf. by exists n, t, tp, np.
  - intros (n & t & tp & np & Hn & -> & Ht & Hnp & Hp). exists n. split; [done|].
    simpl. rewrite Ht. simpl. rewrite Hnp. simpl. by rewrite Hp.
Qed.

Lemma willOverwrite_spec target dragged b :
  some (findsLabel target) dragged = Some b ->
  b = true <-> WillOverwrite target dragged.
Proof.
  intros [H _]%some_spec. rewrite H. unfold WillOverwrite, findsLabel. split.
  - intros (n & Hn & Hf). destruct target as [t|]; simpl in Hf; [|done].
    destruct (children t) as [tcs|] eqn:Hc; [|done].
    injection Hf as Hf. apply bool_decide_eq_true in Hf.
    apply Exists_exists in Hf as (tc & Htc & Hl). by exists n, t, tcs, tc.
  - intros (n & t & tcs & tc & Hn & -> & Hc & Htc & Hl). exists n. split; [done|].
    simpl. rewrite Hc. f_equal. apply bool_decide_eq_true, Exists_exists. eauto.
Qed.

(** X21: [handleDragAndDropOverwrite] never approves a drop when the path
    of the target starts with the path of a dragged node, and does not ask
    then; otherwise it asks exactly when a child of the target has the
    label of a dragged node, and then approves exactly when the answer is
    "Confirm"; without such a child it approves without asking. With no
    dragged node it approves whatever the target is, and with dragged nodes
    and an undefined target it ends in a TypeError. *)
Theorem handleDragAndDropOverwrite_spec confirm resp target draggedNodes :
  (forall r asked,
     handleDragAndDropOverwrite confirm resp target draggedNodes = Some (r, asked) ->
     (MovedIntoChild target draggedNodes -> r = false /\ asked = false)
     /\ (asked = true <->
         ~ MovedIntoChild target draggedNodes /\ WillOverwrite target draggedNodes)
     /\ (asked = true -> (r = true <-> resp = Some confirm))
     /\ (asked = false -> (r = true <-> ~ MovedIntoChild target draggedNodes)))
  /\ handleDragAndDropOverwrite confirm resp target [] = Some (true, false)
  /\ (target = None -> draggedNodes ≠ [] ->
      handleDragAndDropOverwrite confirm resp target draggedNodes = None).
Proof.
  split; [|split; [reflexivity|]].
  - intros r asked. unfold handleDragAndDropOverwrite.
    destruct (some (fun n => t ← target; tp ← resourceUri t; np ← resourceUri n;
                             Some (String.prefix np tp)) draggedNodes)
      as [moved|] eqn:Hm; simpl; [|done].
    apply movedIntoChild_spec in Hm. destruct moved.
    + intros [= <- <-]. destruct Hm as [Hm _]. specialize (Hm eq_refl).
      split_and!; try done. split; [done|]. by intros [? _].
    + assert (~ MovedIntoChild target draggedNodes) as Hnot
        by (intros H%Hm; done).
      destruct (some (findsLabel target) draggedNodes) as [over|] eqn:Ho; simpl; [|done].
      apply willOverwrite_spec in Ho. destruct over.
      * destruct Ho as [Ho _]. specialize (Ho eq_refl).
        destruct resp as [x|]; intros [= <- <-].
        -- split_and!; try done.
           intros _. rewrite bool_decide_eq_true. split; [by intros ->|by intros [= ->]].
        -- split_and!; try done.
      * intros [= <- <-]. split_and!; try done.
        split; [done|]. intros [_ H%Ho]. done.
  - intros -> Hne. destruct draggedNodes as [|n rest]; [done|]. done.
Qed.


Lemma Occurs_cons d c s : Occurs d s -> Occurs d (c :: s).
Proof. intros (p & q & ->). by exists (c :: p), q. Qed.

Lemma Occurs_prefix d s : d `prefix_of` s -> Occurs d s.
Proof. intros [k ->]. by exists [], k. Qed.

Lemma replaceFirst_free d s : ~ Occurs d s -> replaceFirst d s = s.
Proof.
  induction s as [|c s IH]; intros Hno.
  - simpl. rewrite bool_decide_eq_false_2; [done|]. intros H. by apply Hno, Occurs_prefix.
  - simpl. rewrite bool_decide_eq_false_2 by (intros H; by apply Hno, Occurs_prefix).
    rewrite IH; [done|]. intros H. by apply Hno, Occurs_cons.
Qed.

(** A marker that starts with a space and has no other one does not
    overlap itself: appended to a string free of it, it is the only
    occurrence. *)
Lemma marker_no_overlap (t s : jsstring) (c : N) :
  32%N ∉ t -> ~ Occurs (32%N :: t) (c :: s) ->
  ~ (32%N :: t) `prefix_of` (c :: s ++ 32%N :: t).
Proof.
  intros Ht Hno [k Hk]. injection Hk as -> Hk.
  destruct (decide (length s < length t)) as [Hlt|Hge].
  - assert ((s ++ 32%N :: t) !! length s = Some 32%N) as H1
      by (by rewrite list_lookup_middle).
    rewrite Hk, lookup_app_l in H1 by done.
    apply Ht. by eapply list_elem_of_lookup_2.
  - apply Hno. exists [], (drop (length t) s). simpl. f_equal.
    assert (take (length t) (s ++ 32%N :: t) = take (length t) (t ++ k)) as H1
      by (by rewrite Hk).
    rewrite take_app_le in H1 by lia. rewrite take_app_length in H1.
    rewrite <- (take_drop (length t) s) at 1. by rewrite H1.
Qed.

Lemma replaceFirst_prefix d s : d `prefix_of` s -> replaceFirst d s = drop (length d) s.
Proof. intros H. destruct s; simpl; by rewrite bool_decide_eq_true_2. Qed.

Lemma replaceFirst_marked (t s : jsstring) :
  32%N ∉ t -> ~ Occurs (32%N :: t) s ->
  replaceFirst (32%N :: t) (s ++ 32%N :: t) = s.
Proof.
  intros Ht. induction s as [|c s IH]; intros Hno.
  - cbn [app]. rewrite replaceFirst_prefix by done. by rewrite drop_all.
  - cbn [app]. simpl.
    rewrite bool_decide_eq_false_2 by (by apply marker_no_overlap).
    rewrite IH; [done|]. intros H. by apply Hno, Occurs_cons.
Qed.

Lemma updateSortOptions_loop_lookup marker m i0 opts j :
  updateSortOptions_loop marker m i0 opts !! j
  = (fun o => if bool_decide (m = Some (Z.of_nat (i0 + j)))
              then replaceFirst marker o ++ marker else replaceFirst marker o)
      <$> opts !! j.
Proof.
  revert i0 j. induction opts as [|o opts IH]; intros i0 j; [done|].
  destruct j as [|j]; simpl.
  - by rewrite Nat.add_0_r.
  - rewrite IH. by replace (S i0 + j) with (i0 + S j) by lia.
Qed.

Lemma updateSortOptions_loop_length marker m i0 opts :
  length (updateSortOptions_loop marker m i0 opts) = length opts.
Proof. revert i0. induction opts as [|o opts IH]; intros i0; simpl; [done|]. by rewrite IH. Qed.

(** X22: on sort options that do not contain the marker " (default)"
    (a space and the localized word, which has no space in it),
    [updateSortOptionsWithDefault] appends the marker to the option at the
    index of the sort method and leaves the others as they are; a second
    call with another method moves the marker: the result is that of the
    second call alone. *)
Theorem updateSortOptionsWithDefault_marks (default_ : jsstring) (m1 m2 : option Z)
    (sortOptions : list jsstring) :
  32%N ∉ default_ ->
  (forall o, o ∈ sortOptions -> ~ Occurs (32%N :: default_) o) ->
  (forall i o, sortOptions !! i = Some o ->
     updateSortOptionsWithDefault default_ m1 sortOptions !! i
     = Some (if bool_decide (m1 = Some (Z.of_nat i)) then o ++ 32%N :: default_ else o))
  /\ length (updateSortOptionsWithDefault default_ m1 sortOptions) = length sortOptions
  /\ updateSortOptionsWithDefault default_ m2
       (updateSortOptionsWithDefault default_ m1 sortOptions)
     = updateSortOptionsWithDefault default_ m2 sortOptions.
Proof.
  intros Ht Hfree. unfold updateSortOptionsWithDefault.
  assert (forall m i o, sortOptions !! i = Some o ->
            updateSortOptions_loop (32%N :: default_) m 0 sortOptions !! i
            = Some (if bool_decide (m = Some (Z.of_nat i))
                    then o ++ 32%N :: default_ else o)) as Hlook.
  { intros m i o Hi. rewrite updateSortOptions_loop_lookup, Hi. simpl.
    rewrite replaceFirst_free; [done|]. apply Hfree. by eapply list_elem_of_lookup_2. }
  split_and!; [by apply Hlook|apply updateSortOptions_loop_length|].
  apply list_eq. intros i. rewrite !updateSortOptions_loop_lookup.
  destruct (sortOptions !! i) as [o|] eqn:Hi; simpl; [|done]. f_equal.
  assert (~ Occurs (32%N :: default_) o) as Hno
    by (apply Hfree; by eapply list_elem_of_lookup_2).
  rewrite (replaceFirst_free _ o Hno).
  destruct (bool_decide (m1 = Some (Z.of_nat i))).
  - by rewrite replaceFirst_marked.
  - by rewrite replaceFirst_free.
Qed.


(** *** The properties, on the examples *)

Lemma Occurs_occursb d s : Occurs d s -> occursb d s = true.
Proof.
  intros (p & q & ->). induction p as [|c p IH]; simpl.
  - destruct (d ++ q) eqn:E; simpl; rewrite bool_decide_eq_true_2; try done.
    + rewrite <- E. by exists q.
    + rewrite <- E. by exists q.
  - rewrite IH. apply orb_true_r.
Qed.

Lemma concatChildNodes_bottom_up_witness :
  exists sub pre post,
    concatChildNodes (default [] (children exampleTree)) = Some sub
    /\ [exampleLeaf "a.txt"; exampleLeaf "dir/b.txt";
        ZoweNode (Some "dir") (Some "/lpar1/dir") (Some [exampleLeaf "dir/b.txt"]);
        exampleTree]
       = pre ++ sub ++ exampleTree :: post
    /\ length pre + length sub = 3.
Proof.
  exact (concatChildNodes_bottom_up [exampleTree] _ 3 exampleTree eq_refl eq_refl).
Defined.

Lemma updateSortOptionsWithDefault_marks_witness :
  updateSortOptionsWithDefault (str "(default)") (Some 0%Z) exampleSortOptions
  = [str "Name (default)"; str "Date Created"]
  /\ updateSortOptionsWithDefault (str "(default)") (Some 1%Z)
       (updateSortOptionsWithDefault (str "(default)") (Some 0%Z) exampleSortOptions)
     = updateSortOptionsWithDefault (str "(default)") (Some 1%Z) exampleSortOptions.
Proof.
  split; [reflexivity|].
  apply (updateSortOptionsWithDefault_marks (str "(default)") (Some 0%Z) (Some 1%Z)
           exampleSortOptions).
  - apply (bool_decide_unpack _). vm_compute. reflexivity.
  - intros o Ho H%Occurs_occursb.
    repeat (apply elem_of_cons in Ho as [->|Ho]; [vm_compute in H; discriminate|]).
    inversion Ho.
Defined.


End SharedUtilsLaws.
